(** * Slic3r: the Model ownership tree, its identity registry and its
      derived geometry, verified against [libslic3r/Model.cpp],
      [slic3r/GUI/GLGizmo.cpp] and [libslic3r/SLA/SLASupportTree.hpp].

    Conventions of the embedding.
    - [unsigned int] and [size_t] are integers of [Z] with the wrap-around
      of 32 and 64 bits written out.
    - [double] (and the [float] of the STL vertices) is idealised as a real
      number: no rounding, no NaN, no infinities.  Comparisons, [std::min]
      and [std::max] then behave as in the source.
    - The code is read with [ENABLE_MODELVOLUME_TRANSFORM] set: [cut],
      [delete_volume] and [split] use [ModelVolume::get_matrix] and
      [ModelVolume::center_geometry] outside of any guard, so the sources
      only compile with it.
    - Pointers of the ownership tree (Model -> ModelObject -> ModelVolume /
      ModelInstance) become containment; an index into [objects], [volumes]
      or [instances] stands for the pointer to that element.  An index out
      of range is undefined behaviour in the source and [None] here. *)

From Stdlib Require Import ZArith List Bool Lia Reals Lra String Sorting.Sorted.
From stdpp Require Import base option list gmap strings sorting.

Set Default Proof Using "Type".
Open Scope Z_scope.

(* ================================================================== *)
(** * Part I.  Definitions                                             *)
(* ================================================================== *)

(** ** Machine integers *)

Definition UINT_MAX : Z := 2 ^ 32 - 1.
Definition SIZE_MAX : Z := 2 ^ 64 - 1.

(** Arithmetic on [unsigned int] is modulo 2^32, on [size_t] modulo 2^64. *)
Definition wrap_uint (z : Z) : Z := z mod 2 ^ 32.
Definition wrap_size_t (z : Z) : Z := z mod 2 ^ 64.

(** ** The auto-extruder counter ([Model::s_auto_extruder_id])

    The state is the value of the static [unsigned int
    Model::s_auto_extruder_id], initially 1 (Model.cpp:22). *)

Module AutoExtruder.

Definition initial : Z := 1.

(** [Model::reset_auto_extruder_id] (Model.cpp:542). *)
Definition reset_auto_extruder_id (s_auto_extruder_id : Z) : Z := 1.

(** [Model::get_auto_extruder_id] (Model.cpp:521): the returned id and the
    counter after the call. *)
Definition get_auto_extruder_id (max_extruders : Z) (s_auto_extruder_id : Z)
  : Z * Z :=
  let id := s_auto_extruder_id in
  if id >? max_extruders then
    (* The current counter is invalid *)
    let s1 := reset_auto_extruder_id s_auto_extruder_id in
    (s1, s1)
  else
    let s1 := wrap_uint (s_auto_extruder_id + 1) in   (* ++ s_auto_extruder_id *)
    if s1 >? max_extruders then (id, reset_auto_extruder_id s1)
    else (id, s1).

(** [n] consecutive calls with the same [max_extruders]: the ids returned,
    in order, and the counter left behind. *)
Fixpoint calls (n : nat) (max_extruders : Z) (s : Z) : list Z * Z :=
  match n with
  | O => ([], s)
  | S n' =>
      let '(id, s1) := get_auto_extruder_id max_extruders s in
      let '(ids, s2) := calls n' max_extruders s1 in
      (id :: ids, s2)
  end.

(** The counter values a process can hold: it starts at 1 and changes only
    through the two functions above, [get_auto_extruder_id] being called
    with any [unsigned int]. *)
Inductive reachable : Z -> Prop :=
| reach_initial : reachable initial
| reach_reset s : reachable s -> reachable (reset_auto_extruder_id s)
| reach_get s max_extruders :
    reachable s -> 0 <= max_extruders <= UINT_MAX ->
    reachable (snd (get_auto_extruder_id max_extruders s)).

End AutoExtruder.

(** ** The identity registry ([ModelBase])

    [struct ModelID { size_t id; }].  The static [size_t
    ModelBase::s_last_id] starts at 0 (Model.cpp:24). *)

Abbreviation ModelID := Z (only parsing).

(** Code that allocates IDs threads the counter [s_last_id]. *)
Definition Alloc (A : Type) : Type := Z -> A * Z.

Definition ret {A} (a : A) : Alloc A := fun s => (a, s).
Definition bind {A B} (c : Alloc A) (k : A -> Alloc B) : Alloc B :=
  fun s => let '(a, s1) := c s in k a s1.

Declare Scope alloc_scope.
Delimit Scope alloc_scope with alloc.
Notation "x <- c ;; k" := (bind c (fun x => k))
  (at level 100, c at next level, right associativity) : alloc_scope.

(** Modelled from the spec: [ModelBase::generate_new_id] is declared in
    Model.hpp, which is not among the sources.  The spec's "process-wide
    monotonically increasing unique-ID allocation" is the pre-increment of
    [s_last_id], a [size_t]. *)
Definition generate_new_id : Alloc ModelID :=
  fun s_last_id => let s1 := wrap_size_t (s_last_id + 1) in (s1, s1).

(** Run [f] over a list, left to right, threading the counter. *)
Fixpoint mapM {A B} (f : A -> Alloc B) (l : list A) : Alloc (list B) :=
  match l with
  | [] => ret []
  | a :: l' => (b <- f a ;; bs <- mapM f l' ;; ret (b :: bs))%alloc
  end.

(** Run [f] over a list, left to right, threading an accumulator and the
    counter: a loop whose body allocates. *)
Fixpoint foldM {A B} (f : B -> A -> Alloc B) (l : list A) (b : B) : Alloc B :=
  match l with
  | [] => ret b
  | a :: l' => (b' <- f b a ;; foldM f l' b')%alloc
  end.

(** ** Geometry kernel

    Eigen's [Vec3d] and [Transform3d], [BoundingBoxf3] and [TriangleMesh]
    are not among the sources.  They are modelled here by their textbook
    meaning over the reals; nothing below depends on how they are laid out. *)

Open Scope R_scope.

Record Vec3d : Type := mkVec3d { vx : R; vy : R; vz : R }.

Definition Vec3d_Zero : Vec3d := mkVec3d 0 0 0.
Definition Vec3d_Ones : Vec3d := mkVec3d 1 1 1.
Definition vadd (a b : Vec3d) : Vec3d :=
  mkVec3d (vx a + vx b) (vy a + vy b) (vz a + vz b).
Definition vsub (a b : Vec3d) : Vec3d :=
  mkVec3d (vx a - vx b) (vy a - vy b) (vz a - vz b).
Definition vneg (a : Vec3d) : Vec3d := mkVec3d (- vx a) (- vy a) (- vz a).
Definition vscale (k : R) (a : Vec3d) : Vec3d :=
  mkVec3d (k * vx a) (k * vy a) (k * vz a).
Definition vdiv (a : Vec3d) (k : R) : Vec3d :=
  mkVec3d (vx a / k) (vy a / k) (vz a / k).
Definition cwiseProduct (a b : Vec3d) : Vec3d :=
  mkVec3d (vx a * vx b) (vy a * vy b) (vz a * vz b).
Definition cwiseMin (a b : Vec3d) : Vec3d :=
  mkVec3d (Rmin (vx a) (vx b)) (Rmin (vy a) (vy b)) (Rmin (vz a) (vz b)).
Definition cwiseMax (a b : Vec3d) : Vec3d :=
  mkVec3d (Rmax (vx a) (vx b)) (Rmax (vy a) (vy b)) (Rmax (vz a) (vz b)).
Definition dot (a b : Vec3d) : R := vx a * vx b + vy a * vy b + vz a * vz b.

(** Eigen's [squaredNorm], [norm] and [normalized]. *)
Definition squaredNorm (a : Vec3d) : R := dot a a.
Definition norm (a : Vec3d) : R := sqrt (squaredNorm a).
Definition normalized (a : Vec3d) : Vec3d := vdiv a (norm a).

(** Eigen's [Vec2d]. *)
Record Vec2d : Type := mkVec2d { v2x : R; v2y : R }.

(** Eigen's [dot], [norm] and [normalized] of a [Vec2d]; [cross2] of
    Point.hpp. *)
Definition v2dot (a b : Vec2d) : R := (v2x a * v2x b + v2y a * v2y b)%R.
Definition v2norm (a : Vec2d) : R := sqrt (v2dot a a).
Definition v2normalized (a : Vec2d) : Vec2d :=
  mkVec2d (v2x a / v2norm a) (v2y a / v2norm a).
Definition cross2 (a b : Vec2d) : R := (v2x a * v2y b - v2y a * v2x b)%R.

(** [Linef3] of Line.hpp: a line through two points. *)
Record Linef3 : Type := mkLinef3 { Linef3_a : Vec3d; Linef3_b : Vec3d }.

Inductive Axis : Type := X | Y | Z_axis.

Definition coord (a : Axis) (v : Vec3d) : R :=
  match a with X => vx v | Y => vy v | Z_axis => vz v end.

(** [std::max(a, b)] is [(a < b) ? b : a]; [std::min(a, b)] is
    [(b < a) ? b : a]. *)
Definition std_max (a b : R) : R := if Rlt_dec a b then b else a.
Definition std_min (a b : R) : R := if Rlt_dec b a then b else a.

(** [std::round]: the nearest integer, halfway cases away from zero. *)
Definition std_round (x : R) : R :=
  if Rle_dec 0 x then IZR (Int_part (x + / 2)) else - IZR (Int_part (- x + / 2)).

(** [clamp] of libslic3r.h. *)
Definition clamp (low high value : R) : R := std_max low (std_min high value).

(** [EPSILON] of libslic3r.h. *)
Definition EPSILON : R := 1 / 10000.

(** [Vec3d::UnitZ()]. *)
Definition UnitZ : Vec3d := mkVec3d 0 0 1.

(** [DBL_MAX], the largest finite [double]: (2 - 2^-52) * 2^1023. *)
Definition DBL_MAX : R := (2 - / 2 ^ 52) * 2 ^ 1023.

(** An affine map: the rows of its linear part and its translation. *)
Record Transform3d : Type := mkTransform3d {
  row0 : Vec3d; row1 : Vec3d; row2 : Vec3d;
  translation : Vec3d
}.

Definition linear_apply (t : Transform3d) (p : Vec3d) : Vec3d :=
  mkVec3d (dot (row0 t) p) (dot (row1 t) p) (dot (row2 t) p).

(** [t * p] for a point [p]. *)
Definition transform_point (t : Transform3d) (p : Vec3d) : Vec3d :=
  vadd (linear_apply t p) (translation t).

Definition col (j : Axis) (t : Transform3d) : Vec3d :=
  mkVec3d (coord j (row0 t)) (coord j (row1 t)) (coord j (row2 t)).

Definition row_times (r : Vec3d) (b : Transform3d) : Vec3d :=
  mkVec3d (dot r (col X b)) (dot r (col Y b)) (dot r (col Z_axis b)).

(** [a * b]: first [b], then [a]. *)
Definition compose (a b : Transform3d) : Transform3d :=
  mkTransform3d (row_times (row0 a) b) (row_times (row1 a) b)
                (row_times (row2 a) b)
                (transform_point a (translation b)).

Definition Transform3d_Identity : Transform3d :=
  mkTransform3d (mkVec3d 1 0 0) (mkVec3d 0 1 0) (mkVec3d 0 0 1) Vec3d_Zero.

Definition translation_transform (d : Vec3d) : Transform3d :=
  mkTransform3d (mkVec3d 1 0 0) (mkVec3d 0 1 0) (mkVec3d 0 0 1) d.

Definition scaling_transform (s : Vec3d) : Transform3d :=
  mkTransform3d (mkVec3d (vx s) 0 0) (mkVec3d 0 (vy s) 0) (mkVec3d 0 0 (vz s))
                Vec3d_Zero.

(** [Eigen::AngleAxisd(angle, UnitX / UnitY / UnitZ)]. *)
Definition rotation_transform (a : Axis) (angle : R) : Transform3d :=
  let c := cos angle in
  let s := sin angle in
  match a with
  | X => mkTransform3d (mkVec3d 1 0 0) (mkVec3d 0 c (- s)) (mkVec3d 0 s c)
                       Vec3d_Zero
  | Y => mkTransform3d (mkVec3d c 0 s) (mkVec3d 0 1 0) (mkVec3d (- s) 0 c)
                       Vec3d_Zero
  | Z_axis => mkTransform3d (mkVec3d c (- s) 0) (mkVec3d s c 0) (mkVec3d 0 0 1)
                            Vec3d_Zero
  end.

(** Modelled from the spec: [Geometry::assemble_transform] lives in
    Geometry.cpp, which is not among the sources.  The spec's placement
    "(translation, Z/Y/X rotation, non-uniform scale, per-axis mirror)" is
    composed in that order: translate, rotate about Z, Y and X, scale by
    scale times mirror. *)
Definition assemble_transform (translation rotation scale mirror : Vec3d)
  : Transform3d :=
  compose (translation_transform translation)
    (compose (rotation_transform Z_axis (vz rotation))
       (compose (rotation_transform Y (vy rotation))
          (compose (rotation_transform X (vx rotation))
             (scaling_transform (cwiseProduct scale mirror))))).

(** Modelled from the spec: [Geometry::Transformation] (Geometry.hpp, not
    among the sources) holds a translation, a rotation, a scale and a
    mirror, with plain accessors; a default one is the identity. *)
Record Transformation : Type := mkTransformation {
  m_offset : Vec3d;
  m_rotation : Vec3d;
  m_scaling_factor : Vec3d;
  m_mirror : Vec3d
}.

Module Transformation.

Definition identity : Transformation :=
  mkTransformation Vec3d_Zero Vec3d_Zero Vec3d_Ones Vec3d_Ones.

Definition set_offset (d : Vec3d) (t : Transformation) : Transformation :=
  mkTransformation d (m_rotation t) (m_scaling_factor t) (m_mirror t).
Definition set_rotation (r : Vec3d) (t : Transformation) : Transformation :=
  mkTransformation (m_offset t) r (m_scaling_factor t) (m_mirror t).
Definition set_scaling_factor (s : Vec3d) (t : Transformation) : Transformation :=
  mkTransformation (m_offset t) (m_rotation t) s (m_mirror t).
Definition set_mirror (m : Vec3d) (t : Transformation) : Transformation :=
  mkTransformation (m_offset t) (m_rotation t) (m_scaling_factor t) m.

(** [get_matrix(dont_translate, dont_rotate, dont_scale, dont_mirror)], as
    [ModelInstance::get_matrix] of Model.cpp:1621 spells it for the build
    without volume transforms. *)
Definition get_matrix4 (dont_translate dont_rotate dont_scale dont_mirror : bool)
  (t : Transformation) : Transform3d :=
  let translation := if dont_translate then Vec3d_Zero else m_offset t in
  let rotation := if dont_rotate then Vec3d_Zero else m_rotation t in
  let scale := if dont_scale then Vec3d_Ones else m_scaling_factor t in
  let mirror := if dont_mirror then Vec3d_Ones else m_mirror t in
  assemble_transform translation rotation scale mirror.

Definition get_matrix (dont_translate : bool) (t : Transformation) : Transform3d :=
  get_matrix4 dont_translate false false false t.

End Transformation.

(** *** Bounding boxes *)

Record BoundingBoxf3 : Type := mkBoundingBoxf3 {
  bb_min : Vec3d; bb_max : Vec3d; defined : bool
}.

Definition BoundingBoxf3_default : BoundingBoxf3 :=
  mkBoundingBoxf3 Vec3d_Zero Vec3d_Zero false.

Definition bb_merge_point (bb : BoundingBoxf3) (p : Vec3d) : BoundingBoxf3 :=
  if defined bb then
    mkBoundingBoxf3 (cwiseMin (bb_min bb) p) (cwiseMax (bb_max bb) p) true
  else mkBoundingBoxf3 p p true.

(** [this->merge(other)]. *)
Definition bb_merge (this other : BoundingBoxf3) : BoundingBoxf3 :=
  if defined other then
    if defined this then
      mkBoundingBoxf3 (cwiseMin (bb_min this) (bb_min other))
                      (cwiseMax (bb_max this) (bb_max other)) true
    else mkBoundingBoxf3 (bb_min other) (bb_max other) true
  else this.

Definition bb_size (bb : BoundingBoxf3) : Vec3d := vsub (bb_max bb) (bb_min bb).
Definition bb_center (bb : BoundingBoxf3) : Vec3d :=
  vdiv (vadd (bb_min bb) (bb_max bb)) 2.
Definition bb_translate (d : Vec3d) (bb : BoundingBoxf3) : BoundingBoxf3 :=
  mkBoundingBoxf3 (vadd (bb_min bb) d) (vadd (bb_max bb) d) (defined bb).

Definition bb_of_points (ps : list Vec3d) : BoundingBoxf3 :=
  fold_left bb_merge_point ps BoundingBoxf3_default.

Definition bb_corners (bb : BoundingBoxf3) : list Vec3d :=
  let a := bb_min bb in
  let b := bb_max bb in
  [ mkVec3d (vx a) (vy a) (vz a); mkVec3d (vx b) (vy a) (vz a);
    mkVec3d (vx b) (vy b) (vz a); mkVec3d (vx a) (vy b) (vz a);
    mkVec3d (vx a) (vy a) (vz b); mkVec3d (vx b) (vy a) (vz b);
    mkVec3d (vx b) (vy b) (vz b); mkVec3d (vx a) (vy b) (vz b) ].

Definition Rleb (a b : R) : bool := if Rle_dec a b then true else false.
Definition Rltb (a b : R) : bool := if Rlt_dec a b then true else false.

(** Modelled from the spec: the constructor [BoundingBoxf3(pmin, pmax)] of
    BoundingBox.hpp, which is not among the sources.  The box is defined
    only if [pmin] lies strictly below [pmax] in x and in y, and is marked
    undefined again if [pmin(2) >= pmax(2)]: a flat box is not defined. *)
Definition BoundingBoxf3_of (pmin pmax : Vec3d) : BoundingBoxf3 :=
  let defined := Rltb (vx pmin) (vx pmax) && Rltb (vy pmin) (vy pmax) in
  mkBoundingBoxf3 pmin pmax
                  (if Rleb (vz pmax) (vz pmin) then false else defined).

(** Modelled from the spec: [BoundingBoxf3::transformed(matrix)] of
    BoundingBox.cpp, which is not among the sources.  It transforms the
    eight corners spanned by [min] and [max], whether the box is defined or
    not, and returns [BoundingBoxf3(pmin, pmax)] for the least and the
    greatest coordinates of the transformed corners. *)
Definition bb_transformed (t : Transform3d) (bb : BoundingBoxf3) : BoundingBoxf3 :=
  let around := bb_of_points (map (transform_point t) (bb_corners bb)) in
  BoundingBoxf3_of (bb_min around) (bb_max around).

Definition vec_leb (a b : Vec3d) : bool :=
  Rleb (vx a) (vx b) && Rleb (vy a) (vy b) && Rleb (vz a) (vz b).

(** [empty(bbox)]. *)
Definition bb_empty (bb : BoundingBoxf3) : bool :=
  negb (defined bb)
  || Rleb (vx (bb_max bb)) (vx (bb_min bb))
  || Rleb (vy (bb_max bb)) (vy (bb_min bb))
  || Rleb (vz (bb_max bb)) (vz (bb_min bb)).

(** [this->contains(other)] and [this->intersects(other)]. *)
Definition bb_contains (this other : BoundingBoxf3) : bool :=
  vec_leb (bb_min this) (bb_min other) && vec_leb (bb_max other) (bb_max this).
Definition bb_intersects (this other : BoundingBoxf3) : bool :=
  Rltb (vx (bb_min this)) (vx (bb_max other))
  && Rltb (vx (bb_min other)) (vx (bb_max this))
  && Rltb (vy (bb_min this)) (vy (bb_max other))
  && Rltb (vy (bb_min other)) (vy (bb_max this))
  && Rltb (vz (bb_min this)) (vz (bb_max other))
  && Rltb (vz (bb_min other)) (vz (bb_max this)).

(** *** Triangle meshes *)

Record stl_facet : Type := mk_facet { vertex0 : Vec3d; vertex1 : Vec3d; vertex2 : Vec3d }.

Definition TriangleMesh : Type := list stl_facet.

Definition facet_map (f : Vec3d -> Vec3d) (t : stl_facet) : stl_facet :=
  mk_facet (f (vertex0 t)) (f (vertex1 t)) (f (vertex2 t)).
Definition facet_vertices (t : stl_facet) : list Vec3d :=
  [vertex0 t; vertex1 t; vertex2 t].

Definition facets_count (m : TriangleMesh) : nat := length m.
Definition mesh_vertices (m : TriangleMesh) : list Vec3d :=
  concat (map facet_vertices m).
Definition mesh_transform (t : Transform3d) (m : TriangleMesh) : TriangleMesh :=
  map (facet_map (transform_point t)) m.
Definition mesh_translate (d : Vec3d) (m : TriangleMesh) : TriangleMesh :=
  map (facet_map (fun p => vadd p d)) m.
Definition mesh_merge (m other : TriangleMesh) : TriangleMesh := m ++ other.

(** [mesh.bounding_box()]: the extent of the vertices. *)
Definition mesh_bounding_box (m : TriangleMesh) : BoundingBoxf3 :=
  bb_of_points (mesh_vertices m).
Definition transformed_bounding_box (t : Transform3d) (m : TriangleMesh)
  : BoundingBoxf3 :=
  bb_of_points (map (transform_point t) (mesh_vertices m)).

(** The mesh algorithms of TriangleMesh.cpp and Geometry.cpp that
    Model.cpp calls and whose results it only passes on.  They are not
    among the sources and stay abstract. *)
Class MeshAlgorithms : Type := {
  (** [TriangleMeshSlicer(&mesh).cut(z, &upper, &lower)]. *)
  tms_cut : R -> TriangleMesh -> TriangleMesh * TriangleMesh;
  (** [mesh.repair()] followed by [mesh.reset_repair_stats()]. *)
  repair : TriangleMesh -> TriangleMesh;
  (** [mesh.convex_hull_3d()]. *)
  convex_hull_3d : TriangleMesh -> TriangleMesh;
  (** [Geometry::extract_euler_angles(Eigen::Quaterniond(
      Eigen::AngleAxisd(angle, axis)).toRotationMatrix())]. *)
  euler_angles_of_axis_angle : R -> Vec3d -> Vec3d;
  (** [Geometry::Transformation(matrix)]: the decomposition of a matrix. *)
  Transformation_of_matrix : Transform3d -> Transformation
}.

(** ** The data model (Model.hpp is not among the sources; the fields are
    those Model.cpp reads and writes) *)

Abbreviation t_model_material_id := string (only parsing).
Definition DynamicPrintConfig : Type := list (string * string).

Record ModelMaterial : Type := mkModelMaterial {
  mm_id : ModelID;
  attributes : list (string * string);
  mm_config : DynamicPrintConfig
}.

Inductive ModelVolumeType : Type :=
| MODEL_PART | PARAMETER_MODIFIER | SUPPORT_ENFORCER | SUPPORT_BLOCKER.

Record ModelVolume : Type := mkModelVolume {
  mv_id : ModelID;
  mv_name : string;
  mesh : TriangleMesh;
  m_convex_hull : TriangleMesh;
  mv_config : DynamicPrintConfig;
  m_type : ModelVolumeType;
  m_material_id : t_model_material_id;
  mv_transformation : Transformation
}.

#[global] Instance ModelVolumeType_eq_dec : EqDecision ModelVolumeType.
Proof. solve_decision. Defined.

Inductive PrintVolumeState : Type :=
| PVS_Inside | PVS_Partly_Outside | PVS_Fully_Outside.

Record ModelInstance : Type := mkModelInstance {
  mi_id : ModelID;
  mi_transformation : Transformation;
  print_volume_state : PrintVolumeState
}.

Record ModelObject : Type := mkModelObject {
  mo_id : ModelID;
  mo_name : string;
  input_file : string;
  mo_config : DynamicPrintConfig;
  sla_support_points : list Vec3d;
  origin_translation : Vec3d;
  volumes : list ModelVolume;
  instances : list ModelInstance;
  m_bounding_box : BoundingBoxf3;
  m_bounding_box_valid : bool
}.

Record Model : Type := mkModel {
  model_id : ModelID;
  materials : gmap t_model_material_id ModelMaterial;
  objects : list ModelObject
}.

(** Errors the data model raises. *)
Inductive Exception : Type :=
| invalid_argument (what : string)
| runtime_error (what : string).

Definition Result (A : Type) : Type := Exception + A.

(** *** ModelVolume *)

Module ModelVolume.
Section Ops.
Context `{MeshAlgorithms}.

Definition with_id (i : ModelID) (v : ModelVolume) : ModelVolume :=
  mkModelVolume i (mv_name v) (mesh v) (m_convex_hull v) (mv_config v)
                (m_type v) (m_material_id v) (mv_transformation v).
Definition with_mesh (m hull : TriangleMesh) (v : ModelVolume) : ModelVolume :=
  mkModelVolume (mv_id v) (mv_name v) m hull (mv_config v)
                (m_type v) (m_material_id v) (mv_transformation v).
Definition set_transformation (t : Transformation) (v : ModelVolume) : ModelVolume :=
  mkModelVolume (mv_id v) (mv_name v) (mesh v) (m_convex_hull v) (mv_config v)
                (m_type v) (m_material_id v) t.
Definition with_name_config_material (n : string) (c : DynamicPrintConfig)
  (mat : t_model_material_id) (v : ModelVolume) : ModelVolume :=
  mkModelVolume (mv_id v) n (mesh v) (m_convex_hull v) c
                (m_type v) mat (mv_transformation v).

Definition is_model_part (v : ModelVolume) : bool :=
  match m_type v with MODEL_PART => true | _ => false end.

Definition get_matrix (v : ModelVolume) : Transform3d :=
  Transformation.get_matrix false (mv_transformation v).
Definition get_offset (v : ModelVolume) : Vec3d := m_offset (mv_transformation v).
Definition get_rotation (v : ModelVolume) : Vec3d := m_rotation (mv_transformation v).
Definition get_scaling_factor (v : ModelVolume) : Vec3d :=
  m_scaling_factor (mv_transformation v).
Definition get_mirror (v : ModelVolume) : Vec3d := m_mirror (mv_transformation v).
Definition set_offset (d : Vec3d) (v : ModelVolume) : ModelVolume :=
  set_transformation (Transformation.set_offset d (mv_transformation v)) v.
Definition set_rotation (r : Vec3d) (v : ModelVolume) : ModelVolume :=
  set_transformation (Transformation.set_rotation r (mv_transformation v)) v.
Definition set_scaling_factor (k : Vec3d) (v : ModelVolume) : ModelVolume :=
  set_transformation (Transformation.set_scaling_factor k (mv_transformation v)) v.
Definition set_mirror (k : Vec3d) (v : ModelVolume) : ModelVolume :=
  set_transformation (Transformation.set_mirror k (mv_transformation v)) v.

(** Modelled from the spec: the constructors are declared in Model.hpp.
    "A process-unique numeric ID [is] assigned at construction"; a volume
    built from a mesh is a model part with the identity transform, and its
    convex hull is derived from the mesh. *)
Definition new_from_mesh (m : TriangleMesh) : Alloc ModelVolume :=
  (i <- generate_new_id ;;
   ret (mkModelVolume i EmptyString m (convex_hull_3d m) [] MODEL_PART EmptyString
                      Transformation.identity))%alloc.

(** Modelled from the spec: the constructor [ModelVolume(object, other)] is
    declared in Model.hpp.  It is a copy under a new parent, the spec's
    default copy, which "assigns a fresh" ID. *)
Definition new_from_other (other : ModelVolume) : Alloc ModelVolume :=
  (i <- generate_new_id ;; ret (with_id i other))%alloc.

(** Modelled from the spec: the constructor [ModelVolume(object, other,
    mesh)] is declared in Model.hpp.  Name, config and type of [other]
    around a new mesh, under a new ID. *)
Definition new_from_other_mesh (other : ModelVolume) (m : TriangleMesh)
  : Alloc ModelVolume :=
  (i <- generate_new_id ;;
   ret (mkModelVolume i (mv_name other) m (convex_hull_3d m) (mv_config other)
                      (m_type other) EmptyString Transformation.identity))%alloc.

(** Modelled from the spec: [ModelBase::set_new_unique_id] is declared in
    Model.hpp; it takes the next ID.  It is also the
    [assign_new_unique_ids_recursive] of an entity without children. *)
Definition set_new_unique_id (v : ModelVolume) : Alloc ModelVolume :=
  (i <- generate_new_id ;; ret (with_id i v))%alloc.

(** Model.cpp:1436. *)
Definition translate (displacement : Vec3d) (v : ModelVolume) : ModelVolume :=
  set_offset (vadd (get_offset v) displacement) v.

(** Model.cpp:1446. *)
Definition scale (scaling_factors : Vec3d) (v : ModelVolume) : ModelVolume :=
  set_scaling_factor (cwiseProduct (get_scaling_factor v) scaling_factors) v.

(** Model.cpp:1471. *)
Definition rotate (angle : R) (axis : Vec3d) (v : ModelVolume) : ModelVolume :=
  set_rotation (vadd (get_rotation v) (euler_angles_of_axis_angle angle axis)) v.

(** Model.cpp:1456. *)
Definition rotate_axis (angle : R) (axis : Axis) (v : ModelVolume) : ModelVolume :=
  match axis with
  | X => rotate angle (mkVec3d 1 0 0) v
  | Y => rotate angle (mkVec3d 0 1 0) v
  | Z_axis => rotate angle (mkVec3d 0 0 1) v
  end.

(** Model.cpp:1481. *)
Definition mirror (axis : Axis) (v : ModelVolume) : ModelVolume :=
  let mirror := get_mirror v in
  let mirror :=
    match axis with
    | X => mkVec3d (vx mirror * -1) (vy mirror) (vz mirror)
    | Y => mkVec3d (vx mirror) (vy mirror * -1) (vz mirror)
    | Z_axis => mkVec3d (vx mirror) (vy mirror) (vz mirror * -1)
    end in
  set_mirror mirror v.

(** Model.cpp:1339. *)
Definition center_geometry (v : ModelVolume) : ModelVolume :=
  let shift := vneg (bb_center (mesh_bounding_box (mesh v))) in
  let v := with_mesh (mesh_translate shift (mesh v))
                     (mesh_translate shift (m_convex_hull v)) v in
  translate (vneg shift) v.

(** Model.cpp:1348. *)
Definition calculate_convex_hull (v : ModelVolume) : ModelVolume :=
  with_mesh (mesh v) (convex_hull_3d (mesh v)) v.

(** Model.cpp:1353. *)
Definition get_convex_hull (v : ModelVolume) : TriangleMesh := m_convex_hull v.

(** Model.cpp:1358.  The last case is reached under [assert(s == "0")],
    which is [type_from_string_assert]; a release build returns
    [MODEL_PART] there whatever the string. *)
Definition type_from_string (s : string) : ModelVolumeType :=
  (* Legacy support *)
  if String.eqb s "1" then PARAMETER_MODIFIER
  (* New type (supporting the support enforcers & blockers) *)
  else if String.eqb s "ModelPart" then MODEL_PART
  else if String.eqb s "ParameterModifier" then PARAMETER_MODIFIER
  else if String.eqb s "SupportEnforcer" then SUPPORT_ENFORCER
  else if String.eqb s "SupportBlocker" then SUPPORT_BLOCKER
  (* Default value if invalid type string received. *)
  else MODEL_PART.

Definition type_from_string_assert (s : string) : bool :=
  String.eqb s "1" || String.eqb s "ModelPart" || String.eqb s "ParameterModifier"
  || String.eqb s "SupportEnforcer" || String.eqb s "SupportBlocker"
  || String.eqb s "0".

(** Model.cpp:1377. *)
Definition type_to_string (t : ModelVolumeType) : string :=
  match t with
  | MODEL_PART => "ModelPart"
  | PARAMETER_MODIFIER => "ParameterModifier"
  | SUPPORT_ENFORCER => "SupportEnforcer"
  | SUPPORT_BLOCKER => "SupportBlocker"
  end.

End Ops.
End ModelVolume.

(** *** ModelInstance *)

Module ModelInstance.

Definition with_id (i : ModelID) (inst : ModelInstance) : ModelInstance :=
  mkModelInstance i (mi_transformation inst) (print_volume_state inst).
Definition set_transformation (t : Transformation) (inst : ModelInstance)
  : ModelInstance :=
  mkModelInstance (mi_id inst) t (print_volume_state inst).
Definition set_print_volume_state (p : PrintVolumeState) (inst : ModelInstance)
  : ModelInstance :=
  mkModelInstance (mi_id inst) (mi_transformation inst) p.

Definition get_offset (i : ModelInstance) : Vec3d := m_offset (mi_transformation i).
Definition get_rotation (i : ModelInstance) : Vec3d := m_rotation (mi_transformation i).
Definition get_scaling_factor (i : ModelInstance) : Vec3d :=
  m_scaling_factor (mi_transformation i).
Definition get_mirror (i : ModelInstance) : Vec3d := m_mirror (mi_transformation i).
Definition set_offset (d : Vec3d) (i : ModelInstance) : ModelInstance :=
  set_transformation (Transformation.set_offset d (mi_transformation i)) i.
Definition set_rotation (r : Vec3d) (i : ModelInstance) : ModelInstance :=
  set_transformation (Transformation.set_rotation r (mi_transformation i)) i.
Definition set_scaling_factor (k : Vec3d) (i : ModelInstance) : ModelInstance :=
  set_transformation (Transformation.set_scaling_factor k (mi_transformation i)) i.

Definition get_matrix (dont_translate : bool) (i : ModelInstance) : Transform3d :=
  Transformation.get_matrix dont_translate (mi_transformation i).

(** Modelled from the spec: the constructors are declared in Model.hpp; an
    ID is assigned at construction, the placement is the identity or that
    of [other]. *)
Definition new_default : Alloc ModelInstance :=
  (i <- generate_new_id ;;
   ret (mkModelInstance i Transformation.identity PVS_Inside))%alloc.
(** Modelled from the spec: the constructor [ModelInstance(object, other)]
    is declared in Model.hpp; a new ID, the placement of [other]. *)
Definition new_from_other (other : ModelInstance) : Alloc ModelInstance :=
  (i <- generate_new_id ;;
   ret (mkModelInstance i (mi_transformation other) PVS_Inside))%alloc.

(** Modelled from the spec: [ModelBase::set_new_unique_id] of Model.hpp. *)
Definition set_new_unique_id (inst : ModelInstance) : Alloc ModelInstance :=
  (i <- generate_new_id ;; ret (with_id i inst))%alloc.

(** One round of the loop "scale the bounding box along the three axes"
    of Model.cpp:1565. *)
Definition scale_box_axis (inst : ModelInstance) (a : Axis) (bbox : BoundingBoxf3)
  : BoundingBoxf3 :=
  let k := coord a (get_scaling_factor inst) in
  if Rlt_dec EPSILON (Rabs (k - 1)) then
    let sc (v : Vec3d) :=
      match a with
      | X => mkVec3d (vx v * k) (vy v) (vz v)
      | Y => mkVec3d (vx v) (vy v * k) (vz v)
      | Z_axis => mkVec3d (vx v) (vy v) (vz v * k)
      end in
    mkBoundingBoxf3 (sc (bb_min bbox)) (sc (bb_max bbox)) (defined bbox)
  else bbox.

(** Model.cpp:1556. *)
Definition transform_mesh_bounding_box (inst : ModelInstance) (m : TriangleMesh)
  (dont_translate : bool) : BoundingBoxf3 :=
  (* Rotate around mesh origin. *)
  let copy := mesh_transform
                (Transformation.get_matrix4 true false true true
                   (mi_transformation inst)) m in
  let bbox := mesh_bounding_box copy in
  if negb (bb_empty bbox) then
    let bbox := scale_box_axis inst X bbox in
    let bbox := scale_box_axis inst Y bbox in
    let bbox := scale_box_axis inst Z_axis bbox in
    if negb dont_translate then
      mkBoundingBoxf3 (vadd (bb_min bbox) (get_offset inst))
                      (vadd (bb_max bbox) (get_offset inst)) (defined bbox)
    else bbox
  else bbox.

(** Model.cpp:1595. *)
Definition transform_bounding_box (inst : ModelInstance) (bbox : BoundingBoxf3)
  (dont_translate : bool) : BoundingBoxf3 :=
  bb_transformed (get_matrix dont_translate inst) bbox.

End ModelInstance.

(** *** ModelObject *)

Module ModelObject.
Section Ops.
Context `{MeshAlgorithms}.

Definition with_id (i : ModelID) (o : ModelObject) : ModelObject :=
  mkModelObject i (mo_name o) (input_file o) (mo_config o)
    (sla_support_points o) (origin_translation o) (volumes o) (instances o)
    (m_bounding_box o) (m_bounding_box_valid o).
Definition with_name_file (n f : string) (o : ModelObject) : ModelObject :=
  mkModelObject (mo_id o) n f (mo_config o)
    (sla_support_points o) (origin_translation o) (volumes o) (instances o)
    (m_bounding_box o) (m_bounding_box_valid o).
Definition with_sla_support_points (ps : list Vec3d) (o : ModelObject) : ModelObject :=
  mkModelObject (mo_id o) (mo_name o) (input_file o) (mo_config o)
    ps (origin_translation o) (volumes o) (instances o)
    (m_bounding_box o) (m_bounding_box_valid o).
Definition with_origin_translation (d : Vec3d) (o : ModelObject) : ModelObject :=
  mkModelObject (mo_id o) (mo_name o) (input_file o) (mo_config o)
    (sla_support_points o) d (volumes o) (instances o)
    (m_bounding_box o) (m_bounding_box_valid o).
Definition with_volumes (vs : list ModelVolume) (o : ModelObject) : ModelObject :=
  mkModelObject (mo_id o) (mo_name o) (input_file o) (mo_config o)
    (sla_support_points o) (origin_translation o) vs (instances o)
    (m_bounding_box o) (m_bounding_box_valid o).
Definition with_instances (insts : list ModelInstance) (o : ModelObject) : ModelObject :=
  mkModelObject (mo_id o) (mo_name o) (input_file o) (mo_config o)
    (sla_support_points o) (origin_translation o) (volumes o) insts
    (m_bounding_box o) (m_bounding_box_valid o).
Definition with_bounding_box (bb : BoundingBoxf3) (valid : bool) (o : ModelObject)
  : ModelObject :=
  mkModelObject (mo_id o) (mo_name o) (input_file o) (mo_config o)
    (sla_support_points o) (origin_translation o) (volumes o) (instances o)
    bb valid.

(** [void invalidate_bounding_box() { m_bounding_box_valid = false; }] *)
Definition invalidate_bounding_box (o : ModelObject) : ModelObject :=
  with_bounding_box (m_bounding_box o) false o.

(** Modelled from the spec: the constructor [ModelObject(model)] is declared in
    Model.hpp; a new object gets an ID at construction, owns nothing and
    its cached bounding box is not valid. *)
Definition new_default : Alloc ModelObject :=
  (i <- generate_new_id ;;
   ret (mkModelObject i EmptyString EmptyString [] [] Vec3d_Zero [] []
                      BoundingBoxf3_default false))%alloc.

(** Model.cpp:640 and :648. *)
Definition add_volume (m : TriangleMesh) (o : ModelObject) : Alloc ModelObject :=
  (v <- ModelVolume.new_from_mesh m ;;
   ret (invalidate_bounding_box (with_volumes (volumes o ++ [v]) o)))%alloc.

(** Model.cpp:656. *)
Definition add_volume_other (other : ModelVolume) (o : ModelObject)
  : Alloc ModelObject :=
  (v <- ModelVolume.new_from_other other ;;
   ret (invalidate_bounding_box (with_volumes (volumes o ++ [v]) o)))%alloc.

(** Model.cpp:664. *)
Definition add_volume_other_mesh (other : ModelVolume) (m : TriangleMesh)
  (o : ModelObject) : Alloc ModelObject :=
  (v <- ModelVolume.new_from_other_mesh other m ;;
   ret (invalidate_bounding_box (with_volumes (volumes o ++ [v]) o)))%alloc.

(** What [add_volume] returns is a pointer to [volumes.back()]; writes
    through it are writes to the last volume. *)
Definition update_back_volume (f : ModelVolume -> ModelVolume) (o : ModelObject)
  : ModelObject :=
  match reverse (volumes o) with
  | [] => o
  | v :: rest => with_volumes (reverse rest ++ [f v]) o
  end.

(** Model.cpp:672. *)
Definition delete_volume (idx : nat) (o : ModelObject) : option (Alloc ModelObject) :=
  match volumes o !! idx with
  | None => None
  | Some _ =>
      let vs := delete idx (volumes o) in
      Some
        (match vs with
         | [v] =>
             (* only one volume left: center it and update the instances
                accordingly *)
             let v := ModelVolume.center_geometry v in
             let vol_offset := ModelVolume.get_offset v in
             let insts :=
               map (fun inst =>
                      ModelInstance.set_offset
                        (vadd (ModelInstance.get_offset inst)
                              (transform_point (ModelInstance.get_matrix true inst)
                                               vol_offset)) inst)
                   (instances o) in
             let v := ModelVolume.set_offset Vec3d_Zero v in
             (v <- ModelVolume.set_new_unique_id v ;;
              ret (invalidate_bounding_box
                     (with_instances insts (with_volumes [v] o))))%alloc
         | _ => ret (invalidate_bounding_box (with_volumes vs o))
         end)
  end.

(** Model.cpp:698. *)
Definition clear_volumes (o : ModelObject) : ModelObject :=
  invalidate_bounding_box (with_volumes [] o).

(** Model.cpp:706. *)
Definition add_instance (o : ModelObject) : Alloc ModelObject :=
  (i <- ModelInstance.new_default ;;
   ret (invalidate_bounding_box (with_instances (instances o ++ [i]) o)))%alloc.

(** Model.cpp:714. *)
Definition add_instance_other (other : ModelInstance) (o : ModelObject)
  : Alloc ModelObject :=
  (i <- ModelInstance.new_from_other other ;;
   ret (invalidate_bounding_box (with_instances (instances o ++ [i]) o)))%alloc.

Definition update_back_instance (f : ModelInstance -> ModelInstance)
  (o : ModelObject) : ModelObject :=
  match reverse (instances o) with
  | [] => o
  | i :: rest => with_instances (reverse rest ++ [f i]) o
  end.

(** Model.cpp:722. *)
Definition add_instance_at (offset scaling_factor rotation : Vec3d)
  (o : ModelObject) : Alloc ModelObject :=
  (o <- add_instance o ;;
   ret (update_back_instance
          (fun instance =>
             ModelInstance.set_rotation rotation
               (ModelInstance.set_scaling_factor scaling_factor
                  (ModelInstance.set_offset offset instance))) o))%alloc.

(** Model.cpp:731. *)
Definition delete_instance (idx : nat) (o : ModelObject) : option ModelObject :=
  match instances o !! idx with
  | None => None
  | Some _ =>
      Some (invalidate_bounding_box (with_instances (delete idx (instances o)) o))
  end.

(** Model.cpp:739; [instances.size() - 1] is out of range on an empty
    list. *)
Definition delete_last_instance (o : ModelObject) : option ModelObject :=
  match instances o with
  | [] => None
  | _ => delete_instance (length (instances o) - 1) o
  end.

(** Model.cpp:744. *)
Definition clear_instances (o : ModelObject) : ModelObject :=
  invalidate_bounding_box (with_instances [] o).

(** The value [bounding_box] computes when the cache is not valid
    (Model.cpp:757-773). *)
Definition compute_bounding_box (o : ModelObject) : BoundingBoxf3 :=
  let raw_bbox :=
    fold_left
      (fun raw_bbox v =>
         if ModelVolume.is_model_part v then
           let m := mesh_transform (ModelVolume.get_matrix v) (mesh v) in
           bb_merge raw_bbox (mesh_bounding_box m)
         else raw_bbox)
      (volumes o) BoundingBoxf3_default in
  fold_left
    (fun bb i => bb_merge bb (ModelInstance.transform_bounding_box i raw_bbox false))
    (instances o) BoundingBoxf3_default.

(** Model.cpp:754.  The method is [const] and the cache [mutable]: the
    object after the read is returned with the value. *)
Definition bounding_box (o : ModelObject) : BoundingBoxf3 * ModelObject :=
  if negb (m_bounding_box_valid o) then
    let bb := compute_bounding_box o in
    (bb, with_bounding_box bb true o)
  else (m_bounding_box o, o).

(** Model.cpp:814. *)
Fixpoint raw_bounding_box_loop (insts : list ModelInstance)
  (vs : list ModelVolume) (bb : BoundingBoxf3) : Result BoundingBoxf3 :=
  match vs with
  | [] => inr bb
  | v :: vs' =>
      if ModelVolume.is_model_part v then
        match insts with
        | [] => inl (invalid_argument
                       "Can't call raw_bounding_box() with no instances")
        | front :: _ =>
            let vol_mesh := mesh_transform (ModelVolume.get_matrix v) (mesh v) in
            raw_bounding_box_loop insts vs'
              (bb_merge bb
                 (ModelInstance.transform_mesh_bounding_box front vol_mesh true))
        end
      else raw_bounding_box_loop insts vs' bb
  end.

Definition raw_bounding_box (o : ModelObject) : Result BoundingBoxf3 :=
  raw_bounding_box_loop (instances o) (volumes o) BoundingBoxf3_default.

(** Model.cpp:900. *)
Definition translate (d : Vec3d) (o : ModelObject) : ModelObject :=
  let o := with_volumes (map (ModelVolume.translate d) (volumes o)) o in
  if m_bounding_box_valid o then
    with_bounding_box (bb_translate d (m_bounding_box o)) true o
  else o.

(** Model.cpp:855. *)
Definition center_around_origin (o : ModelObject) : ModelObject :=
  let bb :=
    fold_left
      (fun bb v =>
         if ModelVolume.is_model_part v
         then bb_merge bb (mesh_bounding_box (mesh v)) else bb)
      (volumes o) BoundingBoxf3_default in
  (* Shift is the vector from the center of the bounding box to the origin *)
  let shift := vneg (bb_center bb) in
  let o := translate shift o in
  with_origin_translation (vadd (origin_translation o) shift) o.

(** Model.cpp:893. *)
Definition translate_instance (instance_idx : nat) (vector : Vec3d)
  (o : ModelObject) : option ModelObject :=
  match instances o !! instance_idx with
  | None => None
  | Some i =>
      let i := ModelInstance.set_offset (vadd (ModelInstance.get_offset i) vector) i in
      Some (invalidate_bounding_box
              (with_instances (<[instance_idx := i]> (instances o)) o))
  end.

(** Model.cpp:885: every index below [instances.size()] is in range. *)
Definition translate_instances (vector : Vec3d) (o : ModelObject) : ModelObject :=
  fold_left
    (fun o i => match translate_instance i vector o with
                | Some o' => o' | None => o end)
    (seq 0 (length (instances o))) o.

(** Model.cpp:911. *)
Definition scale (versor : Vec3d) (o : ModelObject) : ModelObject :=
  invalidate_bounding_box
    (with_volumes (map (ModelVolume.scale versor) (volumes o)) o).

(** Model.cpp:924. *)
Definition rotate_axis (angle : R) (axis : Axis) (o : ModelObject) : ModelObject :=
  let o := with_volumes (map (ModelVolume.rotate_axis angle axis) (volumes o)) o in
  invalidate_bounding_box (center_around_origin o).

(** Model.cpp:939. *)
Definition rotate (angle : R) (axis : Vec3d) (o : ModelObject) : ModelObject :=
  let o := with_volumes (map (ModelVolume.rotate angle axis) (volumes o)) o in
  invalidate_bounding_box (center_around_origin o).

(** Model.cpp:954. *)
Definition mirror (axis : Axis) (o : ModelObject) : ModelObject :=
  invalidate_bounding_box
    (with_volumes (map (ModelVolume.mirror axis) (volumes o)) o).

(** Model.cpp:563: the copy takes the ID, every field, and copies of the
    volumes and instances with their IDs. *)
Definition assign_copy (rhs this : ModelObject) : ModelObject := rhs.

(** Model.cpp:624. *)
Definition assign_new_unique_ids_recursive (o : ModelObject) : Alloc ModelObject :=
  (i <- generate_new_id ;;
   vs <- mapM ModelVolume.set_new_unique_id (volumes o) ;;
   insts <- mapM ModelInstance.set_new_unique_id (instances o) ;;
   ret (with_instances insts (with_volumes vs (with_id i o))))%alloc.

(** [ModelObject::new_copy]: "copy including the ID" (Model.cpp:41). *)
Definition new_copy (rhs : ModelObject) : ModelObject := rhs.

(** Modelled from the spec: [ModelObject::new_clone] comes from a macro of
    Model.hpp.  It is the spec's default copy, which "assigns a fresh" ID:
    [assign_copy] followed by [assign_new_unique_ids_recursive]. *)
Definition new_clone (rhs : ModelObject) : Alloc ModelObject :=
  assign_new_unique_ids_recursive (assign_copy rhs rhs).


(** **** [ModelObject::cut] (Model.cpp:992) *)

(** [T(PI) * angle / T(180.0)] of Geometry.hpp. *)
Definition deg2rad (angle : R) : R := PI * angle / 180.

(** The locals the loop over the volumes updates.  [upper] and [lower] are
    [nullptr] ([None]) for a part that is not kept.  The new objects have
    no model ([set_model(nullptr)]), so [ModelVolume::set_material], which
    calls [object->get_model()->add_material] for a non-empty material id
    (Model.cpp:1318), dereferences a null pointer there: [cs_defined]
    records that this has not happened. *)
Record CutState : Type := mkCutState {
  cs_upper : option ModelObject;
  cs_lower : option ModelObject;
  cs_lower_bboxes : list BoundingBoxf3;
  cs_defined : bool
}.

Definition on_part (f : ModelObject -> Alloc ModelObject)
  (part : option ModelObject) : Alloc (option ModelObject) :=
  match part with
  | Some o => (o' <- f o ;; ret (Some o'))%alloc
  | None => ret None
  end.

(** Lines 1000-1012: what is done to a fresh clone. *)
Definition cut_reset_clone (o : ModelObject) : ModelObject :=
  with_name_file (mo_name o) EmptyString (clear_volumes (with_sla_support_points [] o)).

(** Lines 1068-1071 and 1074-1077. *)
Definition cut_add_part (part_mesh : TriangleMesh) (volume : ModelVolume)
  (o : ModelObject) : Alloc ModelObject :=
  (o <- add_volume part_mesh o ;;
   ret (update_back_volume
          (ModelVolume.with_name_config_material
             (mv_name volume) (mv_config volume) (m_material_id volume)) o))%alloc.

(** One round of the loop of lines 1032-1088: the locals and the volume of
    [this] after it. *)
Definition cut_volume (keep_upper keep_lower : bool) (z : R)
  (instance_matrix : Transform3d) (this_instances : list ModelInstance)
  (st : CutState) (volume : ModelVolume) : Alloc (CutState * ModelVolume) :=
  let volume_matrix := ModelVolume.get_matrix volume in
  if negb (ModelVolume.is_model_part volume) then
    (* Modifiers are not cut, but we still need to add the instance
       transformation to the modifier volume transformation *)
    let volume :=
      ModelVolume.set_transformation
        (Transformation_of_matrix (compose instance_matrix volume_matrix))
        volume in
    (upper <- (if keep_upper then on_part (add_volume_other volume) (cs_upper st)
               else ret (cs_upper st)) ;;
     lower <- (if keep_lower then on_part (add_volume_other volume) (cs_lower st)
               else ret (cs_lower st)) ;;
     ret (mkCutState upper lower (cs_lower_bboxes st) (cs_defined st),
          volume))%alloc
  else
    (* Transform the mesh by the combined transformation matrix *)
    let transformed := mesh_transform (compose instance_matrix volume_matrix)
                                      (mesh volume) in
    (* Perform cut *)
    let '(upper_mesh, lower_mesh) := tms_cut z transformed in
    (* Reset volume transformation except for offset *)
    let offset := ModelVolume.get_offset volume in
    let volume :=
      ModelVolume.set_offset offset
        (ModelVolume.set_transformation Transformation.identity
           (ModelVolume.with_mesh transformed (m_convex_hull volume) volume)) in
    let upper_mesh := if keep_upper then repair upper_mesh else upper_mesh in
    let lower_mesh := if keep_lower then repair lower_mesh else lower_mesh in
    let add_upper := keep_upper && bool_decide (0 < facets_count upper_mesh)%nat in
    let add_lower := keep_lower && bool_decide (0 < facets_count lower_mesh)%nat in
    let no_material := bool_decide (m_material_id volume = EmptyString) in
    (upper <- (if add_upper
               then on_part (cut_add_part upper_mesh volume) (cs_upper st)
               else ret (cs_upper st)) ;;
     lower <- (if add_lower
               then on_part (cut_add_part lower_mesh volume) (cs_lower st)
               else ret (cs_lower st)) ;;
     (* Compute the lower part instances' bounding boxes to figure out
        where to place the upper part *)
     let lower_bboxes :=
       if add_lower && keep_upper then
         zip_with
           (fun bb inst =>
              bb_merge bb
                (ModelInstance.transform_mesh_bounding_box inst lower_mesh true))
           (cs_lower_bboxes st) this_instances
       else cs_lower_bboxes st in
     ret (mkCutState upper lower lower_bboxes
            (cs_defined st && (negb (add_upper || add_lower) || no_material)),
          volume))%alloc.

Fixpoint cut_volumes (keep_upper keep_lower : bool) (z : R)
  (instance_matrix : Transform3d) (this_instances : list ModelInstance)
  (st : CutState) (vs : list ModelVolume)
  : Alloc (CutState * list ModelVolume) :=
  match vs with
  | [] => ret (st, [])
  | volume :: vs' =>
      (r <- cut_volume keep_upper keep_lower z instance_matrix this_instances
                       st volume ;;
       r' <- cut_volumes keep_upper keep_lower z instance_matrix this_instances
                         (fst r) vs' ;;
       ret (fst r', snd r :: snd r'))%alloc
  end.

(** Lines 1096-1108: reset the instance transformation of the upper part
    except offset and Z-rotation, displaced by half of the lower part's
    bounding box. *)
Definition cut_place_upper (lower_bbox : BoundingBoxf3) (instance : ModelInstance)
  : ModelInstance :=
  let offset := ModelInstance.get_offset instance in
  let rot_z := vz (ModelInstance.get_rotation instance) in
  let displace := cwiseProduct (bb_size lower_bbox) (mkVec3d (-0.5) (-0.5) 0) in
  ModelInstance.set_rotation (mkVec3d 0 0 rot_z)
    (ModelInstance.set_offset (vadd offset displace)
       (ModelInstance.set_transformation Transformation.identity instance)).

(** Lines 1117-1124. *)
Definition cut_place_lower (rotate_lower : bool) (instance : ModelInstance)
  : ModelInstance :=
  let offset := ModelInstance.get_offset instance in
  let rot_z := vz (ModelInstance.get_rotation instance) in
  ModelInstance.set_rotation
    (mkVec3d (if rotate_lower then deg2rad 180 else 0) 0 rot_z)
    (ModelInstance.set_offset offset
       (ModelInstance.set_transformation Transformation.identity instance)).

Definition cut_finish_upper (lower_bboxes : list BoundingBoxf3)
  (upper : ModelObject) : ModelObject :=
  let upper := center_around_origin (invalidate_bounding_box upper) in
  with_instances
    (zip_with cut_place_upper lower_bboxes (instances upper)) upper.

Definition cut_finish_lower (rotate_lower : bool) (lower : ModelObject)
  : ModelObject :=
  let lower := center_around_origin (invalidate_bounding_box lower) in
  with_instances (map (cut_place_lower rotate_lower) (instances lower)) lower.

Definition has_volumes (part : option ModelObject) : bool :=
  match part with
  | Some o => bool_decide (0 < length (volumes o))%nat
  | None => false
  end.

(** The result [res] and [this] after the call; [None] where the source
    reads [instances[instance]] out of range or dereferences the null
    model of a new part.  [this] is taken to belong to a model, as
    [volume->material()] reads [object->get_model()]. *)
Definition cut (instance : nat) (z : R) (keep_upper keep_lower rotate_lower : bool)
  (this : ModelObject) : Alloc (option (list ModelObject * ModelObject)) :=
  if negb keep_upper && negb keep_lower then ret (Some ([], this))
  else
    (* Clone the object to duplicate instances, materials etc. *)
    (upper <- (if keep_upper then on_part new_clone (Some this) else ret None) ;;
     lower <- (if keep_lower then on_part new_clone (Some this) else ret None) ;;
     let upper := cut_reset_clone <$> upper in
     let lower := cut_reset_clone <$> lower in
     match instances this !! instance with
     | None => ret None
     | Some inst =>
         let instance_matrix :=
           assemble_transform
             Vec3d_Zero                                   (* don't apply offset *)
             (cwiseProduct (ModelInstance.get_rotation inst)
                           (mkVec3d 1 1 0))               (* don't apply Z-rotation *)
             (ModelInstance.get_scaling_factor inst)
             (ModelInstance.get_mirror inst) in
         let z := z - vz (ModelInstance.get_offset inst) in
         (* Lower part per-instance bounding boxes *)
         let lower_bboxes :=
           replicate (length (instances this)) BoundingBoxf3_default in
         (r <- cut_volumes keep_upper keep_lower z instance_matrix
                           (instances this)
                           (mkCutState upper lower lower_bboxes true)
                           (volumes this) ;;
          let st := fst r in
          let this := with_volumes (snd r) this in
          let res_upper :=
            if keep_upper && has_volumes (cs_upper st) then
              match cs_upper st with
              | Some upper => [cut_finish_upper (cs_lower_bboxes st) upper]
              | None => []
              end
            else [] in
          let res_lower :=
            if keep_lower && has_volumes (cs_lower st) then
              match cs_lower st with
              | Some lower => [cut_finish_lower rotate_lower lower]
              | None => []
              end
            else [] in
          ret (if cs_defined st then Some (res_upper ++ res_lower, this)
               else None))
     end)%alloc.

(** **** [ModelObject::check_instances_print_volume_state] (Model.cpp:1231) *)

Definition INSIDE : Z := 1.
Definition OUTSIDE : Z := 2.

(** The inner loop over the volumes: the flags collected for one instance. *)
Definition inside_outside_of (print_volume : BoundingBoxf3)
  (vols : list ModelVolume) (model_instance : ModelInstance) : Z :=
  fold_left
    (fun inside_outside vol =>
       if ModelVolume.is_model_part vol then
         let bb := transformed_bounding_box
                     (compose (ModelInstance.get_matrix false model_instance)
                              (ModelVolume.get_matrix vol))
                     (m_convex_hull vol) in
         if bb_contains print_volume bb then Z.lor inside_outside INSIDE
         else if bb_intersects print_volume bb
              then Z.lor inside_outside (Z.lor INSIDE OUTSIDE)
              else Z.lor inside_outside OUTSIDE
       else inside_outside)
    vols 0%Z.

Definition print_volume_state_of (inside_outside : Z) : PrintVolumeState :=
  if (inside_outside =? Z.lor INSIDE OUTSIDE)%Z then PVS_Partly_Outside
  else if (inside_outside =? INSIDE)%Z then PVS_Inside
  else PVS_Fully_Outside.

(** [num_printable] and the object with the states of its instances
    written. *)
Definition check_instances_print_volume_state (print_volume : BoundingBoxf3)
  (o : ModelObject) : Z * ModelObject :=
  let r :=
    fold_left
      (fun (acc : Z * list ModelInstance) model_instance =>
         let inside_outside :=
           inside_outside_of print_volume (volumes o) model_instance in
         let model_instance :=
           ModelInstance.set_print_volume_state
             (print_volume_state_of inside_outside) model_instance in
         (if (inside_outside =? INSIDE)%Z then wrap_uint (fst acc + 1) else fst acc,
          snd acc ++ [model_instance]))
      (instances o) (0%Z, []) in
  (fst r, with_instances (snd r) o).

(** **** Meshes and heights of an object *)

(** Model.cpp:795: the sum of the model parts, each under its own
    transform. *)
Definition raw_mesh (o : ModelObject) : TriangleMesh :=
  fold_left
    (fun mesh_acc v =>
       if ModelVolume.is_model_part v then
         let vol_mesh := mesh_transform (ModelVolume.get_matrix v) (mesh v) in
         mesh_merge mesh_acc vol_mesh
       else mesh_acc)
    (volumes o) [].

(** Model.cpp:975: [num += v->mesh.stl.stats.number_of_facets], a
    [size_t]. *)
Definition facets_count (o : ModelObject) : Z :=
  fold_left
    (fun num v =>
       if ModelVolume.is_model_part v
       then wrap_size_t (num + Z.of_nat (facets_count (mesh v))) else num)
    (volumes o) 0%Z.

(** Model.cpp:834.  [instances[instance_idx]] is read for every model
    part: an index out of range is [None] once there is one. *)
Definition instance_bounding_box (instance_idx : nat) (dont_translate : bool)
  (o : ModelObject) : option BoundingBoxf3 :=
  fold_left
    (fun bb v =>
       if ModelVolume.is_model_part v then
         match bb, instances o !! instance_idx with
         | Some bb, Some inst =>
             let m := mesh_transform (ModelVolume.get_matrix v)
                                     (mesh v) in
             Some (bb_merge bb
                     (ModelInstance.transform_mesh_bounding_box
                        inst m dont_translate))
         | _, _ => None
         end
       else bb)
    (volumes o) (Some BoundingBoxf3_default).

(** The loop of Model.cpp:1208 over the facets of one convex hull. *)
Definition hull_min_z (mv : Transform3d) (hull : TriangleMesh) (min_z : R) : R :=
  fold_left
    (fun min_z facet =>
       let min_z := std_min min_z (dot UnitZ (transform_point mv (vertex0 facet))) in
       let min_z := std_min min_z (dot UnitZ (transform_point mv (vertex1 facet))) in
       std_min min_z (dot UnitZ (transform_point mv (vertex2 facet))))
    hull min_z.

(** The body of [get_instance_min_z] for the instance [inst]. *)
Definition min_z_under (inst : ModelInstance) (o : ModelObject) : R :=
  let mi := ModelInstance.get_matrix true inst in
  let min_z :=
    fold_left
      (fun min_z v =>
         if negb (ModelVolume.is_model_part v) then min_z
         else
           let mv := compose mi (ModelVolume.get_matrix v) in
           hull_min_z mv (ModelVolume.get_convex_hull v) min_z)
      (volumes o) DBL_MAX in
  (min_z + vz (ModelInstance.get_offset inst))%R.

(** Model.cpp:1195. *)
Definition get_instance_min_z (instance_idx : nat) (o : ModelObject) : option R :=
  match instances o !! instance_idx with
  | None => None
  | Some inst => Some (min_z_under inst o)
  end.

(** Model.cpp:1180: every index of the loop is in range. *)
Definition get_min_z (o : ModelObject) : R :=
  match instances o with
  | [] => 0%R
  | _ =>
      fold_left (fun min_z inst => std_min min_z (min_z_under inst o))
                (instances o) DBL_MAX
  end.

(** Model.cpp:880. *)
Definition ensure_on_bed (o : ModelObject) : ModelObject :=
  translate_instances (mkVec3d 0 0 (- get_min_z o)) o.

(** Model.cpp:780: a mesh containing all transformed instances of this
    object.  [transform_mesh(&m)] (Model.cpp:1551) is
    [mesh->transform(get_matrix(dont_translate))], called with the default
    of its declaration, which applies the translation. *)
Definition mesh (o : ModelObject) : TriangleMesh :=
  let raw := raw_mesh o in
  fold_left
    (fun mesh_acc i =>
       let m := mesh_transform (ModelInstance.get_matrix false i) raw in
       mesh_merge mesh_acc m)
    (instances o) [].

End Ops.
End ModelObject.

(** *** Model *)

(** The order of the keys of [std::map<t_model_material_id,
    ModelMaterial*>]: [std::string]'s [operator<], byte by byte. *)
Definition material_key_le (a b : t_model_material_id * ModelMaterial) : Prop :=
  String.leb (fst a) (fst b) = true.

#[global] Instance material_key_le_dec a b : Decision (material_key_le a b).
Proof. unfold material_key_le. apply _. Defined.

Module Model.
Section Ops.
Context `{MeshAlgorithms}.

Definition with_objects (os : list ModelObject) (m : Model) : Model :=
  mkModel (model_id m) (materials m) os.
Definition with_materials (ms : gmap t_model_material_id ModelMaterial)
  (m : Model) : Model :=
  mkModel (model_id m) ms (objects m).

(** Modelled from the spec: the constructors [Model()] and
    [ModelMaterial(model)] are declared in Model.hpp; an ID is assigned at
    construction. *)
Definition new_default : Alloc Model :=
  (i <- generate_new_id ;; ret (mkModel i ∅ []))%alloc.
(** Modelled from the spec: the constructor [ModelMaterial(model)] is
    declared in Model.hpp; an ID is assigned at construction. *)
Definition new_material : Alloc ModelMaterial :=
  (i <- generate_new_id ;; ret (mkModelMaterial i [] []))%alloc.

(** Model.cpp:155. *)
Definition add_object (m : Model) : Alloc Model :=
  (o <- ModelObject.new_default ;;
   ret (with_objects (objects m ++ [o]) m))%alloc.

(** Model.cpp:161 and :173. *)
Definition add_object_mesh (name path : string) (msh : TriangleMesh) (m : Model)
  : Alloc Model :=
  (new_object <- ModelObject.new_default ;;
   let new_object := ModelObject.with_name_file name path new_object in
   new_object <- ModelObject.add_volume msh new_object ;;
   let new_object :=
     ModelObject.update_back_volume
       (fun v => ModelVolume.with_name_config_material
                   name (mv_config v) (m_material_id v) v) new_object in
   let new_object := ModelObject.invalidate_bounding_box new_object in
   ret (with_objects (objects m ++ [new_object]) m))%alloc.

(** Model.cpp:185. *)
Definition add_object_other (other : ModelObject) (m : Model) : Alloc Model :=
  (new_object <- ModelObject.new_clone other ;;
   ret (with_objects (objects m ++ [new_object]) m))%alloc.

(** Model.cpp:193. *)
Definition delete_object (idx : nat) (m : Model) : option Model :=
  match objects m !! idx with
  | None => None
  | Some _ => Some (with_objects (delete idx (objects m)) m)
  end.

(** Model.cpp:216: the first object with that ID is erased. *)
Fixpoint erase_first_with_id (id : ModelID) (os : list ModelObject)
  : option (list ModelObject) :=
  match os with
  | [] => None
  | model_object :: os' =>
      if (mo_id model_object =? id)%Z then Some os'
      else cons model_object <$> erase_first_with_id id os'
  end.

Definition delete_object_by_id (id : ModelID) (m : Model) : bool * Model :=
  if negb (id =? 0)%Z then
    match erase_first_with_id id (objects m) with
    | Some os => (true, with_objects os m)
    | None => (false, m)
    end
  else (false, m).

(** Model.cpp:232. *)
Definition clear_objects (m : Model) : Model := with_objects [] m.

(** Model.cpp:239. *)
Definition delete_material (material_id : t_model_material_id) (m : Model) : Model :=
  with_materials (delete material_id (materials m)) m.

(** Model.cpp:248. *)
Definition clear_materials (m : Model) : Model := with_materials ∅ m.

Definition get_material (material_id : t_model_material_id) (m : Model)
  : option ModelMaterial :=
  materials m !! material_id.

(** Model.cpp:255. *)
Definition add_material (material_id : t_model_material_id) (m : Model)
  : Alloc Model :=
  match get_material material_id m with
  | Some _ => ret m
  | None =>
      (material <- new_material ;;
       ret (with_materials (<[material_id := material]> (materials m)) m))%alloc
  end.

(** Model.cpp:264: [new ModelMaterial(other)] is the copy constructor, a
    "copy including the ID" (Model.cpp:33). *)
Definition add_material_other (material_id : t_model_material_id)
  (other : ModelMaterial) (m : Model) : Model :=
  let material := other in
  with_materials (<[material_id := material]> (materials m)) m.

(** Model.cpp:278. *)
Definition add_default_instances (m : Model) : Alloc Model :=
  (os <- mapM (fun o => match instances o with
                        | [] => ModelObject.add_instance o
                        | _ => ret o
                        end) (objects m) ;;
   ret (with_objects os m))%alloc.

(** Model.cpp:26: [copy_id], the materials "including the ID" and
    [new_copy] of every object. *)
Definition assign_copy (rhs this : Model) : Model :=
  mkModel (model_id rhs) (materials rhs) (map ModelObject.new_copy (objects rhs)).

(** Apply a method to [objects[idx]]. *)
Definition on_object (idx : nat) (f : ModelObject -> option (Alloc ModelObject))
  (m : Model) : option (Alloc Model) :=
  match objects m !! idx with
  | None => None
  | Some o =>
      match f o with
      | None => None
      | Some c =>
          Some (o' <- c ;; ret (with_objects (<[idx := o']> (objects m)) m))%alloc
      end
  end.

(** Model.cpp:1633. *)
Fixpoint ids_differ_from (i : nat) (n : nat) (objects_old objects_new : list ModelObject)
  : bool :=
  match n with
  | O => false
  | S n' =>
      match objects_old !! i, objects_new !! i with
      | Some o, Some o' =>
          if negb (mo_id o =? mo_id o')%Z then true
          else ids_differ_from (S i) n' objects_old objects_new
      | _, _ => true
      end
  end.

Definition model_object_list_equal (model_old model_new : Model) : bool :=
  if negb (length (objects model_old) =? length (objects model_new))%nat then false
  else
    (* for (size_t i = 0; i < model_old.objects.size(); ++ i) *)
    if ids_differ_from 0 (length (objects model_old))
                       (objects model_old) (objects model_new)
    then false else true.

(** Model.cpp:1645. *)
Definition model_object_list_extended (model_old model_new : Model) : bool :=
  if (length (objects model_new) <=? length (objects model_old))%nat then false
  else
    if ids_differ_from 0 (length (objects model_old))
                       (objects model_old) (objects model_new)
    then false else true.

(** The IDs [check_model_ids_validity] visits, in its order
    (Model.cpp:1706-1714). *)
Definition object_ids (o : ModelObject) : list ModelID :=
  mo_id o :: map mv_id (volumes o) ++ map mi_id (instances o).

Definition checked_ids (m : Model) : list ModelID :=
  concat (map object_ids (objects m))
  ++ map (fun km => mm_id (snd km)) (map_to_list (materials m)).

(** The lambda [check]: [assert(id.id > 0)], [assert(ids.find(id) ==
    ids.end())], [ids.insert(id)].  [false] once an assertion has failed. *)
Definition check (st : gset ModelID * bool) (id : ModelID) : gset ModelID * bool :=
  (({[id]} ∪ fst st),
   snd st && bool_decide (0 < id)%Z && bool_decide (id ∉ fst st)).

(** Model.cpp:1698: whether every assertion holds. *)
Definition check_model_ids_validity (m : Model) : bool :=
  snd (fold_left check (checked_ids m) (∅, true)).

(** Every entity of the hierarchy, the Model itself included. *)
Definition all_ids (m : Model) : list ModelID := model_id m :: checked_ids m.

(** *** Further methods of [Model] *)

(** Model.cpp:67.  [std::map] is walked in the order of its keys;
    [ModelMaterial::assign_new_unique_ids_recursive] is the
    [set_new_unique_id] of an entity without children. *)
Definition materials_in_order (m : Model)
  : list (t_model_material_id * ModelMaterial) :=
  merge_sort material_key_le (map_to_list (materials m)).

Definition assign_new_unique_ids_recursive (m : Model) : Alloc Model :=
  (i <- generate_new_id ;;
   ms <- mapM (fun km : t_model_material_id * ModelMaterial =>
                 (j <- generate_new_id ;;
                  ret (fst km,
                       mkModelMaterial j (attributes (snd km))
                                       (mm_config (snd km))))%alloc)
              (materials_in_order m) ;;
   os <- mapM ModelObject.assign_new_unique_ids_recursive (objects m) ;;
   ret (mkModel i (list_to_map ms) os))%alloc.

(** Model.cpp:296: [num_printable += ...] on an [unsigned int]; the
    objects come back with the states of their instances written. *)
Definition update_print_volume_state (print_volume : BoundingBoxf3) (m : Model)
  : Z * Model :=
  let r :=
    fold_left
      (fun (acc : Z * list ModelObject) model_object =>
         let c := ModelObject.check_instances_print_volume_state
                    print_volume model_object in
         (wrap_uint (fst acc + fst c), snd acc ++ [snd c]))
      (objects m) (0%Z, []) in
  (fst r, with_objects (snd r) m).

(** Model.cpp:434.  [throw "..."] throws the string; the counts [x] and
    [y] are the numbers of rounds of the two loops, which is what the
    [size_t] arguments are below [SIZE_MAX]. *)
Definition grid_instance (ext_size : Vec3d) (x_copy y_copy : nat)
  (object : ModelObject) : Alloc ModelObject :=
  (object <- ModelObject.add_instance object ;;
   ret (ModelObject.update_back_instance
          (ModelInstance.set_offset
             (mkVec3d (vx ext_size * INR (x_copy - 1))
                      (vy ext_size * INR (y_copy - 1)) 0))
          object))%alloc.

Definition duplicate_objects_grid (x y : nat) (dist : R) (m : Model)
  : string + Alloc Model :=
  if (1 <? length (objects m))%nat
  then inl "Grid duplication is not supported with multiple objects"
  else
    match objects m with
    | [] => inl "No objects!"
    | object :: _ =>
        let object := ModelObject.clear_instances object in
        let '(bb, object) := ModelObject.bounding_box object in
        let ext_size := vadd (bb_size bb) (vscale dist Vec3d_Ones) in
        inr (object <-
               foldM (fun object x_copy =>
                        foldM (fun object y_copy =>
                                 grid_instance ext_size x_copy y_copy object)
                              (seq 1 y) object)
                     (seq 1 x) object ;;
             ret (with_objects [object] m))%alloc
    end.

(** Model.cpp:452.  The loop over the volumes of one object: [None] is
    its [return true], otherwise the [zmin] it leaves. *)
Fixpoint shared_zmin (vols : list ModelVolume) (zmin : R) : option R :=
  match vols with
  | [] => Some zmin
  | vol :: vols' =>
      let zmin_this := vz (bb_min (mesh_bounding_box (mesh vol))) in
      if Req_dec_T zmin DBL_MAX then shared_zmin vols' zmin_this
      else if Rlt_dec EPSILON (Rabs (zmin - zmin_this))
           then (* The volumes don't share zmin. *) None
           else shared_zmin vols' zmin
  end.

(** The loop over the objects; [config.keys().size()] is the number of
    entries of the configuration. *)
Fixpoint multipart_from (objs : list ModelObject) (zmin : R) : bool :=
  match objs with
  | [] => false
  | obj :: objs' =>
      if (1 <? length (volumes obj))%nat || (1 <? length (mo_config obj))%nat
      then false
      else
        match shared_zmin (volumes obj) zmin with
        | None => true
        | Some zmin => multipart_from objs' zmin
        end
  end.

Definition looks_like_multipart_object (m : Model) : bool :=
  if (length (objects m) <=? 1)%nat then false
  else multipart_from (objects m) DBL_MAX.

(** Model.cpp:1655.  [isApprox] is Eigen's comparison of two matrices.
    The first loop runs while both indices are in range; the two loops
    after it look for a volume of the type in what is left. *)
Fixpoint volume_lists_differ (isApprox : Transform3d -> Transform3d -> bool)
  (type : ModelVolumeType) (olds news : list ModelVolume) : bool :=
  match olds with
  | [] =>
      (* ModelVolume was added. *)
      existsb (fun mv_new => bool_decide (m_type mv_new = type)) news
  | mv_old :: olds' =>
      if negb (bool_decide (m_type mv_old = type))
      then volume_lists_differ isApprox type olds' news
      else
        (fix against (news : list ModelVolume) : bool :=
           match news with
           | [] => (* ModelVolume was deleted. *) true
           | mv_new :: news' =>
               if negb (bool_decide (m_type mv_new = type)) then against news'
               else if negb (mv_id mv_old =? mv_id mv_new)%Z then true
               else if negb (isApprox (ModelVolume.get_matrix mv_old)
                                      (ModelVolume.get_matrix mv_new))
                    then true
                    else volume_lists_differ isApprox type olds' news'
           end) news
  end.

Definition model_volume_list_changed
  (isApprox : Transform3d -> Transform3d -> bool)
  (model_object_old model_object_new : ModelObject) (type : ModelVolumeType)
  : bool :=
  volume_lists_differ isApprox type (volumes model_object_old)
                      (volumes model_object_new).

(** Model.cpp:326: flattens everything to a single mesh. *)
Definition mesh (m : Model) : TriangleMesh :=
  fold_left (fun mesh_acc o => mesh_merge mesh_acc (ModelObject.mesh o))
            (objects m) [].

End Ops.
End Model.

(** ** The cut gizmo ([GLGizmoCut], GLGizmo.cpp)

    The members the two functions read and write.  The selection enters
    through [selection.get_bounding_box()] only. *)

Record GLGizmoCut : Type := mkGLGizmoCut {
  m_cut_z : R;
  m_max_z : R;
  m_keep_upper : bool;
  m_keep_lower : bool;
  m_rotate_lower : bool
}.

(** The members of [GLGizmoCut] and of its base [GLGizmoBase] that
    dragging reads and writes, beside those above; of a grabber, its
    [center]. *)
Record CutDragging : Type := mkCutDragging {
  m_hover_id : Z;
  m_grabbers : list Vec3d;
  m_start_z : R;
  m_drag_pos : Vec3d;
  m_drag_center : Vec3d
}.

Module GLGizmoCut.

(** GLGizmo.cpp:2468. *)
Definition set_cut_z (cut_z : R) (g : GLGizmoCut) : GLGizmoCut :=
  (* Clamp the plane to the object's bounding box *)
  mkGLGizmoCut (std_max 0 (std_min (m_max_z g) cut_z)) (m_max_z g)
               (m_keep_upper g) (m_keep_lower g) (m_rotate_lower g).

(** GLGizmo.cpp:2462. *)
Definition update_max_z (selection_bounding_box : BoundingBoxf3) (g : GLGizmoCut)
  : GLGizmoCut :=
  let g := mkGLGizmoCut (m_cut_z g) (vz (bb_size selection_bounding_box))
                        (m_keep_upper g) (m_keep_lower g) (m_rotate_lower g) in
  set_cut_z (m_cut_z g) g.

Section Dragging.
(** [Linef3::unit_vector] of Line.hpp, the direction of the line. *)
Context (unit_vector : Linef3 -> Vec3d).

(** GLGizmo.cpp:2361.  [selection.get_bounding_box()] is [box]; an index
    into [m_grabbers] out of range is [None]. *)
Definition on_start_dragging (box : BoundingBoxf3) (g : GLGizmoCut) (d : CutDragging)
  : option (GLGizmoCut * CutDragging) :=
  if (m_hover_id d =? -1)%Z then Some (g, d)
  else
    let m_start_z := m_cut_z g in
    let g := update_max_z box g in
    if (m_hover_id d <? 0)%Z then None
    else
      match m_grabbers d !! Z.to_nat (m_hover_id d) with
      | None => None
      | Some center =>
          let m_drag_pos := center in
          let m_drag_center := bb_center box in
          let m_drag_center :=
            mkVec3d (vx m_drag_center) (vy m_drag_center) (m_cut_z g) in
          Some (g, mkCutDragging (m_hover_id d) (m_grabbers d) m_start_z
                                 m_drag_pos m_drag_center)
      end.

(** GLGizmo.cpp:2484. *)
Definition calc_projection (mouse_ray : Linef3) (d : CutDragging) : R :=
  let projection := 0%R in
  let starting_vec := vsub (m_drag_pos d) (m_drag_center d) in
  let len_starting_vec := norm starting_vec in
  if Req_dec_T len_starting_vec 0 then projection
  else
    let mouse_dir := unit_vector mouse_ray in
    (* the intersection of the mouse ray with the plane parallel to the
       camera viewport and passing through the starting position *)
    let inters :=
      vadd (Linef3_a mouse_ray)
           (vscale (dot (vsub (m_drag_pos d) (Linef3_a mouse_ray)) mouse_dir
                    / squaredNorm mouse_dir)
                   mouse_dir) in
    (* vector from the starting position to the found intersection *)
    let inters_vec := vsub inters (m_drag_pos d) in
    (* projection of the vector along the starting direction *)
    dot inters_vec (normalized starting_vec).

(** GLGizmo.cpp:2373. *)
Definition on_update (mouse_ray : Linef3) (g : GLGizmoCut) (d : CutDragging)
  : GLGizmoCut :=
  if negb (m_hover_id d =? -1)%Z
  then set_cut_z (m_start_z d + calc_projection mouse_ray d) g
  else g.

End Dragging.
End GLGizmoCut.

(** ** The scale gizmo ([GLGizmoScale3D], GLGizmo.cpp) *)

(** [UpdateData] of GLGizmo.hpp, as GLGizmo.cpp reads it. *)
Record UpdateData : Type := mkUpdateData {
  mouse_ray : Linef3;
  shift_down : bool
}.

Module GLGizmoScale3D.

(** The members of [GLGizmoScale3D], and [m_hover_id] of its base
    [GLGizmoBase], that dragging reads and writes. *)
Record GLGizmoScale3D : Type := mkGLGizmoScale3D {
  m_hover_id : Z;
  m_scale : Vec3d;
  m_starting_scale : Vec3d;
  m_starting_drag_position : Vec3d;
  m_starting_box : BoundingBoxf3;
  m_snap_step : R
}.

Section Dragging.
Context (unit_vector : Linef3 -> Vec3d).

Definition with_scale (scale : Vec3d) (g : GLGizmoScale3D) : GLGizmoScale3D :=
  mkGLGizmoScale3D (m_hover_id g) scale (m_starting_scale g)
    (m_starting_drag_position g) (m_starting_box g) (m_snap_step g).

(** GLGizmo.cpp:1132. *)
Definition calc_ratio (data : UpdateData) (g : GLGizmoScale3D) : R :=
  let ratio := 0%R in
  (* vector from the center to the starting position *)
  let starting_vec := vsub (m_starting_drag_position g) (bb_center (m_starting_box g)) in
  let len_starting_vec := norm starting_vec in
  let ratio :=
    if Req_dec_T len_starting_vec 0 then ratio
    else
      let mouse_dir := unit_vector (mouse_ray data) in
      let inters :=
        vadd (Linef3_a (mouse_ray data))
             (vscale (dot (vsub (m_starting_drag_position g) (Linef3_a (mouse_ray data)))
                          mouse_dir
                      / squaredNorm mouse_dir)
                     mouse_dir) in
      (* vector from the starting position to the found intersection *)
      let inters_vec := vsub inters (m_starting_drag_position g) in
      (* projection of the vector along the starting direction *)
      let proj := dot inters_vec (normalized starting_vec) in
      ((len_starting_vec + proj) / len_starting_vec)%R in
  if shift_down data
  then (m_snap_step g * std_round (ratio / m_snap_step g))%R
  else ratio.

(** GLGizmo.cpp:1104. *)
Definition do_scale_x (data : UpdateData) (g : GLGizmoScale3D) : GLGizmoScale3D :=
  let ratio := calc_ratio data g in
  if Rlt_dec 0 ratio
  then with_scale (mkVec3d (vx (m_starting_scale g) * ratio)
                           (vy (m_scale g)) (vz (m_scale g))) g
  else g.

(** GLGizmo.cpp:1111. *)
Definition do_scale_y (data : UpdateData) (g : GLGizmoScale3D) : GLGizmoScale3D :=
  let ratio := calc_ratio data g in
  if Rlt_dec 0 ratio
  then with_scale (mkVec3d (vx (m_scale g))
                           (vy (m_starting_scale g) * ratio) (vz (m_scale g))) g
  else g.

(** GLGizmo.cpp:1118. *)
Definition do_scale_z (data : UpdateData) (g : GLGizmoScale3D) : GLGizmoScale3D :=
  let ratio := calc_ratio data g in
  if Rlt_dec 0 ratio
  then with_scale (mkVec3d (vx (m_scale g)) (vy (m_scale g))
                           (vz (m_starting_scale g) * ratio)) g
  else g.

(** GLGizmo.cpp:1125: [m_starting_scale * ratio]. *)
Definition do_scale_uniform (data : UpdateData) (g : GLGizmoScale3D)
  : GLGizmoScale3D :=
  let ratio := calc_ratio data g in
  if Rlt_dec 0 ratio
  then with_scale (mkVec3d (vx (m_starting_scale g) * ratio)
                           (vy (m_starting_scale g) * ratio)
                           (vz (m_starting_scale g) * ratio)) g
  else g.

(** GLGizmo.cpp:843. *)
Definition on_update (data : UpdateData) (g : GLGizmoScale3D) : GLGizmoScale3D :=
  if (m_hover_id g =? 0)%Z || (m_hover_id g =? 1)%Z then do_scale_x data g
  else if (m_hover_id g =? 2)%Z || (m_hover_id g =? 3)%Z then do_scale_y data g
  else if (m_hover_id g =? 4)%Z || (m_hover_id g =? 5)%Z then do_scale_z data g
  else if (6 <=? m_hover_id g)%Z then do_scale_uniform data g
  else g.

End Dragging.
End GLGizmoScale3D.

(** ** The rotate gizmo ([GLGizmoRotate], GLGizmo.cpp) *)

Module GLGizmoRotate.

(** The members [on_update] reads and writes. *)
Record GLGizmoRotate : Type := mkGLGizmoRotate {
  m_angle : R;
  m_snap_coarse_in_radius : R;
  m_snap_coarse_out_radius : R;
  m_snap_fine_in_radius : R;
  m_snap_fine_out_radius : R
}.

(** GLGizmo.cpp:298 and :302. *)
Definition ScaleStepsCount : Z := 72.
Definition SnapRegionsCount : Z := 8.

Definition with_angle (angle : R) (g : GLGizmoRotate) : GLGizmoRotate :=
  mkGLGizmoRotate angle (m_snap_coarse_in_radius g) (m_snap_coarse_out_radius g)
                  (m_snap_fine_in_radius g) (m_snap_fine_out_radius g).

(** GLGizmo.cpp:345. *)
Definition set_angle (angle : R) (g : GLGizmoRotate) : GLGizmoRotate :=
  let angle := if Rlt_dec (Rabs (angle - 2 * PI)) EPSILON then 0 else angle in
  with_angle angle g.

(** GLGizmo.cpp:370, from its second line on: [mouse_pos] is
    [to_2d(mouse_position_in_local_plane(data.mouse_ray))]. *)
Definition on_update (mouse_pos : Vec2d) (g : GLGizmoRotate) : GLGizmoRotate :=
  let orig_dir := mkVec2d 1 0 in
  let new_dir := v2normalized mouse_pos in
  let theta := acos (clamp (-1) 1 (v2dot new_dir orig_dir)) in
  let theta := if Rlt_dec (cross2 orig_dir new_dir) 0 then 2 * PI - theta else theta in
  let len := v2norm mouse_pos in
  let theta :=
    (* snap to coarse snap region *)
    if Rleb (m_snap_coarse_in_radius g) len && Rleb len (m_snap_coarse_out_radius g)
    then
      let step := 2 * PI / IZR SnapRegionsCount in
      step * std_round (theta / step)
    else
      (* snap to fine snap region (scale) *)
      if Rleb (m_snap_fine_in_radius g) len && Rleb len (m_snap_fine_out_radius g)
      then
        let step := 2 * PI / IZR ScaleStepsCount in
        step * std_round (theta / step)
      else theta in
  let theta := if Req_dec_T theta (2 * PI) then 0 else theta in
  with_angle theta g.

End GLGizmoRotate.

(** ** The SLA support tree (SLA/SLASupportTree.hpp)

    The header declares the interface; SLASupportTree.cpp is not among the
    sources.  The records are the header's, the functions follow section
    4.3 of the specification. *)

Module sla.

Record SupportConfig : Type := mkSupportConfig {
  head_front_radius_mm : R;
  head_penetration_mm : R;
  head_back_radius_mm : R;
  head_width_mm : R;
  headless_pillar_radius_mm : R;
  pillar_widening_factor : R;
  base_radius_mm : R;
  base_height_mm : R;
  tilt : R;
  max_bridge_length_mm : R;
  object_elevation_mm : R
}.

(** The default member initialisers of the header. *)
Definition SupportConfig_default : SupportConfig :=
  mkSupportConfig 0.2 0.5 0.5 1.0 0.4 0.5 2.0 1.0 (PI / 4) 15.0 10.

(** [stopcondition] is polled between the coarse phases: its argument is
    the number of the poll.  The default never stops. *)
Record Controller : Type := mkController {
  stopcondition : nat -> bool
}.
Definition Controller_default : Controller := mkController (fun _ => false).

Record EigenMesh3D : Type := mkEigenMesh3D {
  V : list Vec3d;
  F : list (nat * nat * nat);
  ground_level : R
}.

Definition PointSet : Type := list Vec3d.

(** [ExPolygon] is opaque in the header; a layer is a vector of them. *)
Definition ExPolygon : Type := list (R * R).
Definition SliceLayer : Type := list ExPolygon.
Definition SlicedSupports : Type := list SliceLayer.

(** Modelled from the spec: the primitives of SLASupportTree.cpp and their
    slicing, which the specification leaves to the implementation. *)
Class SupportGeometry : Type := {
  Head : Type;
  Pillar : Type;
  Bridge : Type;
  Base : Type;
  (** the mesh-intersection lookup of an anchor point *)
  on_surface : EigenMesh3D -> Vec3d -> bool;
  (** "each anchor point spawns a support head whose apex penetrates the
      surface by a configured depth" *)
  spawn_head : SupportConfig -> EigenMesh3D -> Vec3d -> Head;
  (** "heads connect downward through pillars toward the bed or merge into
      bridges" with another head of the set *)
  connect : SupportConfig -> EigenMesh3D -> list Head -> Head -> Pillar + Bridge;
  (** "every headless pillar column terminates in a flared base" *)
  flared_base : SupportConfig -> Pillar -> Base;
  head_mesh : Head -> TriangleMesh;
  pillar_mesh : Pillar -> TriangleMesh;
  bridge_mesh : Bridge -> TriangleMesh;
  base_mesh : Base -> TriangleMesh;
  (** the 2D cross-section of a mesh at a height; a mesh without facets
      has none *)
  cross_section : TriangleMesh -> R -> SliceLayer;
  cross_section_nil : forall h, cross_section [] h = []
}.

Section Tree.
Context `{SupportGeometry}.

Record SLASupportTree : Type := mkSLASupportTree {
  heads : list Head;
  pillars : list Pillar;
  bridges : list Bridge;
  bases : list Base;
  pad : TriangleMesh;
  tree_ground_level : R
}.

Inductive Generated : Type :=
| Done (tree : SLASupportTree)
| Stopped                          (* SLASupportsStoppedException *)
| Failed (e : Exception).

Definition pillars_of (l : list (Pillar + Bridge)) : list Pillar :=
  omap (fun c => match c with inl p => Some p | inr _ => None end) l.
Definition bridges_of (l : list (Pillar + Bridge)) : list Bridge :=
  omap (fun c => match c with inl _ => None | inr b => Some b end) l.

(** Modelled from the spec: the constructor [SLASupportTree(pts, em, cfg,
    ctl)] with [generate].  Points off the surface are rejected before
    tree construction; the stop predicate is polled between the phases and
    a stop leaves no tree; otherwise every anchor point spawns a head,
    every head a pillar or a bridge, every pillar a base. *)
Definition generate (pts : PointSet) (em : EigenMesh3D) (cfg : SupportConfig)
  (ctl : Controller) : Generated :=
  if negb (forallb (on_surface em) pts) then
    Failed (invalid_argument "support point outside of the mesh")
  else if stopcondition ctl 0 then Stopped
  else
    let hs := map (spawn_head cfg em) pts in
    if stopcondition ctl 1 then Stopped
    else
      let cs := map (connect cfg em hs) hs in
      if stopcondition ctl 2 then Stopped
      else
        let ps := pillars_of cs in
        let bs := map (flared_base cfg) ps in
        if stopcondition ctl 3 then Stopped
        else Done (mkSLASupportTree hs ps (bridges_of cs) bs []
                     (ground_level em - object_elevation_mm cfg)).

(** Modelled from the spec: "the union of all these primitives forms the
    support mesh" (without the pad). *)
Definition merged_mesh (t : SLASupportTree) : TriangleMesh :=
  concat (map head_mesh (heads t)) ++ concat (map pillar_mesh (pillars t))
  ++ concat (map bridge_mesh (bridges t)) ++ concat (map base_mesh (bases t)).

(** Modelled from the spec: [get_pad] of SLASupportTree.cpp, the pad if
    one has been added. *)
Definition get_pad (t : SLASupportTree) : TriangleMesh := pad t.

(** Modelled from the spec: [merged_mesh_with_pad] of SLASupportTree.cpp,
    "the finished support (and ... the finished pad)". *)
Definition merged_mesh_with_pad (t : SLASupportTree) : TriangleMesh :=
  mesh_merge (merged_mesh t) (get_pad t).

(** Modelled from the spec: the heights of the layers of [slice], the
    first layer, then one every [layerh] while below the top of the
    supports. *)
Definition layer_heights (gndlvl modelh layerh init_layerh : R) : list R :=
  let n := Z.to_nat (up ((modelh - init_layerh) / layerh)) in
  map (fun k => gndlvl + init_layerh + INR k * layerh) (seq 0 n).

(** Modelled from the spec: [slice(layerh, init_layerh)] "decomposes the
    finished support (and ... the finished pad) into the ... per-layer 2D
    cross-section representation ... at caller-specified layer thickness
    with an optional distinct first-layer thickness" ([init_layerh < 0]
    means none, as the header's default [-1.0]). *)
Definition slice (layerh init_layerh : R) (t : SLASupportTree) : SlicedSupports :=
  let init_layerh := if Rlt_dec init_layerh 0 then layerh else init_layerh in
  let fullmesh := merged_mesh_with_pad t in
  let modelh := vz (bb_size (mesh_bounding_box fullmesh)) in
  map (cross_section fullmesh)
      (layer_heights (tree_ground_level t) modelh layerh init_layerh).

End Tree.
End sla.

(** ** Vocabulary of the properties *)

Close Scope R_scope.

(** Where the vertices of a volume end up in the world under one instance
    of its object: [instance matrix * volume matrix * vertex]. *)
Definition world_vertices (inst : ModelInstance) (v : ModelVolume) : list Vec3d :=
  map (transform_point (compose (ModelInstance.get_matrix false inst)
                                (ModelVolume.get_matrix v)))
      (mesh_vertices (mesh v)).

(** The error of [raw_bounding_box] (Model.cpp:823). *)
Definition raw_bounding_box_error : Exception :=
  invalid_argument "Can't call raw_bounding_box() with no instances".

(** The box [raw_bounding_box] merges for a first instance [front]. *)
Definition merged_snug_box (front : ModelInstance) (vols : list ModelVolume)
  (bb : BoundingBoxf3) : BoundingBoxf3 :=
  fold_left
    (fun bb v =>
       bb_merge bb
         (ModelInstance.transform_mesh_bounding_box front
            (mesh_transform (ModelVolume.get_matrix v) (mesh v)) true))
    (filter (fun v => ModelVolume.is_model_part v = true) vols) bb.

(** The mutating methods of [ModelObject] that end in
    [invalidate_bounding_box()].  [translate], [center_around_origin] and
    [cut] also write the volumes of the object and do not call it: they
    are not among the constructors. *)
Inductive InvalidatingOp : Type :=
| OpAddVolume (m : TriangleMesh)
| OpAddVolumeOther (other : ModelVolume)
| OpAddVolumeOtherMesh (other : ModelVolume) (m : TriangleMesh)
| OpDeleteVolume (idx : nat)
| OpClearVolumes
| OpAddInstance
| OpAddInstanceOther (other : ModelInstance)
| OpAddInstanceAt (offset scaling_factor rotation : Vec3d)
| OpDeleteInstance (idx : nat)
| OpDeleteLastInstance
| OpClearInstances
| OpTranslateInstance (instance_idx : nat) (vector : Vec3d)
| OpScale (versor : Vec3d)
| OpRotateAxis (angle : R) (axis : Axis)
| OpRotate (angle : R) (axis : Vec3d)
| OpMirror (axis : Axis).

Section Vocabulary.
Context `{MeshAlgorithms}.

(** The call of a method; [None] where an index is out of range. *)
Definition apply_op (op : InvalidatingOp) (o : ModelObject)
  : option (Alloc ModelObject) :=
  match op with
  | OpAddVolume m => Some (ModelObject.add_volume m o)
  | OpAddVolumeOther other => Some (ModelObject.add_volume_other other o)
  | OpAddVolumeOtherMesh other m =>
      Some (ModelObject.add_volume_other_mesh other m o)
  | OpDeleteVolume idx => ModelObject.delete_volume idx o
  | OpClearVolumes => Some (ret (ModelObject.clear_volumes o))
  | OpAddInstance => Some (ModelObject.add_instance o)
  | OpAddInstanceOther other => Some (ModelObject.add_instance_other other o)
  | OpAddInstanceAt offset scaling_factor rotation =>
      Some (ModelObject.add_instance_at offset scaling_factor rotation o)
  | OpDeleteInstance idx => ret <$> ModelObject.delete_instance idx o
  | OpDeleteLastInstance => ret <$> ModelObject.delete_last_instance o
  | OpClearInstances => Some (ret (ModelObject.clear_instances o))
  | OpTranslateInstance idx vector =>
      ret <$> ModelObject.translate_instance idx vector o
  | OpScale versor => Some (ret (ModelObject.scale versor o))
  | OpRotateAxis angle axis => Some (ret (ModelObject.rotate_axis angle axis o))
  | OpRotate angle axis => Some (ret (ModelObject.rotate angle axis o))
  | OpMirror axis => Some (ret (ModelObject.mirror axis o))
  end.

(** The cache agrees with the object: a valid cache holds the value a
    recomputation gives. *)
Definition coherent (o : ModelObject) : Prop :=
  m_bounding_box_valid o = true -> m_bounding_box o = ModelObject.compute_bounding_box o.

(** A step of a client: a mutation, or a read of [bounding_box()]. *)
Inductive Step : Type :=
| Mutate (op : InvalidatingOp)
| Read.

(** Run the steps; the values the reads returned, in order, each with the
    object it was read from. *)
Fixpoint run (steps : list Step) (o : ModelObject) (s_last_id : Z)
  : option (list (BoundingBoxf3 * ModelObject) * ModelObject) :=
  match steps with
  | [] => Some ([], o)
  | Mutate op :: steps' =>
      match apply_op op o with
      | None => None
      | Some c => let '(o', s') := c s_last_id in run steps' o' s'
      end
  | Read :: steps' =>
      let '(bb, o') := ModelObject.bounding_box o in
      match run steps' o' s_last_id with
      | None => None
      | Some (reads, o_end) => Some ((bb, o) :: reads, o_end)
      end
  end.

End Vocabulary.

(** *** The parts [cut] returns *)

(** The two sides of the cutting plane. *)
Inductive Side : Type := Upper | Lower.

Section CutVocabulary.
Context `{MeshAlgorithms}.

(** The [instance_matrix] of [cut]: the rotation of the instance about X
    and Y, its scale and its mirror; neither its offset nor its rotation
    about Z. *)
Definition cut_instance_matrix (inst : ModelInstance) : Transform3d :=
  assemble_transform
    Vec3d_Zero
    (cwiseProduct (ModelInstance.get_rotation inst) (mkVec3d 1 1 0))
    (ModelInstance.get_scaling_factor inst)
    (ModelInstance.get_mirror inst).

(** The mesh of a volume with the transform of the volume and
    [cut_instance_matrix] applied to its vertices. *)
Definition baked_mesh (inst : ModelInstance) (v : ModelVolume) : TriangleMesh :=
  mesh_transform (compose (cut_instance_matrix inst) (ModelVolume.get_matrix v))
                 (mesh v).

(** The repaired half of the baked mesh on one side of the plane [z],
    which is given in the frame of the instance. *)
Definition half (side : Side) (inst : ModelInstance) (z : R) (v : ModelVolume)
  : TriangleMesh :=
  let halves := tms_cut (z - vz (ModelInstance.get_offset inst))%R
                        (baked_mesh inst v) in
  repair (match side with Upper => fst halves | Lower => snd halves end).

(** The half of a model part if it has a facet. *)
Definition kept_half (side : Side) (inst : ModelInstance) (z : R)
  (v : ModelVolume) : list TriangleMesh :=
  if ModelVolume.is_model_part v
     && bool_decide (0 < facets_count (half side inst z v))%nat
  then [half side inst z v] else [].

(** The non-empty halves of the model parts, in the order of the volumes. *)
Definition part_meshes (side : Side) (inst : ModelInstance) (z : R)
  (vs : list ModelVolume) : list TriangleMesh :=
  flat_map (kept_half side inst z) vs.

(** How many volumes one side gets: every volume that is not a model
    part, and the non-empty halves. *)
Definition part_volume_count (side : Side) (inst : ModelInstance) (z : R)
  (vs : list ModelVolume) : nat :=
  (length (filter (fun v => ModelVolume.is_model_part v = false) vs)
   + length (part_meshes side inst z vs))%nat.

(** A volume that is not a model part as [cut] hands it to the parts: not
    cut, placed by [cut_instance_matrix] times its own matrix. *)
Definition carried_over (inst : ModelInstance) (v : ModelVolume) : ModelVolume :=
  ModelVolume.set_transformation
    (Transformation_of_matrix
       (compose (cut_instance_matrix inst) (ModelVolume.get_matrix v))) v.

(** A volume but for its ID. *)
Definition unidentified (v : ModelVolume) : ModelVolume := ModelVolume.with_id 0 v.



(** [lower_bboxes[i].merge(instances[i]->transform_mesh_bounding_box(
    lower_mesh, true))]. *)
Definition merge_under (i : ModelInstance) (bb : BoundingBoxf3) (m : TriangleMesh)
  : BoundingBoxf3 :=
  bb_merge bb (ModelInstance.transform_mesh_bounding_box i m true).

(** The box of the lower halves under the instance [i], not translated. *)
Definition lower_bbox (inst : ModelInstance) (z : R) (vs : list ModelVolume)
  (i : ModelInstance) : BoundingBoxf3 :=
  fold_left (merge_under i) (part_meshes Lower inst z vs) BoundingBoxf3_default.




(** The volumes the loop of [cut] appends to a part while it goes through
    the volumes [vs]. *)
Definition appended (side : Side) (inst : ModelInstance) (z : R)
  (vs added : list ModelVolume) : Prop :=
  map mesh (filter (fun v => ModelVolume.is_model_part v = true) added)
  = part_meshes side inst z vs /\
  Forall (fun v => ModelVolume.is_model_part v = true ->
                   mv_transformation v = Transformation.identity) added /\
  map unidentified (filter (fun v => ModelVolume.is_model_part v = false) added)
  = map (fun v => unidentified (carried_over inst v))
        (filter (fun v => ModelVolume.is_model_part v = false) vs) /\
  length added = part_volume_count side inst z vs.






End CutVocabulary.

(** The mutating methods of [Model], and the methods of its objects
    reached through [model.objects[idx]]. *)
Inductive ModelOp : Type :=
| MAddObject
| MAddObjectMesh (name path : string) (m : TriangleMesh)
| MAddObjectOther (other : ModelObject)
| MDeleteObject (idx : nat)
| MDeleteObjectById (id : ModelID)
| MClearObjects
| MAddMaterial (material_id : t_model_material_id)
| MDeleteMaterial (material_id : t_model_material_id)
| MClearMaterials
| MAddDefaultInstances
| MOnObject (idx : nat) (op : InvalidatingOp)
| MTranslateObject (idx : nat) (d : Vec3d).

Section IdentityVocabulary.
Context `{MeshAlgorithms}.

Definition apply_model_op (op : ModelOp) (m : Model) : option (Alloc Model) :=
  match op with
  | MAddObject => Some (Model.add_object m)
  | MAddObjectMesh name path msh => Some (Model.add_object_mesh name path msh m)
  | MAddObjectOther other => Some (Model.add_object_other other m)
  | MDeleteObject idx => ret <$> Model.delete_object idx m
  | MDeleteObjectById id => Some (ret (snd (Model.delete_object_by_id id m)))
  | MClearObjects => Some (ret (Model.clear_objects m))
  | MAddMaterial material_id => Some (Model.add_material material_id m)
  | MDeleteMaterial material_id => Some (ret (Model.delete_material material_id m))
  | MClearMaterials => Some (ret (Model.clear_materials m))
  | MAddDefaultInstances => Some (Model.add_default_instances m)
  | MOnObject idx op => Model.on_object idx (apply_op op) m
  | MTranslateObject idx d =>
      Model.on_object idx (fun o => Some (ret (ModelObject.translate d o))) m
  end.

(** The mutations whose new entities come from a constructor that assigns
    a new ID.  The copying overloads [add_volume(other)],
    [add_volume(other, mesh)] and [add_instance(other)] are left out: their
    constructors are declared in Model.hpp. *)
Definition constructs_fresh (op : ModelOp) : Prop :=
  match op with
  | MOnObject _ (OpAddVolumeOther _) => False
  | MOnObject _ (OpAddVolumeOtherMesh _ _) => False
  | MOnObject _ (OpAddInstanceOther _) => False
  | _ => True
  end.

(** How many IDs a mutation allocates. *)
Definition allocations_object (op : InvalidatingOp) (o : ModelObject) : nat :=
  match op with
  | OpAddVolume _ | OpAddVolumeOther _ | OpAddVolumeOtherMesh _ _ => 1
  | OpDeleteVolume idx =>
      match delete idx (volumes o) with [_] => 1 | _ => 0 end
  | OpAddInstance | OpAddInstanceOther _ | OpAddInstanceAt _ _ _ => 1
  | _ => 0
  end.

Definition allocations (op : ModelOp) (m : Model) : nat :=
  match op with
  | MAddObject => 1
  | MAddObjectMesh _ _ _ => 2
  | MAddObjectOther other =>
      1 + length (volumes other) + length (instances other)
  | MAddMaterial material_id =>
      match Model.get_material material_id m with Some _ => 0 | None => 1 end
  | MAddDefaultInstances =>
      length (filter (fun o => instances o = []) (objects m))
  | MOnObject idx op =>
      match objects m !! idx with
      | Some o => allocations_object op o
      | None => 0
      end
  | _ => 0
  end.

(** The states after every mutation of a sequence; [None] where an index
    is out of range. *)
Fixpoint run_model (ops : list ModelOp) (m : Model) (s_last_id : Z)
  : option (list (Model * Z)) :=
  match ops with
  | [] => Some []
  | op :: ops' =>
      match apply_model_op op m with
      | None => None
      | Some c =>
          let '(m', s') := c s_last_id in
          cons (m', s') <$> run_model ops' m' s'
      end
  end.

(** The counter does not run out: no allocation of the sequence wraps
    [s_last_id] around. *)
Fixpoint within_counter (ops : list ModelOp) (m : Model) (s_last_id : Z) : Prop :=
  match ops with
  | [] => True
  | op :: ops' =>
      s_last_id + Z.of_nat (allocations op m) <= SIZE_MAX /\
      match apply_model_op op m with
      | None => True
      | Some c => let '(m', s') := c s_last_id in within_counter ops' m' s'
      end
  end.

(** A list of IDs that are pairwise distinct, positive and at most [s]. *)
Definition valid_list (ids : list Z) (s : Z) : Prop :=
  NoDup ids /\ Forall (fun id => 0 < id <= s) ids.

(** The IDs of a hierarchy are pairwise distinct, positive and have been
    handed out by the counter. *)
Definition valid_ids (m : Model) (s_last_id : Z) : Prop :=
  NoDup (Model.all_ids m) /\
  Forall (fun id => 0 < id <= s_last_id) (Model.all_ids m).

End IdentityVocabulary.


(** ** Sample inputs

    Small concrete entities at which the properties below are
    instantiated. *)

Module Sample.
#[local] Open Scope R_scope.

(** A stand-in for the mesh algorithms that are not among the sources: the
    slicer sorts whole facets by the side of the plane their first vertex
    lies on, the other algorithms return their input. *)
#[local] Instance algorithms : MeshAlgorithms := {|
  tms_cut z m :=
    (filter (fun f => Is_true (Rleb z (vz (vertex0 f)))) m,
     filter (fun f => Is_true (Rltb (vz (vertex0 f)) z)) m);
  repair m := m;
  convex_hull_3d m := m;
  euler_angles_of_axis_angle angle axis := vscale angle axis;
  Transformation_of_matrix t :=
    mkTransformation (translation t) Vec3d_Zero Vec3d_Ones Vec3d_Ones
|}.

Definition triangle : stl_facet :=
  mk_facet (mkVec3d 0 0 0) (mkVec3d 2 0 0) (mkVec3d 0 2 0).

Definition part (id : ModelID) (m : TriangleMesh) (t : Transformation)
  : ModelVolume :=
  mkModelVolume id "part" m m [] MODEL_PART EmptyString t.

Definition modifier (id : ModelID) (m : TriangleMesh) : ModelVolume :=
  mkModelVolume id "modifier" m m [] PARAMETER_MODIFIER EmptyString
                Transformation.identity.

Definition placed (id : ModelID) (t : Transformation) : ModelInstance :=
  mkModelInstance id t PVS_Inside.

Definition object (id : ModelID) (vs : list ModelVolume)
  (insts : list ModelInstance) : ModelObject :=
  mkModelObject id "object" "object.stl" [] [] Vec3d_Zero vs insts
                BoundingBoxf3_default false.

(** An object without volumes and without instances. *)
Definition empty_object : ModelObject := object 2%Z [] [].

(** One modifier volume, one instance. *)
Definition modifier_only : ModelObject :=
  object 2%Z [modifier 3%Z [triangle]] [placed 4%Z Transformation.identity].

(** One model part, one instance. *)
Definition single_part : ModelObject :=
  object 2%Z [part 3%Z [triangle] Transformation.identity]
             [placed 4%Z Transformation.identity].

(** A placement, or a volume transform, that doubles every length. *)
Definition doubling : Transformation :=
  mkTransformation Vec3d_Zero Vec3d_Zero (mkVec3d 2 2 2) Vec3d_Ones.

(** A facet that rises from the plate: its box is the cube of edge 2. *)
Definition ramp : stl_facet :=
  mk_facet (mkVec3d 0 0 0) (mkVec3d 2 0 0) (mkVec3d 0 2 2).

(** One model part that is not flat, one instance that doubles it. *)
Definition doubled_ramp : ModelObject :=
  object 2%Z [part 3%Z [ramp] Transformation.identity] [placed 4%Z doubling].



(** Two model parts, the second one doubled by its own transform, under
    one instance at the origin. *)
Definition two_parts : ModelObject :=
  object 2%Z [part 3%Z [triangle] Transformation.identity;
              part 5%Z [triangle] doubling]
             [placed 4%Z Transformation.identity].

(** A stand-in for the geometry of the supports: a head at the anchor, a
    vertical pillar under every head down to the ground, a base under the
    pillar, each drawn as one facet; the section of a mesh is one point per
    facet whose first vertex lies at or above the height. *)
#[local] Instance support_geometry : sla.SupportGeometry := {|
  sla.Head := Vec3d;
  sla.Pillar := Vec3d * R;
  sla.Bridge := Vec3d * Vec3d;
  sla.Base := Vec3d;
  sla.on_surface em p := true;
  sla.spawn_head cfg em p := p;
  sla.connect cfg em hs h := inl (h, sla.ground_level em);
  sla.flared_base cfg p := mkVec3d (vx (fst p)) (vy (fst p)) (snd p);
  sla.head_mesh h := [mk_facet h h h];
  sla.pillar_mesh p :=
    [mk_facet (fst p) (fst p) (mkVec3d (vx (fst p)) (vy (fst p)) (snd p))];
  sla.bridge_mesh b := [mk_facet (fst b) (snd b) (snd b)];
  sla.base_mesh b := [mk_facet b b b];
  sla.cross_section m h :=
    map (fun f => [(vx (vertex0 f), vy (vertex0 f))])
        (filter (fun f => Is_true (Rleb h (vz (vertex0 f)))) m);
  sla.cross_section_nil h := eq_refl
|}.

End Sample.


(** A sequence of mutations of a model. *)
Definition sample_ops : list ModelOp :=
  [ MAddObjectMesh "part" "part.stl" [];
    MOnObject 0 OpAddInstance;
    MOnObject 0 (OpAddVolume []);
    MAddMaterial "resin";
    MOnObject 0 (OpDeleteVolume 0);
    MAddObjectOther Sample.empty_object;
    MDeleteObject 1 ].

(** A model with one material, and the same model after
    [add_material(b, *get_material(a))]. *)
Definition copied_material : Model * Model :=
  let '(m0, s0) := Model.new_default 0 in
  let '(m1, s1) := Model.add_material "a" m0 s0 in
  match Model.get_material "a" m1 with
  | Some material => (m1, Model.add_material_other "b" material m1)
  | None => (m1, m1)
  end.


(** ** Vocabulary of the further properties *)

(** Two volumes that [model_volume_list_changed] takes for the same. *)
Definition same_volume (isApprox : Transform3d -> Transform3d -> bool)
  (mv_old mv_new : ModelVolume) : Prop :=
  mv_id mv_old = mv_id mv_new /\
  isApprox (ModelVolume.get_matrix mv_old) (ModelVolume.get_matrix mv_new) = true.

(** The volumes of one type, in their order. *)
Definition of_type (type : ModelVolumeType) (vs : list ModelVolume)
  : list ModelVolume :=
  filter (fun v => m_type v = type) vs.

(** The facets of the model parts of a list of volumes. *)
Definition part_facets (vs : list ModelVolume) : nat :=
  list_sum (map (fun v => facets_count (mesh v))
                (filter (fun v => ModelVolume.is_model_part v = true) vs)).

(** The box [check_instances_print_volume_state] tests for a model part
    under an instance. *)
Definition hull_box (model_instance : ModelInstance) (vol : ModelVolume)
  : BoundingBoxf3 :=
  transformed_bounding_box
    (compose (ModelInstance.get_matrix false model_instance)
             (ModelVolume.get_matrix vol))
    (m_convex_hull vol).

(** The state of an instance in words: fully outside when the object has
    no model part; inside when the box of every model part is contained in
    the print volume; fully outside when no box of a model part is
    contained in it or intersects it; partly outside otherwise. *)
Definition classify (print_volume : BoundingBoxf3) (vols : list ModelVolume)
  (model_instance : ModelInstance) : PrintVolumeState :=
  let boxes :=
    map (hull_box model_instance)
        (filter (fun v => ModelVolume.is_model_part v = true) vols) in
  match boxes with
  | [] => PVS_Fully_Outside
  | _ =>
      if forallb (bb_contains print_volume) boxes then PVS_Inside
      else if forallb (fun bb => negb (bb_contains print_volume bb)
                                 && negb (bb_intersects print_volume bb)) boxes
           then PVS_Fully_Outside
           else PVS_Partly_Outside
  end.

Definition is_inside (p : PrintVolumeState) : bool :=
  match p with PVS_Inside => true | _ => false end.

(** The instances of a list that are printable in the print volume. *)
Definition printable_instances (print_volume : BoundingBoxf3)
  (vols : list ModelVolume) (insts : list ModelInstance) : list ModelInstance :=
  filter (fun i => is_inside (classify print_volume vols i) = true) insts.

(** The printable instances of all objects. *)
Definition printable_count (print_volume : BoundingBoxf3) (os : list ModelObject)
  : nat :=
  list_sum (map (fun o => length (printable_instances print_volume (volumes o)
                                                      (instances o))) os).

(** The flags one box contributes to [inside_outside]. *)
Definition flags_of (print_volume bb : BoundingBoxf3) : Z :=
  if bb_contains print_volume bb then ModelObject.INSIDE
  else if bb_intersects print_volume bb
       then Z.lor ModelObject.INSIDE ModelObject.OUTSIDE
       else ModelObject.OUTSIDE.

(** The flags of a list of boxes, read off two tests. *)
Definition flags_code (print_volume : BoundingBoxf3) (boxes : list BoundingBoxf3)
  : Z :=
  (if existsb (fun bb => bb_contains print_volume bb
                         || bb_intersects print_volume bb) boxes then 1 else 0)
  + (if existsb (fun bb => negb (bb_contains print_volume bb)) boxes then 2 else 0).

(** An instance after [translate_instance(i, vector)]. *)
Definition moved (vector : Vec3d) (i : ModelInstance) : ModelInstance :=
  ModelInstance.set_offset (vadd (ModelInstance.get_offset i) vector) i.

(** The copy that [duplicate_objects_grid] places in column [i] and row
    [j] of the grid, counted from zero. *)
Definition grid_copy (spacing : Vec3d) (id : ModelID) (i j : nat) : ModelInstance :=
  ModelInstance.set_offset
    (mkVec3d (vx spacing * INR i) (vy spacing * INR j) 0)
    (mkModelInstance id Transformation.identity PVS_Inside).

(** The copies of a grid of [x] columns and [y] rows, column by column,
    with the IDs that follow [s]. *)
Definition grid (spacing : Vec3d) (s : Z) (x y : nat) : list ModelInstance :=
  flat_map
    (fun i => map (fun j => grid_copy spacing (s + Z.of_nat (i * y + j) + 1) i j)
                  (seq 0 y))
    (seq 0 x).

(** The lowest height of the mesh of a volume, as its bounding box has it. *)
Definition mesh_zmin (vol : ModelVolume) : R :=
  vz (bb_min (mesh_bounding_box (mesh vol))).

(** Two volumes whose meshes start at different heights. *)
Definition zmin_apart (v1 v2 : ModelVolume) : Prop :=
  (EPSILON < Rabs (mesh_zmin v1 - mesh_zmin v2))%R.

(** An object that [looks_like_multipart_object] reads on: at most one
    volume and at most one configuration key. *)
Definition one_part (obj : ModelObject) : Prop :=
  (length (volumes obj) <= 1)%nat /\ (length (mo_config obj) <= 1)%nat.

(** The height [looks_like_multipart_object] compares with is not set, or
    is that of a volume it has seen. *)
Definition known_zmin (seen : list ModelVolume) (zmin : R) : Prop :=
  zmin = DBL_MAX \/ exists v, In v seen /\ mesh_zmin v = zmin.

(** A model of one object. *)
Definition sample_model : Model := mkModel 1 ∅ [Sample.single_part].

(** A vector without a negative component. *)
Definition not_negative (v : Vec3d) : Prop :=
  (0 <= vx v /\ 0 <= vy v /\ 0 <= vz v)%R.

(** What [add_default_instances] makes of one object: an object that has
    instances is left alone, an object without one gets a single instance
    with the identity placement. *)
Definition defaulted (o o' : ModelObject) : Prop :=
  volumes o' = volumes o /\ mo_id o' = mo_id o /\
  match instances o with
  | [] => exists i, instances o' = [i] /\ mi_transformation i = Transformation.identity
  | _ => o' = o
  end.


(* ================================================================== *)
(** * Part II.  Properties                                             *)
(* ================================================================== *)

(** ** The auto-extruder counter *)

Section AutoExtruderFacts.
Import AutoExtruder.

Lemma UINT_MAX_eq : UINT_MAX = 4294967295.
Proof. reflexivity. Qed.

Lemma wrap_uint_small z : 0 <= z <= UINT_MAX -> wrap_uint z = z.
Proof.
  rewrite UINT_MAX_eq. intros Hz. unfold wrap_uint.
  change (2 ^ 32) with 4294967296. apply Z.mod_small. lia.
Qed.

(** Below the largest [unsigned int] the function does what it is meant
    to: the id is within [1, max_extruders] and so is the counter left. *)
Lemma get_auto_extruder_id_in_range max_extruders s :
  1 <= max_extruders < UINT_MAX -> 1 <= s <= UINT_MAX ->
  1 <= fst (get_auto_extruder_id max_extruders s) <= max_extruders /\
  1 <= snd (get_auto_extruder_id max_extruders s) <= max_extruders.
Proof.
  intros Hm Hs. unfold get_auto_extruder_id, reset_auto_extruder_id.
  destruct (Z.gtb_spec s max_extruders) as [Hgt|Hle]; cbn; [lia|].
  rewrite wrap_uint_small by lia.
  destruct (Z.gtb_spec (s + 1) max_extruders); cbn; lia.
Qed.

(** After a reset, calls with one [max_extruders] below [UINT_MAX] run
    through 1, 2, ..., max_extruders, 1, 2, ... *)
Lemma calls_cycle_from max_extruders n : forall j k,
  1 <= max_extruders < UINT_MAX -> 0 <= j < max_extruders -> j = Z.of_nat k mod max_extruders ->
  calls n max_extruders (1 + j)
  = (map (fun i => 1 + Z.of_nat i mod max_extruders) (seq k n),
     1 + Z.of_nat (k + n) mod max_extruders).
Proof.
  induction n as [|n IH]; intros j k Hm Hj Hk.
  - cbn. rewrite Nat.add_0_r. now subst j.
  - cbn [calls seq map].
    assert (Hstep : get_auto_extruder_id max_extruders (1 + j)
                    = (1 + j, 1 + Z.of_nat (S k) mod max_extruders)).
    { unfold get_auto_extruder_id, reset_auto_extruder_id.
      destruct (Z.gtb_spec (1 + j) max_extruders); [lia|].
      rewrite wrap_uint_small by lia.
      replace (Z.of_nat (S k)) with (Z.of_nat k + 1) by lia.
      rewrite Z.add_mod, <- Hk by lia.
      destruct (Z.gtb_spec (1 + j + 1) max_extruders).
      - assert (j = max_extruders - 1) as -> by lia.
        replace (max_extruders - 1 + 1 mod max_extruders) with
          (1 mod max_extruders + (max_extruders - 1)) by lia.
        destruct (Z.eq_dec max_extruders 1) as [->|Hne]; [reflexivity|].
        rewrite (Z.mod_small 1) by lia.
        replace (1 + (max_extruders - 1)) with (1 * max_extruders) by lia.
        now rewrite Z.mod_mul by lia.
      - destruct (Z.eq_dec max_extruders 1) as [->|Hne]; [lia|].
        rewrite (Z.mod_small 1) by lia.
        rewrite Z.mod_small by lia. f_equal; lia. }
    rewrite Hstep.
    rewrite (IH (Z.of_nat (S k) mod max_extruders) (S k)); try lia.
    + rewrite Hk. do 2 f_equal. f_equal. lia.
    + apply Z.mod_pos_bound. lia.
Qed.

Lemma calls_cycle max_extruders n :
  1 <= max_extruders < UINT_MAX ->
  fst (calls n max_extruders (reset_auto_extruder_id 1))
  = map (fun i => 1 + Z.of_nat i mod max_extruders) (seq 0 n).
Proof.
  intros Hm. unfold reset_auto_extruder_id.
  change 1 with (1 + 0) at 1.
  rewrite (calls_cycle_from max_extruders n 0 0%nat); try lia; [reflexivity|].
  now rewrite Z.mod_0_l by lia.
Qed.

(** With the largest limit the counter just counts up ... *)
Lemma calls_count_up n : forall s,
  1 <= s -> s + Z.of_nat n <= UINT_MAX ->
  snd (calls n UINT_MAX s) = s + Z.of_nat n.
Proof.
  induction n as [|n IH]; intros s Hs Hn; cbn [calls].
  - cbn. lia.
  - assert (Hstep : get_auto_extruder_id UINT_MAX s = (s, s + 1)).
    { unfold get_auto_extruder_id.
      destruct (Z.gtb_spec s UINT_MAX); [lia|].
      rewrite wrap_uint_small by lia.
      destruct (Z.gtb_spec (s + 1) UINT_MAX); [lia|reflexivity]. }
    rewrite Hstep.
    destruct (calls n UINT_MAX (s + 1)) as [ids s2] eqn:E.
    cbn. change s2 with (snd (ids, s2)). rewrite <- E, IH; lia.
Qed.

Lemma calls_reachable n max_extruders : forall s,
  0 <= max_extruders <= UINT_MAX -> reachable s ->
  reachable (snd (calls n max_extruders s)).
Proof.
  induction n as [|n IH]; intros s Hm Hs; cbn [calls]; [exact Hs|].
  destruct (get_auto_extruder_id max_extruders s) as [id s1] eqn:E1.
  destruct (calls n max_extruders s1) as [ids s2] eqn:E2.
  cbn. change s2 with (snd (ids, s2)). rewrite <- E2. apply IH; [exact Hm|].
  change s1 with (snd (id, s1)). rewrite <- E1. now apply reach_get.
Qed.

Lemma reachable_UINT_MAX : reachable UINT_MAX.
Proof.
  assert (H : exists n : nat, Z.of_nat n = UINT_MAX - 1).
  { exists (Z.to_nat (UINT_MAX - 1)). apply Z2Nat.id. rewrite UINT_MAX_eq. lia. }
  destruct H as [n Hn].
  replace UINT_MAX with (snd (calls n UINT_MAX initial)) at 1.
  - apply calls_reachable; [rewrite UINT_MAX_eq; lia | constructor].
  - unfold initial. rewrite calls_count_up; lia.
Qed.

End AutoExtruderFacts.

(** C9 (the code departs from the claim): the pre-increment
    [++ s_auto_extruder_id] wraps around.  Starting from the initial
    counter 1, calls of [get_auto_extruder_id(4294967295)] reach the counter
    4294967295; one more such call returns 4294967295 and leaves the counter
    at 0, because [0 > max_extruders] is false; the next call, with
    [max_extruders = 1], returns 0, which is outside [1, max_extruders]. *)
Theorem C9_auto_extruder_id_wraps_to_zero :
  AutoExtruder.reachable UINT_MAX /\
  AutoExtruder.get_auto_extruder_id UINT_MAX UINT_MAX = (UINT_MAX, 0) /\
  AutoExtruder.reachable 0 /\
  AutoExtruder.get_auto_extruder_id 1 0 = (0, 1).
Proof.
  split; [apply reachable_UINT_MAX|]. split; [reflexivity|]. split; [|reflexivity].
  change 0 with (snd (AutoExtruder.get_auto_extruder_id UINT_MAX UINT_MAX)).
  apply AutoExtruder.reach_get; [apply reachable_UINT_MAX | rewrite UINT_MAX_eq; lia].
Qed.

(** ** The fast paths of [apply]: comparing object lists *)

Section ObjectLists.

(** The loop finds no difference exactly when the IDs agree at every index
    it visits, and every such index is in range of both lists. *)
Lemma ids_differ_from_false n : forall i objects_old objects_new,
  Model.ids_differ_from i n objects_old objects_new = false <->
  forall k, (i <= k < i + n)%nat ->
    exists o o', objects_old !! k = Some o /\ objects_new !! k = Some o' /\
                 mo_id o = mo_id o'.
Proof.
  induction n as [|n IH]; intros i objects_old objects_new; cbn [Model.ids_differ_from].
  - split; [intros _ k Hk; lia | reflexivity].
  - destruct (objects_old !! i) as [o|] eqn:Eo, (objects_new !! i) as [o'|] eqn:Eo'.
    + destruct (Z.eqb_spec (mo_id o) (mo_id o')) as [Heq|Hne]; cbn [negb].
      * rewrite IH. split.
        -- intros Hall k Hk. destruct (decide (k = i)) as [->|Hki].
           ++ eauto.
           ++ apply Hall. lia.
        -- intros Hall k Hk. apply Hall. lia.
      * split; [discriminate|]. intros Hall.
        destruct (Hall i) as (a & b & Ha & Hb & Hab); [lia|]. congruence.
    + split; [discriminate|]. intros Hall.
      destruct (Hall i) as (a & b & Ha & Hb & Hab); [lia|]. congruence.
    + split; [discriminate|]. intros Hall.
      destruct (Hall i) as (a & b & Ha & Hb & Hab); [lia|]. congruence.
    + split; [discriminate|]. intros Hall.
      destruct (Hall i) as (a & b & Ha & Hb & Hab); [lia|]. congruence.
Qed.

Lemma ids_agree_prefix (objects_old objects_new : list ModelObject) :
  (length objects_old <= length objects_new)%nat ->
  (forall k, (0 <= k < 0 + length objects_old)%nat ->
     exists o o', objects_old !! k = Some o /\ objects_new !! k = Some o' /\
                  mo_id o = mo_id o') <->
  map mo_id objects_old `prefix_of` map mo_id objects_new.
Proof.
  revert objects_new. induction objects_old as [|a l IH]; intros objects_new Hlen.
  - split; [intros _; apply prefix_nil | intros _ k Hk; cbn in Hk; lia].
  - destruct objects_new as [|b l']; [cbn in Hlen; lia|].
    cbn [map]. split.
    + intros Hall.
      destruct (Hall 0%nat) as (o & o' & Ho & Ho' & Hid); [cbn; lia|].
      cbn in Ho, Ho'. injection Ho as <-. injection Ho' as <-. rewrite Hid.
      apply prefix_cons. apply IH; [cbn in Hlen; lia|].
      intros k Hk. destruct (Hall (S k)) as (x & y & Hx & Hy & Hxy); [cbn; lia|].
      eauto.
    + intros Hpre k Hk.
      pose proof (prefix_cons_inv_1 _ _ _ _ Hpre) as Hhd.
      pose proof (prefix_cons_inv_2 _ _ _ _ Hpre) as Htl.
      destruct k as [|k]; [cbn; eauto|].
      cbn. apply IH; [cbn in Hlen; lia | exact Htl | cbn in Hk; lia].
Qed.

End ObjectLists.

(** C4: [model_object_list_equal] holds exactly when the two object lists
    have the same length and the same IDs position by position;
    [model_object_list_extended] holds exactly when the new list is
    strictly longer and the IDs of the old list are a prefix of the IDs of
    the new one; they never hold together. *)
Theorem C4_object_list_fast_paths (model_old model_new : Model) :
  (Model.model_object_list_equal model_old model_new = true <->
     length (objects model_old) = length (objects model_new) /\
     forall i o o', objects model_old !! i = Some o ->
                    objects model_new !! i = Some o' -> mo_id o = mo_id o') /\
  (Model.model_object_list_extended model_old model_new = true <->
     (length (objects model_old) < length (objects model_new))%nat /\
     map mo_id (objects model_old) `prefix_of` map mo_id (objects model_new)) /\
  ~ (Model.model_object_list_equal model_old model_new = true /\
     Model.model_object_list_extended model_old model_new = true).
Proof.
  unfold Model.model_object_list_equal, Model.model_object_list_extended.
  destruct model_old as [id1 mats1 old], model_new as [id2 mats2 new]; cbn [objects].
  split; [split|split; [split|]].
  - destruct (Nat.eqb_spec (length old) (length new)) as [Hlen|Hlen]; cbn [negb];
      [|discriminate].
    destruct (Model.ids_differ_from 0 (length old) old new) eqn:E; [discriminate|].
    intros _. split; [exact Hlen|]. intros i o o' Ho Ho'.
    apply ids_differ_from_false with (k := i) in E.
    + destruct E as (a & b & Ha & Hb & Hab). congruence.
    + apply lookup_lt_Some in Ho. lia.
  - intros [Hlen Hall].
    destruct (Nat.eqb_spec (length old) (length new)) as [_|Hne]; [|contradiction].
    cbn [negb].
    destruct (Model.ids_differ_from 0 (length old) old new) eqn:E; [|reflexivity].
    exfalso. apply not_false_iff_true in E. apply E. apply ids_differ_from_false.
    intros k Hk.
    destruct (lookup_lt_is_Some_2 old k) as [o Ho]; [lia|].
    destruct (lookup_lt_is_Some_2 new k) as [o' Ho']; [lia|].
    eauto 6.
  - destruct (Nat.leb_spec (length new) (length old)) as [Hle|Hlt]; [discriminate|].
    destruct (Model.ids_differ_from 0 (length old) old new) eqn:E; [discriminate|].
    intros _. split; [exact Hlt|].
    apply ids_agree_prefix; [lia|]. now apply ids_differ_from_false.
  - intros [Hlt Hpre].
    destruct (Nat.leb_spec (length new) (length old)) as [Hle|_]; [lia|].
    destruct (Model.ids_differ_from 0 (length old) old new) eqn:E; [|reflexivity].
    exfalso. apply not_false_iff_true in E. apply E. apply ids_differ_from_false.
    apply ids_agree_prefix; [lia | exact Hpre].
  - intros [Heq Hext].
    destruct (Nat.eqb_spec (length old) (length new)) as [Hlen|Hlen]; cbn [negb] in Heq;
      [|discriminate].
    destruct (Nat.leb_spec (length new) (length old)) as [Hle|Hlt]; [discriminate|lia].
Qed.

(** Case analysis on every comparison of reals in the goal, innermost
    first. *)
Ltac no_real_test t :=
  lazymatch t with
  | context [Rle_dec _ _] => fail
  | context [Rlt_dec _ _] => fail
  | _ => idtac
  end.
Ltac rcases :=
  unfold Rmax, Rmin, std_max, std_min;
  repeat (match goal with
          | |- context [Rle_dec ?a ?b] =>
              no_real_test a; no_real_test b; destruct (Rle_dec a b)
          | |- context [Rlt_dec ?a ?b] =>
              no_real_test a; no_real_test b; destruct (Rlt_dec a b)
          end; cbn beta iota);
  try lra.

(** ** Facts of the geometry kernel *)

Section GeometryFacts.
Open Scope R_scope.

Lemma rotation_transform_0 a : rotation_transform a 0 = Transform3d_Identity.
Proof.
  unfold rotation_transform, Transform3d_Identity. rewrite cos_0, sin_0, Ropp_0.
  now destruct a.
Qed.

Lemma compose_Identity_l b : compose Transform3d_Identity b = b.
Proof.
  destruct b as [[a1 a2 a3] [b1 b2 b3] [c1 c2 c3] [t1 t2 t3]].
  unfold compose, Transform3d_Identity, row_times, transform_point, linear_apply,
    dot, col, vadd, Vec3d_Zero.
  cbn [vx vy vz row0 row1 row2 translation coord]. f_equal; f_equal; ring.
Qed.

(** Without rotation the assembled transform is diagonal. *)
Lemma assemble_transform_no_rotation t s m :
  assemble_transform t (mkVec3d 0 0 0) s m
  = mkTransform3d (mkVec3d (vx s * vx m) 0 0) (mkVec3d 0 (vy s * vy m) 0)
                  (mkVec3d 0 0 (vz s * vz m)) t.
Proof.
  unfold assemble_transform. cbn [vx vy vz].
  rewrite !rotation_transform_0, !compose_Identity_l.
  unfold compose, translation_transform, scaling_transform, cwiseProduct,
    row_times, transform_point, linear_apply, dot, col, vadd, Vec3d_Zero.
  cbn [vx vy vz row0 row1 row2 translation coord].
  destruct t. cbn [vx vy vz]. f_equal; f_equal; ring.
Qed.

Lemma transform_point_diagonal a b c t p :
  transform_point (mkTransform3d (mkVec3d a 0 0) (mkVec3d 0 b 0) (mkVec3d 0 0 c) t) p
  = mkVec3d (a * vx p + vx t) (b * vy p + vy t) (c * vz p + vz t).
Proof.
  unfold transform_point, linear_apply, dot, vadd.
  cbn [vx vy vz row0 row1 row2 translation]. f_equal; ring.
Qed.

Lemma compose_diagonal a b c t a' b' c' t' :
  compose (mkTransform3d (mkVec3d a 0 0) (mkVec3d 0 b 0) (mkVec3d 0 0 c) t)
          (mkTransform3d (mkVec3d a' 0 0) (mkVec3d 0 b' 0) (mkVec3d 0 0 c') t')
  = mkTransform3d (mkVec3d (a * a') 0 0) (mkVec3d 0 (b * b') 0)
                  (mkVec3d 0 0 (c * c'))
                  (mkVec3d (a * vx t' + vx t) (b * vy t' + vy t) (c * vz t' + vz t)).
Proof.
  unfold compose, row_times, transform_point, linear_apply, dot, col, vadd.
  cbn [vx vy vz row0 row1 row2 translation coord]. f_equal; f_equal; ring.
Qed.

End GeometryFacts.

(** Unfold the data model and the kernel down to arithmetic on reals,
    leaving the transforms to the three lemmas above. *)
Ltac geom_unfold :=
  cbv beta iota zeta delta
    [ModelObject.bounding_box ModelObject.compute_bounding_box
     ModelObject.translate ModelObject.delete_volume
     ModelObject.with_volumes ModelObject.with_bounding_box
     ModelObject.with_instances ModelObject.invalidate_bounding_box
     ModelInstance.transform_bounding_box ModelInstance.get_matrix
     ModelInstance.get_offset ModelInstance.set_offset
     ModelInstance.set_transformation
     ModelVolume.get_matrix ModelVolume.translate ModelVolume.set_offset
     ModelVolume.get_offset ModelVolume.set_transformation
     ModelVolume.is_model_part ModelVolume.center_geometry
     ModelVolume.with_mesh ModelVolume.with_id ModelVolume.set_new_unique_id
     Transformation.get_matrix Transformation.get_matrix4
     Transformation.set_offset Transformation.identity
     world_vertices generate_new_id bind ret
     vadd vsub vneg vdiv vscale cwiseProduct cwiseMin cwiseMax
     Vec3d_Zero Vec3d_Ones
     bb_merge bb_merge_point bb_of_points bb_corners bb_transformed
     bb_translate bb_size bb_center BoundingBoxf3_default
     mesh_bounding_box mesh_vertices mesh_transform mesh_translate
     facet_map facet_vertices
     Sample.object Sample.part Sample.placed Sample.triangle Sample.doubling
     Sample.doubled_ramp Sample.ramp Sample.two_parts Sample.single_part
     volumes instances m_bounding_box m_bounding_box_valid mesh m_type
     mv_transformation mi_transformation
     m_offset m_rotation m_scaling_factor m_mirror bb_min bb_max defined
     vx vy vz vertex0 vertex1 vertex2
     mv_id mv_name m_convex_hull mv_config m_material_id
     mo_id mo_name input_file mo_config sla_support_points origin_translation
     mi_id print_volume_state
     fold_left map concat app negb fst snd lookup list_lookup delete list_delete].

(** Evaluate [Rmin] and [Rmax] of closed real terms, innermost first. *)
Ltac no_minmax t :=
  lazymatch t with
  | context [Rmin _ _] => fail
  | context [Rmax _ _] => fail
  | _ => idtac
  end.
Ltac rminmax :=
  repeat match goal with
    | |- context [Rmin ?a ?b] =>
        no_minmax a; no_minmax b;
        first [rewrite (Rmin_left a b) by lra | rewrite (Rmin_right a b) by lra]
    | |- context [Rmax ?a ?b] =>
        no_minmax a; no_minmax b;
        first [rewrite (Rmax_left a b) by lra | rewrite (Rmax_right a b) by lra]
    end.

(** Evaluate the tests of [BoundingBoxf3_of] on closed real terms. *)
Ltac defined_cases :=
  cbv [BoundingBoxf3_of Rltb Rleb vx vy vz andb];
  repeat (match goal with
          | |- context [Rle_dec ?a ?b] =>
              destruct (Rle_dec a b); [try (exfalso; lra)|]
          | |- context [Rlt_dec ?a ?b] =>
              destruct (Rlt_dec a b); [|try (exfalso; lra)]
          end; cbn beta iota).

Lemma box_eq (a b c a' b' c' x y z x' y' z' : R) (d : bool) :
  a = x -> b = y -> c = z -> a' = x' -> b' = y' -> c' = z' ->
  mkBoundingBoxf3 (mkVec3d a b c) (mkVec3d a' b' c') d
  = mkBoundingBoxf3 (mkVec3d x y z) (mkVec3d x' y' z') d.
Proof. now intros -> -> -> -> -> ->. Qed.

Ltac geom_compute :=
  geom_unfold;
  rewrite ?assemble_transform_no_rotation;
  rewrite ?compose_diagonal; rewrite ?transform_point_diagonal;
  geom_unfold;
  rewrite ?compose_diagonal; rewrite ?transform_point_diagonal;
  geom_unfold.

(** ** The cut plane of the gizmo *)

Section CutPlane.
Open Scope R_scope.

Lemma std_max_Rmax a b : std_max a b = Rmax a b.
Proof.
  rcases.
Qed.

Lemma std_min_Rmin a b : std_min a b = Rmin b a.
Proof.
  rcases.
Qed.

(** What [set_cut_z] stores, whatever [m_max_z] is. *)
Lemma set_cut_z_stores cut_z g :
  m_cut_z (GLGizmoCut.set_cut_z cut_z g) = Rmax 0 (Rmin cut_z (m_max_z g)) /\
  m_max_z (GLGizmoCut.set_cut_z cut_z g) = m_max_z g.
Proof.
  unfold GLGizmoCut.set_cut_z. cbn. now rewrite std_max_Rmax, std_min_Rmin.
Qed.

Lemma clamp_commutes z max_z :
  0 <= max_z -> Rmax 0 (Rmin z max_z) = Rmin (Rmax z 0) max_z.
Proof.
  intros Hm. rcases.
Qed.

End CutPlane.

(** C8: with [max_z] the height of the selection's bounding box (a box
    whose top is not below its bottom), [set_cut_z(z)] stores
    [min(max(z, 0), max_z)] for every [z], and the stored cut plane lies in
    [0, max_z], after [set_cut_z] as well as after [update_max_z] alone. *)
Theorem C8_cut_z_is_clamped (selection_bounding_box : BoundingBoxf3)
  (z : R) (g : GLGizmoCut) :
  (vz (bb_min selection_bounding_box) <= vz (bb_max selection_bounding_box))%R ->
  let max_z := vz (bb_size selection_bounding_box) in
  let g1 := GLGizmoCut.update_max_z selection_bounding_box g in
  let g2 := GLGizmoCut.set_cut_z z g1 in
  m_max_z g1 = max_z /\
  (0 <= m_cut_z g1 <= max_z)%R /\
  m_cut_z g2 = Rmin (Rmax z 0) max_z /\
  (0 <= m_cut_z g2 <= max_z)%R.
Proof.
  intros Hbox max_z g1 g2.
  assert (Hmax : (0 <= max_z)%R).
  { subst max_z. unfold bb_size, vsub. cbn. lra. }
  subst g1 g2. unfold GLGizmoCut.update_max_z, GLGizmoCut.set_cut_z.
  cbn [m_cut_z m_max_z]. fold max_z.
  generalize dependent max_z. intros max_z Hmax.
  repeat split; rcases.
Qed.

(** C8 at a box of height 10 and a request of 25: the plane is put at 10. *)
Lemma C8_cut_z_is_clamped_witness :
  let box := mkBoundingBoxf3 (mkVec3d 0 0 0) (mkVec3d 1 1 10) true in
  let g := mkGLGizmoCut 0 0 true true false in
  let g2 := GLGizmoCut.set_cut_z 25 (GLGizmoCut.update_max_z box g) in
  m_cut_z g2 = Rmin (Rmax 25 0) (vz (bb_size box)) /\
  (0 <= m_cut_z g2 <= vz (bb_size box))%R.
Proof.
  intros box g g2.
  destruct (C8_cut_z_is_clamped box 25 g) as (_ & _ & H3 & H4).
  - cbn. lra.
  - split; [exact H3 | exact H4].
Defined.

(** ** Print-volume classification *)

Section PrintVolume.

Lemma inside_outside_of_no_model_part print_volume vols model_instance :
  Forall (fun v => ModelVolume.is_model_part v = false) vols ->
  ModelObject.inside_outside_of print_volume vols model_instance = 0.
Proof.
  unfold ModelObject.inside_outside_of. intros Hall.
  set (step := fun (inside_outside : Z) (vol : ModelVolume) => _).
  assert (Hfix : forall acc, fold_left step vols acc = acc); [|apply Hfix].
  induction vols as [|v vols IH]; intros acc; [reflexivity|].
  inversion Hall as [|? ? Hv Hrest]; subst. cbn [fold_left].
  unfold step at 2. rewrite Hv. now apply IH.
Qed.

(** The outer loop, from any intermediate state, when every instance
    collects the flags 0. *)
Lemma check_loop_no_model_part print_volume vols insts : forall acc,
  Forall (fun v => ModelVolume.is_model_part v = false) vols ->
  fold_left
    (fun (acc : Z * list ModelInstance) model_instance =>
       let inside_outside :=
         ModelObject.inside_outside_of print_volume vols model_instance in
       let model_instance :=
         ModelInstance.set_print_volume_state
           (ModelObject.print_volume_state_of inside_outside) model_instance in
       (if inside_outside =? ModelObject.INSIDE
        then wrap_uint (fst acc + 1) else fst acc,
        snd acc ++ [model_instance]))
    insts acc
  = (fst acc,
     snd acc ++ map (ModelInstance.set_print_volume_state PVS_Fully_Outside) insts).
Proof.
  induction insts as [|i insts IH]; intros [n done] Hall; cbn [fold_left map fst snd].
  - now rewrite app_nil_r.
  - rewrite IH by exact Hall. cbn [fst snd].
    rewrite inside_outside_of_no_model_part by exact Hall.
    cbn. now rewrite <- app_assoc.
Qed.

End PrintVolume.

(** C10: an object without a model-part volume has no printable instance:
    [check_instances_print_volume_state] returns 0 and marks every
    instance [PVS_Fully_Outside], whatever the print volume and the
    placements; nothing else of the object changes. *)
Theorem C10_no_model_part_is_fully_outside (print_volume : BoundingBoxf3)
  (o : ModelObject) :
  Forall (fun v => ModelVolume.is_model_part v = false) (volumes o) ->
  let r := ModelObject.check_instances_print_volume_state print_volume o in
  fst r = 0 /\
  Forall (fun i => print_volume_state i = PVS_Fully_Outside) (instances (snd r)) /\
  snd r = ModelObject.with_instances
            (map (ModelInstance.set_print_volume_state PVS_Fully_Outside)
                 (instances o)) o.
Proof.
  intros Hall r. subst r. unfold ModelObject.check_instances_print_volume_state.
  rewrite check_loop_no_model_part by exact Hall. cbn [fst snd app].
  split; [reflexivity|]. split; [|reflexivity].
  cbn. apply Forall_forall. intros i Hi. apply list_elem_of_fmap in Hi.
  destruct Hi as (j & -> & _). reflexivity.
Qed.

(** C10 at an object whose only volume is a parameter modifier. *)
Lemma C10_no_model_part_is_fully_outside_witness :
  let pv := mkBoundingBoxf3 (mkVec3d 0 0 0) (mkVec3d 250 210 200) true in
  let r := ModelObject.check_instances_print_volume_state pv Sample.modifier_only in
  fst r = 0 /\
  Forall (fun i => print_volume_state i = PVS_Fully_Outside) (instances (snd r)).
Proof.
  intros pv r.
  destruct (C10_no_model_part_is_fully_outside pv Sample.modifier_only) as (H1 & H2 & _).
  - repeat constructor.
  - split; [exact H1 | exact H2].
Defined.

(** ** The snug bounding box *)

Section RawBoundingBox.

Lemma raw_bounding_box_loop_no_instances vols : forall bb,
  ModelObject.raw_bounding_box_loop [] vols bb =
  if existsb ModelVolume.is_model_part vols
  then inl raw_bounding_box_error else inr bb.
Proof.
  induction vols as [|v vols IH]; intros bb; cbn; [reflexivity|].
  destruct (ModelVolume.is_model_part v); cbn; [reflexivity | apply IH].
Qed.

Lemma raw_bounding_box_loop_instances front rest vols : forall bb,
  ModelObject.raw_bounding_box_loop (front :: rest) vols bb =
  inr (merged_snug_box front vols bb).
Proof.
  unfold merged_snug_box.
  induction vols as [|v vols IH]; intros bb; cbn [ModelObject.raw_bounding_box_loop];
    [reflexivity|].
  rewrite filter_cons.
  destruct (ModelVolume.is_model_part v) eqn:Ev.
  - rewrite decide_True by reflexivity. cbn [fold_left]. apply IH.
  - rewrite decide_False by discriminate. apply IH.
Qed.

End RawBoundingBox.

(** C5 (as the code has it): without instances, [raw_bounding_box] throws
    [std::invalid_argument] exactly when the object has a model-part
    volume, and otherwise returns the default, undefined box; with an
    instance it returns, without error, the merge of the snug boxes of the
    model-part volumes under the first instance.  The method is [const]
    and computes its result from the object alone. *)
Theorem C5_raw_bounding_box (o : ModelObject) :
  (instances o = [] ->
     (existsb ModelVolume.is_model_part (volumes o) = true ->
        ModelObject.raw_bounding_box o = inl raw_bounding_box_error) /\
     (existsb ModelVolume.is_model_part (volumes o) = false ->
        ModelObject.raw_bounding_box o = inr BoundingBoxf3_default)) /\
  (forall front rest, instances o = front :: rest ->
     ModelObject.raw_bounding_box o =
     inr (merged_snug_box front (volumes o) BoundingBoxf3_default)).
Proof.
  unfold ModelObject.raw_bounding_box. split.
  - intros ->. rewrite raw_bounding_box_loop_no_instances.
    split; intros ->; reflexivity.
  - intros front rest ->. apply raw_bounding_box_loop_instances.
Qed.

(** C5 at an object with a model part: no instance, then one instance. *)
Lemma C5_raw_bounding_box_witness :
  ModelObject.raw_bounding_box (ModelObject.with_instances [] Sample.single_part)
  = inl raw_bounding_box_error /\
  ModelObject.raw_bounding_box Sample.single_part
  = inr (merged_snug_box (Sample.placed 4 Transformation.identity)
           (volumes Sample.single_part) BoundingBoxf3_default).
Proof.
  split.
  - apply (C5_raw_bounding_box (ModelObject.with_instances [] Sample.single_part));
      reflexivity.
  - apply (C5_raw_bounding_box Sample.single_part) with (rest := []). reflexivity.
Defined.

(** The claim as stated fails: an object with no instance and no volume
    gets a box, not an error. *)
Lemma C5_no_instances_no_error :
  instances Sample.empty_object = [] /\
  ModelObject.raw_bounding_box Sample.empty_object = inr BoundingBoxf3_default.
Proof. split; reflexivity. Qed.

(** ** The cached bounding box *)

Section BoundingBoxCache.
Context `{MeshAlgorithms}.

Lemma update_back_instance_valid f o :
  m_bounding_box_valid (ModelObject.update_back_instance f o) = m_bounding_box_valid o.
Proof.
  unfold ModelObject.update_back_instance.
  destruct (reverse (instances o)); reflexivity.
Qed.

Lemma apply_op_invalidates op o c s :
  apply_op op o = Some c -> m_bounding_box_valid (fst (c s)) = false.
Proof.
  destruct op; cbn [apply_op]; intros Hc.
  - injection Hc as <-. reflexivity.
  - injection Hc as <-. reflexivity.
  - injection Hc as <-. reflexivity.
  - unfold ModelObject.delete_volume in Hc.
    destruct (volumes o !! idx); [|discriminate]. injection Hc as <-.
    destruct (delete idx (volumes o)) as [|v [|v' vs]]; reflexivity.
  - injection Hc as <-. reflexivity.
  - injection Hc as <-. reflexivity.
  - injection Hc as <-. reflexivity.
  - injection Hc as <-. unfold ModelObject.add_instance_at, bind.
    destruct (ModelObject.add_instance o s) as [o1 s1] eqn:E. cbn.
    rewrite update_back_instance_valid.
    change o1 with (fst (o1, s1)). rewrite <- E. reflexivity.
  - unfold ModelObject.delete_instance in Hc.
    destruct (instances o !! idx); [|discriminate]. injection Hc as <-. reflexivity.
  - unfold ModelObject.delete_last_instance, ModelObject.delete_instance in Hc.
    destruct (instances o) as [|i l]; [discriminate|].
    destruct ((i :: l) !! _); [|discriminate]. injection Hc as <-. reflexivity.
  - injection Hc as <-. reflexivity.
  - unfold ModelObject.translate_instance in Hc.
    destruct (instances o !! instance_idx); [|discriminate].
    injection Hc as <-. reflexivity.
  - injection Hc as <-. reflexivity.
  - injection Hc as <-. reflexivity.
  - injection Hc as <-. reflexivity.
  - injection Hc as <-. reflexivity.
Qed.

(** A read of an object whose cache is not valid recomputes, stores the
    value and marks the cache valid. *)
Lemma bounding_box_recomputes o :
  m_bounding_box_valid o = false ->
  ModelObject.bounding_box o
  = (ModelObject.compute_bounding_box o,
     ModelObject.with_bounding_box (ModelObject.compute_bounding_box o) true o).
Proof. intros Hv. unfold ModelObject.bounding_box. now rewrite Hv. Qed.

Lemma compute_with_bounding_box bb valid o :
  ModelObject.compute_bounding_box (ModelObject.with_bounding_box bb valid o)
  = ModelObject.compute_bounding_box o.
Proof. reflexivity. Qed.

(** A read returns the recomputed value on every coherent object and
    leaves a coherent object with the same volumes and instances. *)
Lemma bounding_box_coherent o :
  coherent o ->
  fst (ModelObject.bounding_box o) = ModelObject.compute_bounding_box o /\
  coherent (snd (ModelObject.bounding_box o)) /\
  ModelObject.compute_bounding_box (snd (ModelObject.bounding_box o))
  = ModelObject.compute_bounding_box o.
Proof.
  intros Hc. unfold ModelObject.bounding_box.
  destruct (m_bounding_box_valid o) eqn:Hv; cbn [negb fst snd].
  - split; [now apply Hc|]. split; [exact Hc | reflexivity].
  - split; [reflexivity|]. split; [|reflexivity]. intros _. reflexivity.
Qed.

Lemma apply_op_coherent op o c s :
  apply_op op o = Some c -> coherent (fst (c s)).
Proof.
  intros Hc Hv. rewrite (apply_op_invalidates op o c s Hc) in Hv. discriminate.
Qed.

(** Over any sequence of invalidating mutations and reads that starts
    from a coherent object, every read returns what a recomputation from
    scratch gives for the object it reads. *)
Lemma run_reads_are_fresh steps : forall o s reads o_end,
  coherent o ->
  run steps o s = Some (reads, o_end) ->
  Forall (fun r => fst r = ModelObject.compute_bounding_box (snd r)) reads /\
  coherent o_end.
Proof.
  induction steps as [|[op|] steps IH]; intros o s reads o_end Hco Hrun; cbn [run] in Hrun.
  - injection Hrun as <- <-. split; [constructor | exact Hco].
  - destruct (apply_op op o) as [c|] eqn:Eop; [|discriminate].
    destruct (c s) as [o' s'] eqn:Ec.
    apply (IH o' s'); [|exact Hrun].
    change o' with (fst (o', s')). rewrite <- Ec. now apply apply_op_coherent with op o.
  - destruct (ModelObject.bounding_box o) as [bb o'] eqn:Ebb.
    destruct (run steps o' s) as [[reads' o_end']|] eqn:Erun; [|discriminate].
    injection Hrun as <- <-.
    destruct (bounding_box_coherent o Hco) as (Hval & Hco' & _).
    rewrite Ebb in Hval, Hco'. cbn [fst snd] in Hval, Hco'.
    destruct (IH o' s reads' o_end' Hco' Erun) as [Hreads Hend].
    split; [|exact Hend]. constructor; [exact Hval | exact Hreads].
Qed.

End BoundingBoxCache.

(** The methods that end in [invalidate_bounding_box()] keep the contract
    of the cache: after any of them the flag is down, and the next
    [bounding_box()] returns the value recomputed from the model-part
    volumes and the instance transforms, stores it and marks the cache
    valid. *)
Lemma invalidating_op_refreshes_the_cache `{MeshAlgorithms} (o : ModelObject)
  op c s_last_id :
  apply_op op o = Some c ->
  let o' := fst (c s_last_id) in
  m_bounding_box_valid o' = false /\
  fst (ModelObject.bounding_box o') = ModelObject.compute_bounding_box o' /\
  m_bounding_box_valid (snd (ModelObject.bounding_box o')) = true /\
  m_bounding_box (snd (ModelObject.bounding_box o'))
  = ModelObject.compute_bounding_box o'.
Proof.
  intros Hc o'.
  pose proof (apply_op_invalidates op o c s_last_id Hc) as Hv. fold o' in Hv.
  rewrite (bounding_box_recomputes o' Hv). cbn [fst snd]. auto.
Qed.

(** [translate] does not end in [invalidate_bounding_box()]: it leaves the
    flag as it is and shifts a valid cached box by the vector the volumes
    are moved by. *)
Lemma translate_shifts_the_cache d o :
  m_bounding_box_valid (ModelObject.translate d o) = m_bounding_box_valid o /\
  (m_bounding_box_valid o = true ->
   m_bounding_box (ModelObject.translate d o) = bb_translate d (m_bounding_box o)).
Proof.
  unfold ModelObject.translate. cbn [m_bounding_box_valid ModelObject.with_volumes].
  destruct (m_bounding_box_valid o) eqn:Hv; cbn; [|rewrite Hv]; auto.
  split; [reflexivity | discriminate].
Qed.

(** Neither does [center_around_origin], which moves the volumes through
    [translate]: a valid cache stays valid. *)
Lemma center_around_origin_keeps_the_flag o :
  m_bounding_box_valid (ModelObject.center_around_origin o)
  = m_bounding_box_valid o.
Proof.
  unfold ModelObject.center_around_origin. cbv zeta.
  cbn [m_bounding_box_valid ModelObject.with_origin_translation].
  apply translate_shifts_the_cache.
Qed.

(** C2: the contract of the cache is broken by [translate].  The sample
    object has one model part, whose box is the cube from (0,0,0) to
    (2,2,2), under one instance that doubles it.  A first read of
    [bounding_box()] stores the cube from (0,0,0) to (4,4,4) and marks the
    cache valid; this value is what a recomputation gives.  After
    [translate(1, 0, 0)] the cache is still marked valid, and the next read
    returns the stored box shifted by the vector, from (1,0,0) to (5,4,4).
    A recomputation from the volumes and the instance gives the box from
    (2,0,0) to (6,4,4): the instance doubles the shift of the volume. *)
Theorem C2_translate_returns_a_stale_box :
  let o := snd (ModelObject.bounding_box Sample.doubled_ramp) in
  let o' := ModelObject.translate (mkVec3d 1 0 0) o in
  m_bounding_box_valid o = true /\
  m_bounding_box o = ModelObject.compute_bounding_box o /\
  m_bounding_box o = mkBoundingBoxf3 (mkVec3d 0 0 0) (mkVec3d 4 4 4) true /\
  m_bounding_box_valid o' = true /\
  fst (ModelObject.bounding_box o')
  = mkBoundingBoxf3 (mkVec3d 1 0 0) (mkVec3d 5 4 4) true /\
  ModelObject.compute_bounding_box o'
  = mkBoundingBoxf3 (mkVec3d 2 0 0) (mkVec3d 6 4 4) true /\
  fst (ModelObject.bounding_box o') <> ModelObject.compute_bounding_box o'.
Proof.
  intros o o'.
  assert (Hfirst : ModelObject.compute_bounding_box Sample.doubled_ramp
                   = mkBoundingBoxf3 (mkVec3d 0 0 0) (mkVec3d 4 4 4) true).
  { geom_compute. rminmax. defined_cases. apply box_eq; lra. }
  assert (Hnext : ModelObject.compute_bounding_box o'
                  = mkBoundingBoxf3 (mkVec3d 2 0 0) (mkVec3d 6 4 4) true).
  { subst o o'. geom_compute. rminmax. defined_cases. apply box_eq; lra. }
  assert (Ho : o = ModelObject.with_bounding_box
                     (mkBoundingBoxf3 (mkVec3d 0 0 0) (mkVec3d 4 4 4) true) true
                     Sample.doubled_ramp).
  { subst o. rewrite bounding_box_recomputes by reflexivity. cbn [snd].
    now rewrite Hfirst. }
  assert (Hread : fst (ModelObject.bounding_box o')
                  = mkBoundingBoxf3 (mkVec3d 1 0 0) (mkVec3d 5 4 4) true).
  { subst o'. rewrite Ho. geom_unfold. apply box_eq; lra. }
  split; [now rewrite Ho|]. split; [now rewrite Ho, compute_with_bounding_box, Hfirst|].
  split; [now rewrite Ho|]. split; [subst o'; now rewrite Ho|].
  split; [exact Hread|]. split; [exact Hnext|].
  rewrite Hread, Hnext. intros Heq.
  apply (f_equal (fun bb => vx (bb_min bb))) in Heq. cbn [vx bb_min] in Heq. lra.
Qed.


(** ** The identity registry *)

Section Identity.
Context `{MeshAlgorithms}.

Lemma wrap_size_t_small z : 0 <= z <= SIZE_MAX -> wrap_size_t z = z.
Proof.
  unfold SIZE_MAX, wrap_size_t. intros Hz. apply Z.mod_small. lia.
Qed.

Lemma generate_new_id_fresh s :
  0 <= s -> s + 1 <= SIZE_MAX -> generate_new_id s = (s + 1, s + 1).
Proof. intros. unfold generate_new_id. now rewrite wrap_size_t_small by lia. Qed.

(** Removing entities and adding entities with the next [k] IDs keeps a
    list of IDs valid. *)
Lemma valid_list_extend ids ids' s k :
  valid_list ids s -> 0 <= s -> 0 <= k ->
  ids' ⊆+ ids ++ seqZ (s + 1) k ->
  valid_list ids' (s + k).
Proof.
  intros [Hnd Hall] Hs Hk Hsub.
  assert (Hbig : valid_list (ids ++ seqZ (s + 1) k) (s + k)).
  { split.
    - apply NoDup_app. split; [exact Hnd|]. split; [|apply NoDup_seqZ].
      intros x Hx Hx'. apply elem_of_seqZ in Hx'.
      rewrite Forall_forall in Hall. specialize (Hall x Hx). lia.
    - apply Forall_app. split.
      + eapply Forall_impl; [exact Hall|]. cbn. intros; lia.
      + apply Forall_forall. intros x Hx. apply elem_of_seqZ in Hx. lia. }
  destruct Hbig as [Hnd' Hall']. split.
  - destruct (submseteq_Permutation _ _ Hsub) as [rest Hperm].
    rewrite Hperm in Hnd'. apply NoDup_app in Hnd'. tauto.
  - apply Forall_forall. intros x Hx. rewrite Forall_forall in Hall'.
    apply Hall'. eapply elem_of_submseteq; eauto.
Qed.


Lemma seqZ_one s : seqZ s 1 = [s].
Proof. reflexivity. Qed.

Lemma seqZ_zero s : seqZ s 0 = [].
Proof. reflexivity. Qed.

Lemma seqZ_succ s (k : nat) :
  seqZ s (Z.of_nat (S k)) = s :: seqZ (s + 1) (Z.of_nat k).
Proof.
  rewrite seqZ_cons by lia. f_equal. f_equal; lia.
Qed.

(** *** Object level *)

Lemma object_ids_unfold o :
  Model.object_ids o = mo_id o :: map mv_id (volumes o) ++ map mi_id (instances o).
Proof. reflexivity. Qed.

Lemma map_id_preserved {A} (id : A -> Z) (f : A -> A) l :
  (forall a, id (f a) = id a) -> map id (map f l) = map id l.
Proof. intros Hf. rewrite map_map. apply map_ext. exact Hf. Qed.

Lemma translate_ids d o : Model.object_ids (ModelObject.translate d o) = Model.object_ids o.
Proof.
  unfold ModelObject.translate. cbn [m_bounding_box_valid ModelObject.with_volumes].
  destruct (m_bounding_box_valid o); rewrite !object_ids_unfold; cbn;
    now rewrite map_id_preserved.
Qed.

Lemma center_around_origin_ids o :
  Model.object_ids (ModelObject.center_around_origin o) = Model.object_ids o.
Proof.
  unfold ModelObject.center_around_origin.
  set (shift := vneg _). rewrite <- (translate_ids shift o).
  reflexivity.
Qed.

Lemma update_back_instance_ids f o :
  (forall i, mi_id (f i) = mi_id i) ->
  Model.object_ids (ModelObject.update_back_instance f o) = Model.object_ids o.
Proof.
  intros Hf. unfold ModelObject.update_back_instance.
  destruct (reverse (instances o)) as [|i rest] eqn:E; [reflexivity|].
  rewrite !object_ids_unfold. cbn. do 2 f_equal.
  apply (f_equal reverse) in E. rewrite reverse_involutive, reverse_cons in E.
  rewrite E, !map_app. cbn. now rewrite Hf.
Qed.

Lemma update_back_volume_ids f o :
  (forall v, mv_id (f v) = mv_id v) ->
  Model.object_ids (ModelObject.update_back_volume f o) = Model.object_ids o.
Proof.
  intros Hf. unfold ModelObject.update_back_volume.
  destruct (reverse (volumes o)) as [|v rest] eqn:E; [reflexivity|].
  rewrite !object_ids_unfold. cbn. f_equal. f_equal.
  apply (f_equal reverse) in E. rewrite reverse_involutive, reverse_cons in E.
  rewrite E, !map_app. cbn. now rewrite Hf.
Qed.

(** An ID appended to the volumes, or to the instances, is an ID appended
    to the object's. *)
Lemma ids_snoc_volume a (V I : list Z) x :
  a :: (V ++ [x]) ++ I ≡ₚ (a :: V ++ I) ++ [x].
Proof.
  cbn. constructor. rewrite <- !app_assoc. apply Permutation_app_head.
  cbn. apply Permutation_cons_append.
Qed.

Lemma ids_snoc_instance a (V I : list Z) x :
  a :: V ++ (I ++ [x]) = (a :: V ++ I) ++ [x].
Proof. cbn. now rewrite app_assoc. Qed.

Lemma map_sublist {A} (f : A -> Z) l1 l2 :
  l1 `sublist_of` l2 -> map f l1 ⊆+ map f l2.
Proof.
  intros Hs. apply sublist_submseteq. change (f <$> l1 `sublist_of` f <$> l2).
  now apply fmap_sublist.
Qed.

Lemma apply_op_ids op o c s o' s' :
  constructs_fresh (MOnObject 0 op) -> 0 <= s ->
  s + Z.of_nat (allocations_object op o) <= SIZE_MAX ->
  apply_op op o = Some c -> c s = (o', s') ->
  s' = s + Z.of_nat (allocations_object op o) /\
  Model.object_ids o'
  ⊆+ Model.object_ids o ++ seqZ (s + 1) (Z.of_nat (allocations_object op o)).
Proof.
  intros Hfresh Hs Hroom Hop Hc.
  destruct op; cbn [apply_op allocations_object] in *; try contradiction.
  - (* add_volume *)
    injection Hop as <-.
    unfold ModelObject.add_volume, ModelVolume.new_from_mesh, bind, ret in Hc.
    rewrite generate_new_id_fresh in Hc by lia. injection Hc as <- <-.
    split; [lia|]. rewrite seqZ_one, !object_ids_unfold. cbn.
    rewrite map_app. cbn. now rewrite ids_snoc_volume.
  - (* delete_volume *)
    unfold ModelObject.delete_volume in Hop.
    destruct (volumes o !! idx) as [w|] eqn:Ew; [|discriminate].
    injection Hop as <-.
    pose proof (sublist_delete (volumes o) idx) as Hsub.
    destruct (delete idx (volumes o)) as [|v [|v' vs]] eqn:Ed.
    + unfold ret in Hc. injection Hc as <- <-. split; [lia|].
      rewrite seqZ_zero, app_nil_r, !object_ids_unfold. cbn.
      apply submseteq_skip, submseteq_inserts_l. reflexivity.
    + unfold bind, ret, ModelVolume.set_new_unique_id, bind, ret in Hc.
      rewrite generate_new_id_fresh in Hc by lia. injection Hc as <- <-.
      split; [lia|]. rewrite seqZ_one, !object_ids_unfold. cbn.
      rewrite map_id_preserved by reflexivity.
      apply submseteq_skip.
      rewrite (Permutation_app_comm _ [s + 1]). cbn.
      apply submseteq_skip, submseteq_inserts_l. reflexivity.
    + unfold ret in Hc. injection Hc as <- <-. split; [lia|].
      rewrite seqZ_zero, app_nil_r, !object_ids_unfold.
      cbn [mo_id volumes instances ModelObject.invalidate_bounding_box
           ModelObject.with_bounding_box ModelObject.with_volumes].
      apply submseteq_skip, submseteq_skips_r. now apply map_sublist.
  - (* clear_volumes *)
    injection Hop as <-. unfold ret in Hc. injection Hc as <- <-. split; [lia|].
    rewrite seqZ_zero, app_nil_r, !object_ids_unfold. cbn.
    apply submseteq_skip, submseteq_inserts_l. reflexivity.
  - (* add_instance *)
    injection Hop as <-.
    unfold ModelObject.add_instance, ModelInstance.new_default, bind, ret in Hc.
    rewrite generate_new_id_fresh in Hc by lia. injection Hc as <- <-.
    split; [lia|]. rewrite seqZ_one, !object_ids_unfold. cbn.
    rewrite map_app. cbn. now rewrite app_assoc.
  - (* add_instance(offset, scaling_factor, rotation) *)
    injection Hop as <-.
    unfold ModelObject.add_instance_at, ModelObject.add_instance,
      ModelInstance.new_default, bind, ret in Hc.
    rewrite generate_new_id_fresh in Hc by lia. injection Hc as <- <-.
    split; [lia|]. rewrite seqZ_one.
    rewrite update_back_instance_ids by reflexivity.
    rewrite !object_ids_unfold. cbn. rewrite map_app. cbn. now rewrite app_assoc.
  - (* delete_instance *)
    unfold ModelObject.delete_instance in Hop.
    destruct (instances o !! idx); [|discriminate].
    injection Hop as <-. unfold ret in Hc. injection Hc as <- <-. split; [lia|].
    rewrite seqZ_zero, app_nil_r, !object_ids_unfold. cbn.
    apply submseteq_skip, submseteq_skips_l, map_sublist, sublist_delete.
  - (* delete_last_instance *)
    unfold ModelObject.delete_last_instance, ModelObject.delete_instance in Hop.
    destruct (instances o) as [|i l] eqn:Ei; [discriminate|].
    destruct ((i :: l) !! _); [|discriminate].
    injection Hop as <-. unfold ret in Hc. injection Hc as <- <-. split; [lia|].
    rewrite seqZ_zero, app_nil_r, !object_ids_unfold. cbn [mo_id volumes instances
      ModelObject.invalidate_bounding_box ModelObject.with_bounding_box
      ModelObject.with_instances]. rewrite Ei.
    apply submseteq_skip, submseteq_skips_l, map_sublist, sublist_delete.
  - (* clear_instances *)
    injection Hop as <-. unfold ret in Hc. injection Hc as <- <-. split; [lia|].
    rewrite seqZ_zero, app_nil_r, !object_ids_unfold. cbn. rewrite app_nil_r.
    apply submseteq_skip, submseteq_inserts_r. reflexivity.
  - (* translate_instance *)
    unfold ModelObject.translate_instance in Hop.
    destruct (instances o !! instance_idx) as [i|] eqn:Ei; [|discriminate].
    injection Hop as <-. unfold ret in Hc. injection Hc as <- <-. split; [lia|].
    rewrite seqZ_zero, app_nil_r, !object_ids_unfold. cbn.
    change (map mi_id (<[instance_idx:=?x]> ?l)) with (mi_id <$> <[instance_idx:=x]> l).
    rewrite list_fmap_insert. cbn.
    rewrite list_insert_id; [reflexivity|].
    rewrite list_lookup_fmap, Ei. reflexivity.
  - (* scale *)
    injection Hop as <-. unfold ret in Hc. injection Hc as <- <-. split; [lia|].
    rewrite seqZ_zero, app_nil_r, !object_ids_unfold. cbn.
    now rewrite map_id_preserved.
  - (* rotate(angle, Axis) *)
    injection Hop as <-. unfold ret in Hc. injection Hc as <- <-. split; [lia|].
    rewrite seqZ_zero, app_nil_r. unfold ModelObject.rotate_axis.
    change (Model.object_ids (ModelObject.invalidate_bounding_box ?x))
      with (Model.object_ids x).
    rewrite center_around_origin_ids, !object_ids_unfold. cbn.
    rewrite map_id_preserved; [reflexivity|]. intros v. now destruct axis.
  - (* rotate(angle, Vec3d) *)
    injection Hop as <-. unfold ret in Hc. injection Hc as <- <-. split; [lia|].
    rewrite seqZ_zero, app_nil_r. unfold ModelObject.rotate.
    change (Model.object_ids (ModelObject.invalidate_bounding_box ?x))
      with (Model.object_ids x).
    rewrite center_around_origin_ids, !object_ids_unfold. cbn.
    now rewrite map_id_preserved.
  - (* mirror *)
    injection Hop as <-. unfold ret in Hc. injection Hc as <- <-. split; [lia|].
    rewrite seqZ_zero, app_nil_r, !object_ids_unfold. cbn.
    now rewrite map_id_preserved.
Qed.


(** *** Model level *)

Lemma all_ids_unfold m :
  Model.all_ids m
  = model_id m :: concat (map Model.object_ids (objects m))
      ++ map (fun km => mm_id (snd km)) (map_to_list (materials m)).
Proof. reflexivity. Qed.

Lemma mapM_volume_ids l : forall s,
  0 <= s -> s + Z.of_nat (length l) <= SIZE_MAX ->
  exists l', mapM ModelVolume.set_new_unique_id l s = (l', s + Z.of_nat (length l)) /\
             map mv_id l' = seqZ (s + 1) (Z.of_nat (length l)).
Proof.
  induction l as [|v l IH]; intros s Hs Hroom.
  - exists []. cbn. unfold ret. split; [f_equal; lia | reflexivity].
  - cbn [mapM length] in *. unfold bind at 1.
    unfold ModelVolume.set_new_unique_id at 1, bind at 1, ret at 1.
    rewrite generate_new_id_fresh by lia.
    destruct (IH (s + 1)) as (l' & Hl' & Hids); [lia|lia|].
    unfold bind. rewrite Hl'. unfold ret.
    eexists. split; [f_equal; lia|].
    cbn [map mv_id ModelVolume.with_id]. rewrite Hids, seqZ_succ. reflexivity.
Qed.

Lemma mapM_instance_ids l : forall s,
  0 <= s -> s + Z.of_nat (length l) <= SIZE_MAX ->
  exists l', mapM ModelInstance.set_new_unique_id l s
             = (l', s + Z.of_nat (length l)) /\
             map mi_id l' = seqZ (s + 1) (Z.of_nat (length l)).
Proof.
  induction l as [|v l IH]; intros s Hs Hroom.
  - exists []. cbn. unfold ret. split; [f_equal; lia | reflexivity].
  - cbn [mapM length] in *. unfold bind at 1.
    unfold ModelInstance.set_new_unique_id at 1, bind at 1, ret at 1.
    rewrite generate_new_id_fresh by lia.
    destruct (IH (s + 1)) as (l' & Hl' & Hids); [lia|lia|].
    unfold bind. rewrite Hl'. unfold ret.
    eexists. split; [f_equal; lia|].
    cbn [map mi_id ModelInstance.with_id]. rewrite Hids, seqZ_succ. reflexivity.
Qed.

(** A clone gets the next IDs: its own, then those of its volumes, then
    those of its instances. *)
Lemma new_clone_ids other s :
  0 <= s ->
  s + Z.of_nat (1 + length (volumes other) + length (instances other)) <= SIZE_MAX ->
  exists o',
    ModelObject.new_clone other s
    = (o', s + Z.of_nat (1 + length (volumes other) + length (instances other))) /\
    Model.object_ids o'
    = seqZ (s + 1) (Z.of_nat (1 + length (volumes other) + length (instances other))).
Proof.
  intros Hs Hroom.
  unfold ModelObject.new_clone, ModelObject.assign_copy,
    ModelObject.assign_new_unique_ids_recursive.
  unfold bind at 1. rewrite generate_new_id_fresh by lia.
  destruct (mapM_volume_ids (volumes other) (s + 1)) as (vs & Hvs & Hvids); [lia|lia|].
  unfold bind at 1. rewrite Hvs.
  destruct (mapM_instance_ids (instances other)
              (s + 1 + Z.of_nat (length (volumes other))))
    as (insts & Hinsts & Hiids); [lia|lia|].
  unfold bind at 1. rewrite Hinsts. unfold ret.
  eexists. split; [f_equal; lia|].
  rewrite object_ids_unfold. cbn [mo_id volumes instances ModelObject.with_instances
    ModelObject.with_volumes ModelObject.with_id].
  rewrite Hvids, Hiids.
  replace (Z.of_nat (1 + length (volumes other) + length (instances other)))
    with (1 + (Z.of_nat (length (volumes other))
               + Z.of_nat (length (instances other)))) by lia.
  rewrite (seqZ_app (s + 1) 1) by lia. rewrite seqZ_one. cbn [app]. f_equal.
  rewrite seqZ_app by lia. f_equal. f_equal. lia.
Qed.

Lemma erase_first_with_id_sublist id os os' :
  Model.erase_first_with_id id os = Some os' -> os' `sublist_of` os.
Proof.
  revert os'. induction os as [|o os IH]; intros os' Hos; [discriminate|].
  cbn in Hos. destruct (mo_id o =? id).
  - injection Hos as <-. now apply sublist_cons.
  - destruct (Model.erase_first_with_id id os) as [r|]; [|discriminate].
    injection Hos as <-. apply sublist_skip. now apply IH.
Qed.

Lemma concat_ids_sublist os os' :
  os' `sublist_of` os ->
  concat (map Model.object_ids os') ⊆+ concat (map Model.object_ids os).
Proof.
  induction 1 as [|o l1 l2 _ IH|o l1 l2 _ IH]; cbn [map concat].
  - reflexivity.
  - now apply submseteq_skips_l.
  - now apply submseteq_inserts_l.
Qed.

(** Objects appended with the next IDs. *)
Lemma all_ids_snoc_object m o fresh :
  Model.object_ids o = fresh ->
  Model.all_ids (Model.with_objects (objects m ++ [o]) m) ≡ₚ Model.all_ids m ++ fresh.
Proof.
  intros <-. rewrite !all_ids_unfold. cbn [model_id objects materials Model.with_objects].
  rewrite map_app, concat_app. cbn [map concat]. rewrite app_nil_r.
  cbn. constructor. rewrite <- !app_assoc. apply Permutation_app_head.
  apply Permutation_app_comm.
Qed.

Lemma all_ids_objects_mono m os :
  concat (map Model.object_ids os) ⊆+ concat (map Model.object_ids (objects m)) ->
  Model.all_ids (Model.with_objects os m) ⊆+ Model.all_ids m.
Proof.
  intros Hsub. rewrite !all_ids_unfold. cbn [model_id objects materials Model.with_objects].
  apply submseteq_skip. now apply submseteq_skips_r.
Qed.

(** A method applied to [objects[idx]]. *)
Lemma all_ids_on_object m idx o o' fresh :
  objects m !! idx = Some o ->
  Model.object_ids o' ⊆+ Model.object_ids o ++ fresh ->
  Model.all_ids (Model.with_objects (<[idx := o']> (objects m)) m)
  ⊆+ Model.all_ids m ++ fresh.
Proof.
  intros Hidx Hsub. rewrite !all_ids_unfold.
  cbn [model_id objects materials Model.with_objects].
  rewrite insert_take_drop by (eapply lookup_lt_Some; eauto).
  rewrite <- (take_drop_middle (objects m) idx o Hidx) at 3.
  rewrite !map_app, !concat_app. cbn [map concat app].
  apply submseteq_skip.
  set (A := concat (map Model.object_ids (take idx (objects m)))).
  set (B := concat (map Model.object_ids (drop (S idx) (objects m)))).
  set (M := map _ (map_to_list (materials m))).
  rewrite <- !app_assoc.
  transitivity (A ++ (Model.object_ids o ++ fresh) ++ B ++ M).
  - apply submseteq_skips_l, submseteq_skips_r. exact Hsub.
  - apply Permutation_submseteq.
    rewrite <- !app_assoc. apply Permutation_app_head, Permutation_app_head.
    rewrite (Permutation_app_comm fresh (B ++ M)). now rewrite <- app_assoc.
Qed.

Lemma mapM_cons {A B} (f : A -> Alloc B) a l s :
  mapM f (a :: l) s
  = (fst (f a s) :: fst (mapM f l (snd (f a s))), snd (mapM f l (snd (f a s)))).
Proof.
  cbn [mapM]. unfold bind, ret. destruct (f a s) as [b s1]. cbn [fst snd].
  now destruct (mapM f l s1).
Qed.

Lemma add_instance_fresh o s :
  0 <= s -> s + 1 <= SIZE_MAX ->
  ModelObject.add_instance o s
  = (ModelObject.invalidate_bounding_box
       (ModelObject.with_instances
          (instances o ++ [mkModelInstance (s + 1) Transformation.identity PVS_Inside])
          o), s + 1).
Proof.
  intros Hs Hroom.
  unfold ModelObject.add_instance, ModelInstance.new_default, bind, ret.
  now rewrite generate_new_id_fresh by lia.
Qed.

Lemma add_default_instances_ids os : forall s,
  0 <= s ->
  s + Z.of_nat (length (filter (fun o => instances o = []) os)) <= SIZE_MAX ->
  exists os',
    mapM (fun o => match instances o with
                   | [] => ModelObject.add_instance o
                   | _ => ret o
                   end) os s
    = (os', s + Z.of_nat (length (filter (fun o => instances o = []) os))) /\
    concat (map Model.object_ids os')
    ⊆+ concat (map Model.object_ids os)
       ++ seqZ (s + 1) (Z.of_nat (length (filter (fun o => instances o = []) os))).
Proof.
  induction os as [|o os IH]; intros s Hs Hroom.
  - exists []. cbn. unfold ret. split; [f_equal; lia | reflexivity].
  - rewrite filter_cons in *. rewrite mapM_cons. cbv beta.
    destruct (instances o) as [|i l] eqn:Ei.
    + rewrite decide_True in * by reflexivity. cbn [length] in *.
      rewrite add_instance_fresh by lia. cbn [fst snd].
      destruct (IH (s + 1)) as (os' & Hos' & Hsub); [lia|lia|].
      rewrite Hos'. cbn [fst snd].
      eexists. split; [f_equal; lia|].
      cbn [map concat]. rewrite seqZ_succ.
      rewrite !object_ids_unfold. cbn [mo_id volumes instances
        ModelObject.invalidate_bounding_box ModelObject.with_bounding_box
        ModelObject.with_instances]. rewrite Ei. cbn [map app].
      apply submseteq_skip. rewrite <- !app_assoc. apply submseteq_skips_l.
      cbn [app].
      etransitivity; [apply submseteq_skip; exact Hsub|].
      apply Permutation_submseteq. apply Permutation_middle.
    + rewrite decide_False in * by discriminate.
      change (ret o s) with (o, s). cbn [fst snd].
      destruct (IH s) as (os' & Hos' & Hsub); [lia|lia|].
      rewrite Hos'. cbn [fst snd].
      eexists. split; [reflexivity|].
      cbn [map concat]. rewrite <- app_assoc. now apply submseteq_skips_l.
Qed.


Lemma material_ids_insert (mats : gmap string ModelMaterial) k mat :
  mats !! k = None ->
  map (fun km : string * ModelMaterial => mm_id (snd km)) (map_to_list (<[k := mat]> mats))
  ≡ₚ map (fun km : string * ModelMaterial => mm_id (snd km)) (map_to_list mats)
     ++ [mm_id mat].
Proof.
  intros Hk.
  change (map ?f ?l) with (f <$> l).
  rewrite (map_to_list_insert mats k mat Hk). cbn.
  apply Permutation_cons_append.
Qed.

Lemma material_ids_subseteq (mats mats' : gmap string ModelMaterial) :
  mats' ⊆ mats ->
  map (fun km : string * ModelMaterial => mm_id (snd km)) (map_to_list mats')
  ⊆+ map (fun km : string * ModelMaterial => mm_id (snd km)) (map_to_list mats).
Proof.
  intros Hsub. change (map ?f ?l) with (f <$> l).
  apply fmap_submseteq. now apply map_to_list_submseteq.
Qed.

Lemma all_ids_materials_mono m mats :
  mats ⊆ materials m ->
  Model.all_ids (Model.with_materials mats m) ⊆+ Model.all_ids m.
Proof.
  intros Hsub. rewrite !all_ids_unfold.
  cbn [model_id objects materials Model.with_materials].
  apply submseteq_skip, submseteq_skips_l. now apply material_ids_subseteq.
Qed.

(** What one mutation does to the IDs of the hierarchy: it drops some and
    adds the next [allocations op m] values of the counter. *)
Lemma apply_model_op_ids op m c s m' s' :
  constructs_fresh op -> 0 <= s ->
  s + Z.of_nat (allocations op m) <= SIZE_MAX ->
  apply_model_op op m = Some c -> c s = (m', s') ->
  s' = s + Z.of_nat (allocations op m) /\
  Model.all_ids m' ⊆+ Model.all_ids m ++ seqZ (s + 1) (Z.of_nat (allocations op m)).
Proof.
  intros Hfresh Hs Hroom Hop Hc.
  destruct op; cbn [apply_model_op allocations] in *.
  - (* add_object() *)
    injection Hop as <-.
    unfold Model.add_object, ModelObject.new_default, bind, ret in Hc.
    rewrite generate_new_id_fresh in Hc by lia. injection Hc as <- <-.
    split; [lia|]. apply Permutation_submseteq.
    now apply all_ids_snoc_object.
  - (* add_object(name, path, mesh) *)
    injection Hop as <-.
    unfold Model.add_object_mesh, ModelObject.new_default, ModelObject.add_volume,
      ModelVolume.new_from_mesh, bind, ret in Hc.
    rewrite generate_new_id_fresh in Hc by lia.
    rewrite generate_new_id_fresh in Hc by lia. injection Hc as <- <-.
    split; [lia|]. apply Permutation_submseteq.
    apply all_ids_snoc_object.
    change (Model.object_ids (ModelObject.invalidate_bounding_box ?x))
      with (Model.object_ids x).
    rewrite update_back_volume_ids by reflexivity.
    rewrite (seqZ_succ (s + 1) 1), (seqZ_succ (s + 1 + 1) 0). reflexivity.
  - (* add_object(other) *)
    injection Hop as <-.
    destruct (new_clone_ids other s Hs Hroom) as (o' & Ho' & Hids).
    unfold Model.add_object_other, bind, ret in Hc. rewrite Ho' in Hc.
    injection Hc as <- <-. split; [reflexivity|].
    apply Permutation_submseteq. now apply all_ids_snoc_object.
  - (* delete_object(idx) *)
    unfold Model.delete_object in Hop.
    destruct (objects m !! idx); [|discriminate]. injection Hop as <-.
    unfold ret in Hc. injection Hc as <- <-. split; [lia|].
    rewrite seqZ_zero, app_nil_r.
    apply all_ids_objects_mono, concat_ids_sublist, sublist_delete.
  - (* delete_object(id) *)
    injection Hop as <-. unfold ret in Hc. injection Hc as <- <-. split; [lia|].
    rewrite seqZ_zero, app_nil_r. unfold Model.delete_object_by_id.
    destruct (negb (id =? 0)); [|reflexivity].
    destruct (Model.erase_first_with_id id (objects m)) as [os|] eqn:E; [|reflexivity].
    cbn [snd]. apply all_ids_objects_mono, concat_ids_sublist.
    now apply erase_first_with_id_sublist with id.
  - (* clear_objects *)
    injection Hop as <-. unfold ret in Hc. injection Hc as <- <-. split; [lia|].
    rewrite seqZ_zero, app_nil_r.
    apply all_ids_objects_mono. apply submseteq_nil_l.
  - (* add_material(id) *)
    injection Hop as <-. unfold Model.add_material in Hc.
    destruct (Model.get_material material_id m) as [mat|] eqn:Eg.
    + unfold ret in Hc. injection Hc as <- <-. split; [lia|].
      now rewrite seqZ_zero, app_nil_r.
    + unfold Model.new_material, bind, ret in Hc.
      rewrite generate_new_id_fresh in Hc by lia. injection Hc as <- <-.
      split; [lia|]. rewrite seqZ_one. apply Permutation_submseteq.
      rewrite !all_ids_unfold. cbn [model_id objects materials Model.with_materials].
      rewrite material_ids_insert by exact Eg. cbn [mm_id].
      now rewrite !app_assoc.
  - (* delete_material *)
    injection Hop as <-. unfold ret in Hc. injection Hc as <- <-. split; [lia|].
    rewrite seqZ_zero, app_nil_r. apply all_ids_materials_mono, delete_subseteq.
  - (* clear_materials *)
    injection Hop as <-. unfold ret in Hc. injection Hc as <- <-. split; [lia|].
    rewrite seqZ_zero, app_nil_r. apply all_ids_materials_mono, map_empty_subseteq.
  - (* add_default_instances *)
    injection Hop as <-.
    destruct (add_default_instances_ids (objects m) s Hs Hroom) as (os' & Hos' & Hsub).
    unfold Model.add_default_instances, bind in Hc. rewrite Hos' in Hc.
    unfold ret in Hc.
    injection Hc as <- <-. split; [reflexivity|].
    rewrite !all_ids_unfold. cbn [model_id objects materials Model.with_objects].
    cbn [app]. apply submseteq_skip.
    etransitivity; [exact (submseteq_skips_r _ _ _ Hsub)|].
    apply Permutation_submseteq. rewrite <- !app_assoc.
    apply Permutation_app_head, Permutation_app_comm.
  - (* a method of objects[idx] *)
    unfold Model.on_object in Hop.
    destruct (objects m !! idx) as [o|] eqn:Eo; [|discriminate].
    destruct (apply_op op o) as [co|] eqn:Eop; [|discriminate].
    injection Hop as <-. unfold bind, ret in Hc.
    destruct (co s) as [o' s1] eqn:Eco. injection Hc as <- <-.
    destruct (apply_op_ids op o co s o' s1) as [-> Hsub]; auto.
    split; [reflexivity|]. now apply all_ids_on_object with o.
  - (* translate of objects[idx] *)
    unfold Model.on_object in Hop.
    destruct (objects m !! idx) as [o|] eqn:Eo; [|discriminate].
    injection Hop as <-. unfold bind, ret in Hc. injection Hc as <- <-.
    split; [lia|]. apply all_ids_on_object with o; [exact Eo|].
    rewrite translate_ids, seqZ_zero, app_nil_r. reflexivity.
Qed.

Lemma apply_model_op_valid op m c s m' s' :
  valid_ids m s -> constructs_fresh op -> 0 <= s ->
  s + Z.of_nat (allocations op m) <= SIZE_MAX ->
  apply_model_op op m = Some c -> c s = (m', s') ->
  valid_ids m' s' /\ s <= s'.
Proof.
  intros Hvalid Hfresh Hs Hroom Hop Hc.
  destruct (apply_model_op_ids op m c s m' s' Hfresh Hs Hroom Hop Hc) as [-> Hsub].
  split; [|lia].
  apply (valid_list_extend (Model.all_ids m)); auto. lia.
Qed.

(** The assertions of [check_model_ids_validity]. *)
Lemma check_fold ids : forall seen ok,
  snd (fold_left Model.check ids (seen, ok)) = true <->
  ok = true /\ Forall (fun id => 0 < id) ids /\ NoDup ids /\
  (forall id, id ∈ ids -> id ∉ seen).
Proof.
  induction ids as [|id ids IH]; intros seen ok; cbn [fold_left].
  - cbn. split; [intros ->|tauto]. repeat split; [constructor|constructor|].
    intros id Hid. now apply elem_of_nil in Hid.
  - unfold Model.check at 2. cbn [fst snd]. rewrite IH.
    rewrite !andb_true_iff, !bool_decide_eq_true, Forall_cons, NoDup_cons.
    split.
    + intros (((Hok & Hpos) & Hnew) & Hall & Hnd & Hdisj).
      repeat split; auto.
      * intros Hin. apply (Hdisj id Hin).
        apply elem_of_union. left. now apply elem_of_singleton.
      * intros x Hx. apply elem_of_cons in Hx as [->|Hx]; [exact Hnew|].
        intros Hseen. apply (Hdisj x Hx). apply elem_of_union. now right.
    + intros (Hok & (Hpos & Hall) & (Hnin & Hnd) & Hdisj).
      repeat split; auto.
      * apply Hdisj. now left.
      * intros x Hx Hseen. apply elem_of_union in Hseen as [Hx'|Hx'].
        -- apply elem_of_singleton in Hx'. subst x. contradiction.
        -- apply (Hdisj x); [now right | exact Hx'].
Qed.

Lemma check_model_ids_validity_spec m :
  Model.check_model_ids_validity m = true <->
  Forall (fun id => 0 < id) (Model.checked_ids m) /\ NoDup (Model.checked_ids m).
Proof.
  unfold Model.check_model_ids_validity. rewrite check_fold.
  split; [tauto|]. intros [? ?]. repeat split; auto. intros id _.
  apply not_elem_of_empty.
Qed.

Lemma valid_ids_checked m s :
  valid_ids m s -> Model.check_model_ids_validity m = true.
Proof.
  intros [Hnd Hall]. apply check_model_ids_validity_spec.
  unfold Model.all_ids in *. apply NoDup_cons in Hnd as [_ Hnd].
  apply Forall_cons in Hall as [_ Hall]. split; [|exact Hnd].
  eapply Forall_impl; [exact Hall|]. cbn. intros; lia.
Qed.

End Identity.

Section RunFacts.
Context `{MeshAlgorithms}.
Lemma run_model_valid ops : forall m s trace,
  valid_ids m s -> 0 <= s ->
  Forall constructs_fresh ops ->
  within_counter ops m s ->
  run_model ops m s = Some trace ->
  Forall (fun st => valid_ids (fst st) (snd st)) trace /\
  Sorted Z.le (s :: map snd trace).
Proof.
  induction ops as [|op ops IH]; intros m s trace Hvalid Hs Hfresh Hroom Hrun.
  - injection Hrun as <-. split; constructor; constructor.
  - cbn [run_model within_counter] in *.
    inversion Hfresh as [|? ? Hop Hops]; subst.
    destruct Hroom as [Hroom Hrest].
    destruct (apply_model_op op m) as [c|] eqn:Eop; [|discriminate].
    destruct (c s) as [m' s'] eqn:Ec.
    destruct (run_model ops m' s') as [trace'|] eqn:Erun; [|discriminate].
    injection Hrun as <-.
    destruct (apply_model_op_valid op m c s m' s' Hvalid Hop Hs Hroom Eop Ec)
      as [Hvalid' Hle].
    destruct (IH m' s' trace' Hvalid' ltac:(lia) Hops Hrest Erun) as [Hall Hsorted].
    split.
    + constructor; [exact Hvalid' | exact Hall].
    + cbn [map snd]. constructor; [exact Hsorted|]. constructor. exact Hle.
Qed.
End RunFacts.

(** C3 (as the code has it): along every sequence of mutations of one
    model whose new entities come from an ID-assigning constructor
    ([add_object], [add_object] of a mesh, [add_object(other)] through
    [new_clone], [add_volume(mesh)], the [add_instance] overloads that
    build a new instance, [add_material(id)], [add_default_instances], the
    deletions and clearings, and the geometric methods), and as long as
    [s_last_id] does not wrap, the IDs of the model, its objects, volumes,
    instances and materials stay pairwise distinct, positive and at most
    [s_last_id] after every mutation, [check_model_ids_validity] passes,
    and the counter never decreases.  [assign_copy] keeps the IDs of its
    source instead of allocating. *)
Theorem C3_ids_stay_unique `{MeshAlgorithms} (ops : list ModelOp) (m : Model)
  (s_last_id : Z) (trace : list (Model * Z)) :
  valid_ids m s_last_id ->
  Forall constructs_fresh ops ->
  within_counter ops m s_last_id ->
  run_model ops m s_last_id = Some trace ->
  Forall (fun st => valid_ids (fst st) (snd st) /\
                    Model.check_model_ids_validity (fst st) = true) trace /\
  Sorted Z.le (s_last_id :: map snd trace) /\
  (forall rhs, Model.all_ids (Model.assign_copy rhs m) = Model.all_ids rhs).
Proof.
  intros Hvalid Hfresh Hroom Hrun.
  assert (Hs : 0 <= s_last_id).
  { destruct Hvalid as [_ Hall]. unfold Model.all_ids in Hall.
    apply Forall_cons in Hall as [Hid _]. lia. }
  destruct (run_model_valid ops m s_last_id trace Hvalid Hs Hfresh Hroom Hrun)
    as [Hall Hsorted].
  split; [|split; [exact Hsorted|]].
  - eapply Forall_impl; [exact Hall|]. cbn. intros st Hst.
    split; [exact Hst|]. now apply valid_ids_checked with (snd st).
  - intros rhs. unfold Model.assign_copy, ModelObject.new_copy.
    rewrite !all_ids_unfold. cbn [model_id objects materials].
    now rewrite map_id.
Qed.

(** C3 along [sample_ops], from a new model. *)
Lemma C3_ids_stay_unique_witness :
  exists trace,
    run_model (H := Sample.algorithms) sample_ops (mkModel 1 ∅ []) 1 = Some trace /\
    Forall (fun st => valid_ids (fst st) (snd st) /\
                      Model.check_model_ids_validity (fst st) = true) trace.
Proof.
  eexists. split; [vm_compute; reflexivity|].
  refine (proj1 (C3_ids_stay_unique (H := Sample.algorithms) sample_ops
                   (mkModel 1 ∅ []) 1 _ _ _ _ _)).
  - unfold valid_ids. change (Model.all_ids (mkModel 1 ∅ [])) with [1].
    split; [apply NoDup_singleton | repeat constructor; lia].
  - repeat constructor.
  - vm_compute. intuition discriminate.
  - vm_compute. reflexivity.
Defined.


(** The claim as stated fails: [add_material(id, other)] copies the
    material with its ID, so a material copied inside its own model shares
    the ID of its source, and [check_model_ids_validity] fails. *)
Lemma C3_copied_material_shares_its_id :
  Model.check_model_ids_validity (fst copied_material) = true /\
  Model.checked_ids (snd copied_material) = [2; 2] /\
  Model.check_model_ids_validity (snd copied_material) = false.
Proof. vm_compute. auto. Qed.

(** ** Cutting an object *)

(** Run the first computation of a [bind] and name its result. *)
Ltac step_alloc_in E a s EA :=
  unfold bind at 1 in E;
  lazymatch type of E with
  | context [match ?c with pair _ _ => _ end] => destruct c as [a s] eqn:EA
  end.

Section CutFacts.
Context `{MeshAlgorithms}.

Lemma appended_nil side inst z : appended side inst z [] [].
Proof. repeat split. constructor. Qed.

































End CutFacts.


(** [cut] writes the volumes of [this], their meshes and transforms, and
    leaves the cache of [this] as it is. *)
Lemma cut_keeps_the_cache_of_this `{MeshAlgorithms} (instance : nat) (z : R)
  (keep_upper keep_lower rotate_lower : bool) (this : ModelObject)
  (s_last_id : Z) res this' :
  fst (ModelObject.cut instance z keep_upper keep_lower rotate_lower this
         s_last_id) = Some (res, this') ->
  m_bounding_box_valid this' = m_bounding_box_valid this /\
  m_bounding_box this' = m_bounding_box this.
Proof.
  destruct (ModelObject.cut _ _ _ _ _ _ _) as [r s'] eqn:E. cbn [fst].
  intros ->. unfold ModelObject.cut in E.
  destruct (negb keep_upper && negb keep_lower).
  - unfold ret in E. injection E as _ <- _. split; reflexivity.
  - step_alloc_in E upper0 s1 EA. step_alloc_in E lower0 s2 EB.
    cbv zeta in E. destruct (instances this !! instance); [|discriminate].
    step_alloc_in E r s3 ER. unfold ret in E.
    destruct (ModelObject.cs_defined r.1); [|discriminate].
    injection E as _ <- _. split; reflexivity.
Qed.







(** ** Deleting the second-to-last volume *)

Section RecentreFacts.
Open Scope R_scope.

Lemma transform_point_compose a b p :
  transform_point (compose a b) p = transform_point a (transform_point b p).
Proof.
  destruct a as [[a1 a2 a3] [b1 b2 b3] [c1 c2 c3] [t1 t2 t3]].
  destruct b as [[a1' a2' a3'] [b1' b2' b3'] [c1' c2' c3'] [t1' t2' t3']].
  destruct p as [x y z].
  unfold compose, row_times, transform_point, linear_apply, dot, col, vadd.
  cbn [vx vy vz row0 row1 row2 translation coord]. f_equal; ring.
Qed.

Lemma translation_compose_zero a b :
  translation a = Vec3d_Zero -> translation b = Vec3d_Zero ->
  translation (compose a b) = Vec3d_Zero.
Proof.
  destruct a as [[a1 a2 a3] [b1 b2 b3] [c1 c2 c3] ta], b as [r0 r1 r2 tb].
  cbn [translation]. intros -> ->.
  unfold compose, transform_point, linear_apply, dot, vadd, Vec3d_Zero.
  cbn [vx vy vz row0 row1 row2 translation]. f_equal; ring.
Qed.

Lemma rotation_transform_translation a angle :
  translation (rotation_transform a angle) = Vec3d_Zero.
Proof. now destruct a. Qed.

(** The linear part of a placement: [get_matrix(true)]. *)
Lemma assemble_transform_linear_translation r s m :
  translation (assemble_transform Vec3d_Zero r s m) = Vec3d_Zero.
Proof.
  unfold assemble_transform.
  repeat (apply translation_compose_zero;
          [first [apply rotation_transform_translation | reflexivity]|]).
  reflexivity.
Qed.

Lemma assemble_transform_split t r s m p :
  transform_point (assemble_transform t r s m) p
  = vadd (transform_point (assemble_transform Vec3d_Zero r s m) p) t.
Proof.
  unfold assemble_transform. rewrite !(transform_point_compose (translation_transform _)).
  generalize (transform_point
       (compose (rotation_transform Z_axis (vz r))
          (compose (rotation_transform Y (vy r))
             (compose (rotation_transform X (vx r))
                (scaling_transform (cwiseProduct s m))))) p).
  intros [x y z]. destruct t as [t1 t2 t3].
  unfold transform_point, translation_transform, linear_apply, dot, vadd, Vec3d_Zero.
  cbn [vx vy vz row0 row1 row2 translation]. f_equal; ring.
Qed.

Lemma transform_point_linear a p q :
  translation a = Vec3d_Zero ->
  transform_point a (vadd p q) = vadd (transform_point a p) (transform_point a q).
Proof.
  destruct a as [[a1 a2 a3] [b1 b2 b3] [c1 c2 c3] ta]. cbn [translation]. intros ->.
  destruct p as [x y z], q as [x1 y1 z1].
  unfold transform_point, linear_apply, dot, vadd, Vec3d_Zero.
  cbn [vx vy vz row0 row1 row2 translation]. f_equal; ring.
Qed.

Lemma Rmin_plus a b d : Rmin (a + d) (b + d) = Rmin a b + d.
Proof. unfold Rmin. destruct (Rle_dec (a + d) (b + d)), (Rle_dec a b); lra. Qed.
Lemma Rmax_plus a b d : Rmax (a + d) (b + d) = Rmax a b + d.
Proof. unfold Rmax. destruct (Rle_dec (a + d) (b + d)), (Rle_dec a b); lra. Qed.

Lemma bb_merge_point_translate d bb p :
  bb_merge_point (bb_translate d bb) (vadd p d)
  = bb_translate d (bb_merge_point bb p).
Proof.
  unfold bb_merge_point, bb_translate. cbn [defined bb_min bb_max].
  destruct (defined bb); [|reflexivity].
  unfold cwiseMin, cwiseMax, vadd. cbn [vx vy vz].
  now rewrite !Rmin_plus, !Rmax_plus.
Qed.

Lemma bb_of_points_translate_from d ps : forall bb,
  fold_left bb_merge_point (map (fun p => vadd p d) ps) (bb_translate d bb)
  = bb_translate d (fold_left bb_merge_point ps bb).
Proof.
  induction ps as [|p ps IH]; intros bb; [reflexivity|].
  cbn [map fold_left]. now rewrite bb_merge_point_translate, IH.
Qed.

Lemma mesh_vertices_translate d m :
  mesh_vertices (mesh_translate d m) = map (fun p => vadd p d) (mesh_vertices m).
Proof.
  unfold mesh_vertices, mesh_translate.
  induction m as [|f m IH]; [reflexivity|].
  cbn [map concat]. rewrite IH, map_app. reflexivity.
Qed.

(** Moving a mesh by minus the centre of its bounding box centres the box
    at the origin. *)
Lemma mesh_recentred m :
  let c := bb_center (mesh_bounding_box m) in
  bb_center (mesh_bounding_box (mesh_translate (vneg c) m)) = Vec3d_Zero.
Proof.
  intros c. unfold mesh_bounding_box. rewrite mesh_vertices_translate.
  unfold bb_of_points.
  destruct (mesh_vertices m) as [|p ps] eqn:E.
  - cbn. unfold bb_center, vdiv, vadd, Vec3d_Zero. cbn. f_equal; lra.
  - cbn [map fold_left].
    assert (H0 : bb_merge_point BoundingBoxf3_default (vadd p (vneg c))
                 = bb_translate (vneg c) (bb_merge_point BoundingBoxf3_default p)).
    { reflexivity. }
    rewrite H0, bb_of_points_translate_from.
    assert (Hc : c = bb_center (fold_left bb_merge_point ps
                                  (bb_merge_point BoundingBoxf3_default p))).
    { subst c. unfold mesh_bounding_box, bb_of_points. now rewrite E. }
    generalize dependent (fold_left bb_merge_point ps
                            (bb_merge_point BoundingBoxf3_default p)).
    intros bb ->. destruct bb as [[a1 a2 a3] [b1 b2 b3] df].
    unfold bb_center, bb_translate, vdiv, vadd, vneg, Vec3d_Zero.
    cbn [bb_min bb_max vx vy vz]. f_equal; lra.
Qed.

Lemma vadd_shuffle x y z : vadd x (vadd y z) = vadd (vadd x z) y.
Proof.
  destruct x as [x1 x2 x3], y as [y1 y2 y3], z as [z1 z2 z3].
  unfold vadd. cbn [vx vy vz]. f_equal; ring.
Qed.

(** The world position of a vertex is kept when the re-centred volume has
    no rotation, scale or mirror of its own. *)
Lemma recentred_vertex_in_place inst v p :
  m_rotation (mv_transformation v) = Vec3d_Zero ->
  m_scaling_factor (mv_transformation v) = Vec3d_Ones ->
  m_mirror (mv_transformation v) = Vec3d_Ones ->
  let c := bb_center (mesh_bounding_box (mesh v)) in
  let centred := ModelVolume.center_geometry v in
  let removed_offset := ModelVolume.get_offset centred in
  let v' := ModelVolume.set_offset Vec3d_Zero centred in
  let inst' :=
    ModelInstance.set_offset
      (vadd (ModelInstance.get_offset inst)
            (transform_point (ModelInstance.get_matrix true inst) removed_offset))
      inst in
  transform_point (compose (ModelInstance.get_matrix false inst')
                           (ModelVolume.get_matrix v')) (vadd p (vneg c))
  = transform_point (compose (ModelInstance.get_matrix false inst)
                             (ModelVolume.get_matrix v)) p.
Proof.
  intros Hr Hs Hm c centred removed_offset v' inst'.
  rewrite !transform_point_compose.
  unfold ModelInstance.get_matrix, Transformation.get_matrix,
    Transformation.get_matrix4.
  subst inst'. cbn [ModelInstance.set_offset ModelInstance.set_transformation
    mi_transformation Transformation.set_offset m_offset m_rotation
    m_scaling_factor m_mirror].
  rewrite (assemble_transform_split (vadd _ _)).
  rewrite (assemble_transform_split (m_offset (mi_transformation inst))).
  unfold ModelInstance.get_offset.
  set (Li := assemble_transform Vec3d_Zero (m_rotation (mi_transformation inst))
               (m_scaling_factor (mi_transformation inst))
               (m_mirror (mi_transformation inst))).
  rewrite vadd_shuffle.
  rewrite <- (transform_point_linear Li)
    by apply assemble_transform_linear_translation.
  f_equal. f_equal.
  subst v' removed_offset centred c.
  unfold ModelVolume.get_matrix, Transformation.get_matrix,
    Transformation.get_matrix4, ModelVolume.set_offset, ModelVolume.get_offset,
    ModelVolume.center_geometry, ModelVolume.translate, ModelVolume.set_offset,
    ModelVolume.get_offset, ModelVolume.set_transformation, ModelVolume.with_mesh.
  cbn [mv_transformation Transformation.set_offset m_offset m_rotation
       m_scaling_factor m_mirror mesh].
  rewrite Hr, Hs, Hm.
  pose proof (fun t => assemble_transform_no_rotation t Vec3d_Ones Vec3d_Ones) as Hd.
  change (mkVec3d 0 0 0) with Vec3d_Zero in Hd.
  rewrite !Hd, !transform_point_diagonal.
  destruct p as [x y z].
  destruct (bb_center (mesh_bounding_box (mesh v))) as [c1 c2 c3].
  destruct (m_offset (mv_transformation v)) as [o1 o2 o3].
  unfold vadd, vneg, Vec3d_Zero, Vec3d_Ones. cbn [vx vy vz]. f_equal; ring.
Qed.

(** What [delete_volume] does to an object with two volumes: the remaining
    volume [v] is re-centred, its offset zeroed, the removed offset folded
    into the instances through their linear part; the geometry stays in
    place if [v] has no rotation, scale or mirror of its own. *)
Lemma delete_volume_of_two (o : ModelObject) (v0 v1 : ModelVolume) (idx : nat)
  (s_last_id : Z) :
  volumes o = [v0; v1] -> (idx < 2)%nat ->
  let v := if decide (idx = 0%nat) then v1 else v0 in
  let c := bb_center (mesh_bounding_box (mesh v)) in
  let removed_offset := ModelVolume.get_offset (ModelVolume.center_geometry v) in
  exists k, ModelObject.delete_volume idx o = Some k /\
    let o' := fst (k s_last_id) in
    exists v',
      volumes o' = [v'] /\
      mesh v' = mesh_translate (vneg c) (mesh v) /\
      bb_center (mesh_bounding_box (mesh v')) = Vec3d_Zero /\
      ModelVolume.get_offset v' = Vec3d_Zero /\
      removed_offset = vadd (ModelVolume.get_offset v) (vneg (vneg c)) /\
      instances o'
      = map (fun inst =>
               ModelInstance.set_offset
                 (vadd (ModelInstance.get_offset inst)
                       (transform_point (ModelInstance.get_matrix true inst)
                                        removed_offset)) inst)
            (instances o) /\
      m_bounding_box_valid o' = false /\
      (m_rotation (mv_transformation v) = Vec3d_Zero ->
       m_scaling_factor (mv_transformation v) = Vec3d_Ones ->
       m_mirror (mv_transformation v) = Vec3d_Ones ->
       Forall2 (fun inst' inst => world_vertices inst' v' = world_vertices inst v)
               (instances o') (instances o)).
Proof.
  intros Hvols Hidx v c removed_offset.
  unfold ModelObject.delete_volume. rewrite Hvols.
  assert (Hcase : idx = 0%nat \/ idx = 1%nat) by lia.
  assert (Hdel : delete idx [v0; v1] = [v] /\ is_Some ([v0; v1] !! idx)).
  { subst v. destruct Hcase as [-> | ->]; cbn; eauto. }
  destruct Hdel as [Hdel [w Hw]]. rewrite Hw, Hdel.
  eexists. split; [reflexivity|].
  cbn [bind ret ModelVolume.set_new_unique_id generate_new_id fst].
  unfold bind, ModelVolume.set_new_unique_id, bind, generate_new_id, ret.
  cbn [fst].
  eexists. split; [reflexivity|].
  split; [reflexivity|]. split; [apply mesh_recentred|].
  split; [reflexivity|]. split; [reflexivity|]. split; [reflexivity|].
  split; [reflexivity|].
  intros Hr Hs Hm.
  cbn [instances ModelObject.invalidate_bounding_box ModelObject.with_bounding_box
       ModelObject.with_instances].
  induction (instances o) as [|inst insts IH]; cbn [map]; constructor; [|exact IH].
  unfold world_vertices.
  cbn [mesh ModelVolume.with_id ModelVolume.set_offset ModelVolume.set_transformation
       ModelVolume.center_geometry ModelVolume.translate ModelVolume.with_mesh].
  rewrite mesh_vertices_translate, map_map.
  apply map_ext. intros p.
  now apply (recentred_vertex_in_place inst v p).
Qed.
End RecentreFacts.


(** C6 (the code departs from the claim): [delete_volume] does re-centre
    the remaining volume, zero its offset and fold the removed offset into
    the instances, but that does not keep the geometry in place once the
    remaining volume has a rotation, scale or mirror of its own.
    [Sample.two_parts] holds two volumes, the second doubled by its own
    transform, under one instance at the origin.  Before
    [delete_volume(0)] the vertices of the second volume lie at (0,0,0),
    (4,0,0), (0,4,0) in the world; after it they lie at (-1,-1,0), (3,-1,0),
    (-1,3,0): [center_geometry] moves the mesh by [-c] in the volume's
    local frame, where lengths are doubled, and compensates by [+c]
    outside of it. *)
Theorem C6_delete_volume_moves_a_scaled_volume :
  world_vertices (Sample.placed 4 Transformation.identity)
                 (Sample.part 5 [Sample.triangle] Sample.doubling)
  = [mkVec3d 0 0 0; mkVec3d 4 0 0; mkVec3d 0 4 0] /\
  match ModelObject.delete_volume 0 Sample.two_parts with
  | None => False
  | Some c =>
      let o' := fst (c 5) in
      exists v' i',
        volumes o' = [v'] /\ instances o' = [i'] /\
        ModelVolume.get_offset v' = Vec3d_Zero /\
        bb_center (mesh_bounding_box (mesh v')) = Vec3d_Zero /\
        ModelInstance.get_offset i' = mkVec3d 1 1 0 /\
        world_vertices i' v'
        = [mkVec3d (-1) (-1) 0; mkVec3d 3 (-1) 0; mkVec3d (-1) 3 0]
  end.
Proof.
  split.
  - geom_compute. repeat f_equal; lra.
  - geom_unfold. eexists _, _. split; [reflexivity|]. split; [reflexivity|].
    split; [reflexivity|].
    geom_compute. rminmax. repeat split; repeat f_equal; lra.
Qed.

(** ** Supports of an empty point set *)

(** C7: no anchor point, no support.  With the default controller
    [generate] completes, the support mesh has no facet and every layer
    [slice] returns is empty, whatever the layer heights; with any
    controller the outcome is never an error (it can only be the stop the
    controller asked for). *)
Theorem C7_empty_point_set `{sla.SupportGeometry} (em : sla.EigenMesh3D)
  (cfg : sla.SupportConfig) :
  (exists tree,
     sla.generate [] em cfg sla.Controller_default = sla.Done tree /\
     facets_count (sla.merged_mesh tree) = 0%nat /\
     forall layerh init_layerh,
       Forall (fun layer => layer = []) (sla.slice layerh init_layerh tree)) /\
  (forall ctl, match sla.generate [] em cfg ctl with
               | sla.Failed _ => False
               | sla.Stopped =>
                   exists k, sla.stopcondition ctl k = true
               | sla.Done tree => facets_count (sla.merged_mesh tree) = 0%nat
               end).
Proof.
  split.
  - eexists. split; [reflexivity|]. split; [reflexivity|].
    intros layerh init_layerh. unfold sla.slice.
    apply Forall_forall. intros layer Hin.
    apply list_elem_of_fmap in Hin. destruct Hin as (h & -> & _).
    apply sla.cross_section_nil.
  - intros ctl. unfold sla.generate. cbn [forallb negb map].
    destruct (sla.stopcondition ctl 0) eqn:E0; [eauto|].
    destruct (sla.stopcondition ctl 1) eqn:E1; [eauto|].
    destruct (sla.stopcondition ctl 2) eqn:E2; [eauto|].
    destruct (sla.stopcondition ctl 3) eqn:E3; [eauto|].
    reflexivity.
Qed.


(* ================================================================== *)
(** * Part III.  Further properties of the code                        *)
(* ================================================================== *)

(** ** The type tag of a volume as text *)

(** X1: [type_to_string] and [type_from_string] are inverse to each other
    on the four type names: reading back what was written gives the type,
    no assertion fails, and a string is written back unchanged exactly when
    it is one of the four names.  The legacy strings 1 and 0 read as a
    parameter modifier and a model part. *)
Theorem X1_volume_type_round_trip :
  (forall t, ModelVolume.type_from_string (ModelVolume.type_to_string t) = t /\
             ModelVolume.type_from_string_assert (ModelVolume.type_to_string t)
             = true) /\
  (forall s, ModelVolume.type_to_string (ModelVolume.type_from_string s) = s <->
             In s ["ModelPart"; "ParameterModifier"; "SupportEnforcer";
                   "SupportBlocker"]%string) /\
  ModelVolume.type_from_string "1" = PARAMETER_MODIFIER /\
  ModelVolume.type_from_string "0" = MODEL_PART.
Proof.
  split; [intros []; split; reflexivity|].
  split; [|split; reflexivity].
  intros s. unfold ModelVolume.type_from_string. split.
  - destruct (String.eqb_spec s "1") as [->|_]; [discriminate|].
    destruct (String.eqb_spec s "ModelPart") as [->|_]; [cbn; auto|].
    destruct (String.eqb_spec s "ParameterModifier") as [->|_]; [cbn; auto|].
    destruct (String.eqb_spec s "SupportEnforcer") as [->|_]; [cbn; auto|].
    destruct (String.eqb_spec s "SupportBlocker") as [->|_]; [cbn; auto|].
    cbn. intros <-. auto.
  - cbn. intros [<-|[<-|[<-|[<-|[]]]]]; reflexivity.
Qed.

(** ** Comparing the volumes of one type *)

(** X2: [model_volume_list_changed] reports no change exactly when the
    volumes of the given type, taken in order and skipping every volume of
    another type, agree pairwise in ID and (up to [isApprox]) in matrix. *)
Theorem X2_model_volume_list_changed
  (isApprox : Transform3d -> Transform3d -> bool)
  (model_object_old model_object_new : ModelObject) (type : ModelVolumeType) :
  Model.model_volume_list_changed isApprox model_object_old model_object_new type
  = false <->
  Forall2 (same_volume isApprox)
          (of_type type (volumes model_object_old))
          (of_type type (volumes model_object_new)).
Proof.
  unfold Model.model_volume_list_changed.
  generalize (volumes model_object_new) as news.
  generalize (volumes model_object_old) as olds.
  intros olds. unfold of_type, same_volume.
  induction olds as [|mv_old olds IH]; intros news.
  - cbn [Model.volume_lists_differ]. rewrite filter_nil.
    induction news as [|mv_new news IHn]; cbn [existsb].
    + rewrite filter_nil. split; [constructor | reflexivity].
    + rewrite filter_cons. destruct (decide (m_type mv_new = type)) as [Ht|Ht].
      * rewrite bool_decide_eq_true_2 by exact Ht. cbn.
        split; [discriminate | intros Hf; inversion Hf].
      * rewrite bool_decide_eq_false_2 by exact Ht. cbn. exact IHn.
  - cbn [Model.volume_lists_differ]. rewrite filter_cons.
    destruct (decide (m_type mv_old = type)) as [Ht|Ht].
    + rewrite bool_decide_eq_true_2 by exact Ht. cbn [negb].
      induction news as [|mv_new news IHn].
      * rewrite filter_nil. split; [discriminate | intros Hf; inversion Hf].
      * rewrite filter_cons. destruct (decide (m_type mv_new = type)) as [Hn|Hn].
        -- rewrite bool_decide_eq_true_2 by exact Hn. cbn [negb].
           destruct (Z.eqb_spec (mv_id mv_old) (mv_id mv_new)) as [Hid|Hid];
             cbn [negb].
           ++ destruct (isApprox _ _) eqn:Happ; cbn [negb].
              ** rewrite IH. split.
                 --- intros Hrest. constructor; [split; assumption | exact Hrest].
                 --- intros Hf. now inversion Hf.
              ** split; [discriminate|]. intros Hf. inversion Hf as [|? ? ? ? [_ Hs] _].
                 congruence.
           ++ split; [discriminate|]. intros Hf. inversion Hf as [|? ? ? ? [Hs _] _].
              contradiction.
        -- rewrite bool_decide_eq_false_2 by exact Hn. cbn [negb]. exact IHn.
    + rewrite bool_decide_eq_false_2 by exact Ht. cbn [negb]. apply IH.
Qed.

(** ** Deleting an object by its ID *)

Lemma erase_first_with_id_spec id os :
  match Model.erase_first_with_id id os with
  | Some os' =>
      exists before o after,
        os = before ++ o :: after /\ mo_id o = id /\
        ~ In id (map mo_id before) /\ os' = before ++ after
  | None => ~ In id (map mo_id os)
  end.
Proof.
  induction os as [|o os IH]; cbn [Model.erase_first_with_id]; [intros []|].
  destruct (Z.eqb_spec (mo_id o) id) as [Hid|Hid].
  - exists [], o, os. repeat split; auto.
  - destruct (Model.erase_first_with_id id os) as [os'|]; cbn.
    + destruct IH as (before & o' & after & -> & Ho' & Hnot & ->).
      exists (o :: before), o', after. repeat split; auto.
      cbn. intros [?|?]; [contradiction | now apply Hnot].
    + intros [?|?]; [contradiction | now apply IH].
Qed.

(** X3: [delete_object(ModelID)] returns [true] exactly when the ID is not
    zero and some object carries it; it then removes the first such object
    and nothing else; otherwise the model is left as it is. *)
Theorem X3_delete_object_by_id `{MeshAlgorithms} (id : Z) (m : Model) :
  (fst (Model.delete_object_by_id id m) = true <->
   id <> 0 /\ In id (map mo_id (objects m))) /\
  (fst (Model.delete_object_by_id id m) = false ->
   snd (Model.delete_object_by_id id m) = m) /\
  (fst (Model.delete_object_by_id id m) = true ->
   exists before o after,
     objects m = before ++ o :: after /\ mo_id o = id /\
     ~ In id (map mo_id before) /\
     snd (Model.delete_object_by_id id m)
     = Model.with_objects (before ++ after) m).
Proof.
  unfold Model.delete_object_by_id.
  pose proof (erase_first_with_id_spec id (objects m)) as Herase.
  destruct (Z.eqb_spec id 0) as [Hz|Hz]; cbn [negb].
  - split; [split; [discriminate | intros [? _]; contradiction]|].
    split; [reflexivity | discriminate].
  - destruct (Model.erase_first_with_id id (objects m)) as [os'|]; cbn [fst snd].
    + destruct Herase as (before & o & after & Hos & Ho & Hnot & ->).
      split; [|split; [discriminate|]].
      * split; [intros _|reflexivity]. split; [exact Hz|].
        rewrite Hos, map_app, in_app_iff. right. left. exact Ho.
      * intros _. exists before, o, after. auto.
    + split; [split; [discriminate | intros [_ ?]; contradiction]|].
      split; [reflexivity | discriminate].
Qed.

(** ** Materials *)

(** X4: for a key that is not empty (the assertion of the source),
    [add_material(id)] makes [get_material(id)] succeed and leaves
    every other key and the objects alone; when the material is already
    there the model and the ID counter stay as they are, so a second call
    never allocates; [delete_material(id)] makes the lookup fail again and
    keeps the other keys. *)
Theorem X4_add_material (material_id : string) (m : Model) (s_last_id : Z) :
  material_id <> EmptyString ->
  let m1 := fst (Model.add_material material_id m s_last_id) in
  let s1 := snd (Model.add_material material_id m s_last_id) in
  is_Some (Model.get_material material_id m1) /\
  (forall other, other <> material_id ->
                 Model.get_material other m1 = Model.get_material other m) /\
  objects m1 = objects m /\
  (is_Some (Model.get_material material_id m) -> m1 = m /\ s1 = s_last_id) /\
  Model.add_material material_id m1 s1 = (m1, s1) /\
  Model.get_material material_id (Model.delete_material material_id m1) = None /\
  (forall other, other <> material_id ->
                 Model.get_material other (Model.delete_material material_id m1)
                 = Model.get_material other m).
Proof.
  intros _ m1 s1. subst m1 s1. unfold Model.add_material, Model.get_material.
  destruct (materials m !! material_id) as [material|] eqn:Hget.
  - cbn [ret fst snd]. rewrite Hget. cbn [ret].
    split; [eauto|]. split; [reflexivity|]. split; [reflexivity|].
    split; [auto|]. split; [reflexivity|].
    cbn [materials Model.with_materials Model.delete_material].
    split; [apply lookup_delete_eq|].
    intros other Hother. now apply lookup_delete_ne.
  - unfold Model.new_material, generate_new_id, bind, ret. cbn [fst snd].
    cbn [materials Model.with_materials Model.delete_material objects].
    rewrite lookup_insert_eq.
    split; [eauto|].
    split; [intros other Hother; now apply lookup_insert_ne|].
    split; [reflexivity|].
    split; [intros [? ?]; discriminate|]. split; [reflexivity|].
    split; [apply lookup_delete_eq|].
    intros other Hother. rewrite lookup_delete_ne by auto.
    now apply lookup_insert_ne.
Qed.

Lemma X4_add_material_witness :
  "resin"%string <> EmptyString /\
  is_Some (Model.get_material "resin"
             (fst (Model.add_material "resin" sample_model 4))) /\
  Model.get_material "resin"
    (Model.delete_material "resin"
       (fst (Model.add_material "resin" sample_model 4))) = None.
Proof.
  assert (Hkey : "resin"%string <> EmptyString) by discriminate.
  split; [exact Hkey|].
  pose proof (X4_add_material "resin" sample_model 4 Hkey) as Hadd.
  cbv zeta in Hadd. destruct Hadd as (Hget & _ & _ & _ & _ & Hdel & _).
  split; [exact Hget | exact Hdel].
Defined.

Section InstanceBoxes.
Context `{MeshAlgorithms}.

Lemma instance_bounding_box_loop front rest vols : forall bb,
  fold_left
    (fun bb v =>
       if ModelVolume.is_model_part v then
         match bb, (front :: rest) !! 0%nat with
         | Some bb, Some inst =>
             Some (bb_merge bb
                     (ModelInstance.transform_mesh_bounding_box inst
                        (mesh_transform (ModelVolume.get_matrix v) (mesh v)) true))
         | _, _ => None
         end
       else bb)
    vols (Some bb)
  = Some (merged_snug_box front vols bb).
Proof.
  unfold merged_snug_box.
  induction vols as [|v vols IH]; intros bb; cbn [fold_left]; [reflexivity|].
  rewrite filter_cons. destruct (ModelVolume.is_model_part v) eqn:Ev.
  - rewrite decide_True by reflexivity. cbn [lookup list_lookup fold_left].
    apply IH.
  - rewrite decide_False by discriminate. apply IH.
Qed.

Lemma instance_bounding_box_out_of_range (insts : list ModelInstance) (idx : nat)
  dont_translate vols :
  insts !! idx = None -> forall acc,
  fold_left
    (fun bb v =>
       if ModelVolume.is_model_part v then
         match bb, insts !! idx with
         | Some bb, Some inst =>
             Some (bb_merge bb
                     (ModelInstance.transform_mesh_bounding_box inst
                        (mesh_transform (ModelVolume.get_matrix v) (mesh v))
                        dont_translate))
         | _, _ => None
         end
       else bb)
    vols acc
  = if existsb ModelVolume.is_model_part vols then None else acc.
Proof.
  intros Hidx. rewrite Hidx.
  induction vols as [|v vols IH]; intros acc; cbn [fold_left existsb]; [reflexivity|].
  destruct (ModelVolume.is_model_part v); cbn [orb].
  - rewrite IH. destruct acc; now destruct (existsb _ vols).
  - apply IH.
Qed.

End InstanceBoxes.

(** X5: for an object with an instance, [raw_bounding_box()] is
    [instance_bounding_box(0, true)].  With an index that is out of range
    [instance_bounding_box] reads past the instances as soon as the object
    has a model part, and returns the default box without reading them
    when it has none. *)
Theorem X5_instance_bounding_box `{MeshAlgorithms} (o : ModelObject) :
  (forall front rest,
     instances o = front :: rest ->
     exists bb, ModelObject.raw_bounding_box o = inr bb /\
                ModelObject.instance_bounding_box 0 true o = Some bb) /\
  (forall instance_idx dont_translate,
     instances o !! instance_idx = None ->
     ModelObject.instance_bounding_box instance_idx dont_translate o
     = if existsb ModelVolume.is_model_part (volumes o)
       then None else Some BoundingBoxf3_default).
Proof.
  split.
  - intros front rest Hinsts.
    exists (merged_snug_box front (volumes o) BoundingBoxf3_default). split.
    + unfold ModelObject.raw_bounding_box. rewrite Hinsts.
      apply raw_bounding_box_loop_instances.
    + unfold ModelObject.instance_bounding_box. rewrite Hinsts.
      apply instance_bounding_box_loop.
  - intros idx dont_translate Hidx. unfold ModelObject.instance_bounding_box.
    now apply instance_bounding_box_out_of_range.
Qed.

(** ** Counting facets *)

Lemma list_sum_cons a l : list_sum (a :: l) = (a + list_sum l)%nat.
Proof. reflexivity. Qed.

Section Facets.
Context `{MeshAlgorithms}.

Lemma raw_mesh_loop vols : forall acc,
  facets_count
    (fold_left
       (fun mesh_acc v =>
          if ModelVolume.is_model_part v
          then mesh_merge mesh_acc
                 (mesh_transform (ModelVolume.get_matrix v) (mesh v))
          else mesh_acc)
       vols acc)
  = (facets_count acc + part_facets vols)%nat.
Proof.
  unfold part_facets, facets_count.
  induction vols as [|v vols IH]; intros acc; cbn [fold_left].
  - rewrite filter_nil. cbn. lia.
  - rewrite IH, filter_cons. destruct (ModelVolume.is_model_part v).
    + rewrite decide_True by reflexivity. cbn [map]. rewrite list_sum_cons.
      unfold mesh_merge, mesh_transform. rewrite length_app, length_map.
      lia.
    + rewrite decide_False by discriminate. reflexivity.
Qed.

Lemma facets_count_loop vols : forall num,
  0 <= num ->
  fold_left
    (fun num v =>
       if ModelVolume.is_model_part v
       then wrap_size_t (num + Z.of_nat (facets_count (mesh v))) else num)
    vols (wrap_size_t num)
  = wrap_size_t (num + Z.of_nat (part_facets vols)).
Proof.
  unfold part_facets.
  induction vols as [|v vols IH]; intros num Hnum; cbn [fold_left].
  - rewrite filter_nil. cbn. now rewrite Z.add_0_r.
  - rewrite filter_cons. destruct (ModelVolume.is_model_part v).
    + rewrite decide_True by reflexivity. cbn [map]. rewrite list_sum_cons.
      assert (Hw : forall k, wrap_size_t (wrap_size_t num + k) = wrap_size_t (num + k))
        by (intros k; unfold wrap_size_t; apply Zplus_mod_idemp_l).
      rewrite Hw, IH by lia. unfold Datatypes.id. f_equal. lia.
    + rewrite decide_False by discriminate. now apply IH.
Qed.

Lemma mesh_loop (raw : TriangleMesh) insts : forall acc,
  facets_count
    (fold_left
       (fun mesh_acc i =>
          mesh_merge mesh_acc (mesh_transform (ModelInstance.get_matrix false i) raw))
       insts acc)
  = (facets_count acc + length insts * facets_count raw)%nat.
Proof.
  unfold facets_count.
  induction insts as [|i insts IH]; intros acc; cbn [fold_left length].
  - lia.
  - rewrite IH. unfold mesh_merge, mesh_transform.
    rewrite length_app, length_map. lia.
Qed.

End Facets.

(** X9: only model parts count.  [raw_mesh()] has the facets of the model
    parts, [facets_count()] is that number (as a [size_t]), [mesh()] has it
    once for every instance, and the mesh of a model has the facets of the
    meshes of its objects. *)
Theorem X9_facets `{MeshAlgorithms} (o : ModelObject) :
  facets_count (ModelObject.raw_mesh o) = part_facets (volumes o) /\
  ModelObject.facets_count o
  = wrap_size_t (Z.of_nat (facets_count (ModelObject.raw_mesh o))) /\
  facets_count (ModelObject.mesh o)
  = (length (instances o) * facets_count (ModelObject.raw_mesh o))%nat /\
  (forall m : Model,
     facets_count (Model.mesh m)
     = list_sum (map (fun o => (length (instances o) * part_facets (volumes o))%nat)
                     (objects m))).
Proof.
  assert (Hraw : forall o, facets_count (ModelObject.raw_mesh o)
                           = part_facets (volumes o)).
  { intros o'. unfold ModelObject.raw_mesh. now rewrite raw_mesh_loop. }
  assert (Hmesh : forall o, facets_count (ModelObject.mesh o)
                            = (length (instances o)
                               * facets_count (ModelObject.raw_mesh o))%nat).
  { intros o'. unfold ModelObject.mesh. cbv zeta. now rewrite mesh_loop. }
  split; [apply Hraw|]. split; [|split; [apply Hmesh|]].
  - unfold ModelObject.facets_count. rewrite Hraw.
    change 0 with (wrap_size_t 0) at 1.
    now rewrite facets_count_loop by lia.
  - intros m. unfold Model.mesh.
    change (list_sum (map _ (objects m)))
      with (facets_count (@nil stl_facet)
            + list_sum (map (fun o => (length (instances o)
                                       * part_facets (volumes o))%nat)
                            (objects m)))%nat.
    generalize (@nil stl_facet) as acc.
    induction (objects m) as [|o' os IH]; intros acc; cbn [fold_left map].
    + cbn. lia.
    + rewrite IH, list_sum_cons.
      assert (Hacc : facets_count (mesh_merge acc (ModelObject.mesh o'))
                     = (facets_count acc + facets_count (ModelObject.mesh o'))%nat).
      { unfold mesh_merge, facets_count. apply length_app. }
      rewrite Hacc, Hmesh, Hraw. lia.
Qed.

(** ** The print volume *)

Section PrintVolumeStates.

Lemma inside_outside_of_flags print_volume vols model_instance :
  ModelObject.inside_outside_of print_volume vols model_instance
  = fold_left Z.lor
      (map (flags_of print_volume)
           (map (hull_box model_instance)
                (filter (fun v => ModelVolume.is_model_part v = true) vols))) 0.
Proof.
  unfold ModelObject.inside_outside_of. generalize 0 as acc.
  induction vols as [|v vols IH]; intros acc; cbn [fold_left]; [reflexivity|].
  rewrite filter_cons. destruct (ModelVolume.is_model_part v).
  - rewrite decide_True by reflexivity. cbn [map fold_left]. rewrite <- IH.
    f_equal. unfold flags_of, hull_box.
    destruct (bb_contains _ _); [reflexivity|]. now destruct (bb_intersects _ _).
  - rewrite decide_False by discriminate. apply IH.
Qed.

Lemma fold_lor_code print_volume boxes : forall acc,
  fold_left Z.lor (map (flags_of print_volume) boxes) acc
  = Z.lor acc (flags_code print_volume boxes).
Proof.
  induction boxes as [|bb boxes IH]; intros acc; cbn [map fold_left].
  - unfold flags_code. cbn. now rewrite Z.lor_0_r.
  - rewrite IH, <- Z.lor_assoc. f_equal.
    unfold flags_code, flags_of. cbn [existsb].
    destruct (bb_contains print_volume bb), (bb_intersects print_volume bb),
      (existsb _ boxes), (existsb _ boxes); reflexivity.
Qed.

Lemma forallb_existsb {A} (p : A -> bool) l :
  forallb p l = negb (existsb (fun a => negb (p a)) l).
Proof.
  induction l as [|a l IH]; cbn; [reflexivity|].
  rewrite IH. now destruct (p a).
Qed.

Lemma state_of_flags print_volume vols model_instance :
  ModelObject.print_volume_state_of
    (ModelObject.inside_outside_of print_volume vols model_instance)
  = classify print_volume vols model_instance /\
  (ModelObject.inside_outside_of print_volume vols model_instance
   =? ModelObject.INSIDE)
  = is_inside (classify print_volume vols model_instance).
Proof.
  rewrite inside_outside_of_flags, fold_lor_code, Z.lor_0_l.
  unfold classify. cbv zeta.
  destruct (map (hull_box model_instance) _) as [|bb boxes]; [split; reflexivity|].
  rewrite !forallb_existsb. unfold flags_code.
  assert (Hdual : existsb (fun a => negb (negb (bb_contains print_volume a)
                                          && negb (bb_intersects print_volume a)))
                          (bb :: boxes)
                  = existsb (fun a => bb_contains print_volume a
                                      || bb_intersects print_volume a)
                            (bb :: boxes)).
  { generalize (bb :: boxes) as l. intros l.
    induction l as [|a l IHl]; cbn [existsb]; [reflexivity|]. rewrite IHl.
    now destruct (bb_contains print_volume a), (bb_intersects print_volume a). }
  rewrite Hdual.
  destruct (existsb (fun a => negb (bb_contains print_volume a)) (bb :: boxes))
    eqn:Hout; cbn [negb].
  - destruct (existsb (fun a => bb_contains print_volume a
                                || bb_intersects print_volume a) (bb :: boxes));
      split; reflexivity.
  - assert (Hin : existsb (fun a => bb_contains print_volume a
                                    || bb_intersects print_volume a)
                          (bb :: boxes) = true).
    { cbn [existsb] in *. apply orb_false_iff in Hout as [Hbb _].
      apply negb_false_iff in Hbb. now rewrite Hbb. }
    rewrite Hin. split; reflexivity.
Qed.

Lemma wrap_uint_succ k : wrap_uint (wrap_uint k + 1) = wrap_uint (k + 1).
Proof. unfold wrap_uint. apply Zplus_mod_idemp_l. Qed.

Lemma check_loop print_volume vols insts : forall (k : nat) done,
  fold_left
    (fun (acc : Z * list ModelInstance) model_instance =>
       let inside_outside :=
         ModelObject.inside_outside_of print_volume vols model_instance in
       let model_instance :=
         ModelInstance.set_print_volume_state
           (ModelObject.print_volume_state_of inside_outside) model_instance in
       (if inside_outside =? ModelObject.INSIDE
        then wrap_uint (fst acc + 1) else fst acc,
        snd acc ++ [model_instance]))
    insts (wrap_uint (Z.of_nat k), done)
  = (wrap_uint (Z.of_nat (k + length (printable_instances print_volume vols insts))),
     done ++ map (fun i => ModelInstance.set_print_volume_state
                             (classify print_volume vols i) i) insts).
Proof.
  unfold printable_instances.
  induction insts as [|i insts IH]; intros k done; cbn [fold_left map].
  - rewrite filter_nil, app_nil_r. cbn [length]. now rewrite Nat.add_0_r.
  - cbn [fst snd].
    destruct (state_of_flags print_volume vols i) as [-> ->].
    rewrite filter_cons.
    destruct (is_inside (classify print_volume vols i)) eqn:Hin.
    + rewrite decide_True by reflexivity. rewrite wrap_uint_succ.
      replace (Z.of_nat k + 1) with (Z.of_nat (S k)) by lia.
      rewrite IH, <- app_assoc. cbn [length app]. f_equal. f_equal. f_equal. lia.
    + rewrite decide_False by discriminate. rewrite IH, <- app_assoc. reflexivity.
Qed.

Lemma check_instances_print_volume_state_spec print_volume o :
  ModelObject.check_instances_print_volume_state print_volume o
  = (wrap_uint (Z.of_nat (length (printable_instances print_volume (volumes o)
                                                      (instances o)))),
     ModelObject.with_instances
       (map (fun i => ModelInstance.set_print_volume_state
                        (classify print_volume (volumes o) i) i)
            (instances o)) o).
Proof.
  unfold ModelObject.check_instances_print_volume_state.
  change 0 with (wrap_uint (Z.of_nat 0)).
  rewrite check_loop. reflexivity.
Qed.

Lemma wrap_uint_add a b : wrap_uint (wrap_uint a + wrap_uint b) = wrap_uint (a + b).
Proof. unfold wrap_uint. now rewrite <- Zplus_mod. Qed.

End PrintVolumeStates.

(** X6: [check_instances_print_volume_state] gives every instance the
    state [classify] describes, and returns the number of instances it has
    marked [PVS_Inside], as an [unsigned int]. *)
Theorem X6_print_volume_states (print_volume : BoundingBoxf3) (o : ModelObject) :
  ModelObject.check_instances_print_volume_state print_volume o
  = (wrap_uint (Z.of_nat (length (printable_instances print_volume (volumes o)
                                                      (instances o)))),
     ModelObject.with_instances
       (map (fun i => ModelInstance.set_print_volume_state
                        (classify print_volume (volumes o) i) i)
            (instances o)) o) /\
  length (printable_instances print_volume (volumes o) (instances o))
  = length (filter (fun i => is_inside (print_volume_state i) = true)
                   (instances
                      (snd (ModelObject.check_instances_print_volume_state
                              print_volume o)))).
Proof.
  pose proof (check_instances_print_volume_state_spec print_volume o) as Hcheck.
  split; [exact Hcheck|]. rewrite Hcheck. cbn [snd instances ModelObject.with_instances].
  unfold printable_instances. clear Hcheck.
  induction (instances o) as [|i insts IH]; [reflexivity|].
  cbn [map]. rewrite !filter_cons.
  cbn [print_volume_state ModelInstance.set_print_volume_state].
  destruct (is_inside (classify print_volume (volumes o) i)).
  - rewrite !decide_True by reflexivity. cbn [length]. now rewrite IH.
  - rewrite !decide_False by discriminate. exact IH.
Qed.

(** X7: [update_print_volume_state] classifies the instances of every
    object and returns how many instances of the model are printable, as an
    [unsigned int]: the exact number when the model has at most
    4294967295 instances. *)
Theorem X7_update_print_volume_state `{MeshAlgorithms}
  (print_volume : BoundingBoxf3) (m : Model) :
  let r := Model.update_print_volume_state print_volume m in
  fst r = wrap_uint (Z.of_nat (printable_count print_volume (objects m))) /\
  snd r = Model.with_objects
            (map (fun o => snd (ModelObject.check_instances_print_volume_state
                                  print_volume o)) (objects m)) m /\
  (printable_count print_volume (objects m)
   <= list_sum (map (fun o => length (instances o)) (objects m)))%nat /\
  (Z.of_nat (list_sum (map (fun o => length (instances o)) (objects m)))
   <= UINT_MAX ->
   fst r = Z.of_nat (printable_count print_volume (objects m))).
Proof.
  intros r. subst r. unfold Model.update_print_volume_state. cbv zeta.
  assert (Hloop : forall os (k : nat) done,
             fold_left
               (fun (acc : Z * list ModelObject) model_object =>
                  (wrap_uint (fst acc
                              + fst (ModelObject.check_instances_print_volume_state
                                       print_volume model_object)),
                   snd acc ++ [snd (ModelObject.check_instances_print_volume_state
                                      print_volume model_object)]))
               os (wrap_uint (Z.of_nat k), done)
             = (wrap_uint (Z.of_nat (k + printable_count print_volume os)),
                done ++ map (fun o => snd (ModelObject.check_instances_print_volume_state
                                             print_volume o)) os)).
  { unfold printable_count.
    induction os as [|o os IH]; intros k done; cbn [fold_left map]; rewrite ?list_sum_cons.
    - now rewrite Nat.add_0_r, app_nil_r.
    - cbn [fst snd]. rewrite check_instances_print_volume_state_spec at 1.
      cbn [fst]. rewrite wrap_uint_add, <- Nat2Z.inj_add, IH, <- app_assoc.
      cbn [app]. f_equal. f_equal. f_equal. lia. }
  change 0 with (wrap_uint (Z.of_nat 0)). rewrite Hloop. cbn [fst snd app].
  assert (Hle : (printable_count print_volume (objects m)
                 <= list_sum (map (fun o => length (instances o)) (objects m)))%nat).
  { unfold printable_count, printable_instances.
    induction (objects m) as [|o os IH]; cbn [map]; rewrite ?list_sum_cons; [cbn; lia|].
    pose proof (length_filter (fun i => is_inside (classify print_volume (volumes o) i) = true)
                  (instances o)).
    lia. }
  split; [reflexivity|]. split; [reflexivity|]. split; [exact Hle|].
  intros Hmax. apply wrap_uint_small.
  pose proof UINT_MAX_eq. lia.
Qed.

(** ** Putting an object on the bed *)

Section OnBed.
Context `{MeshAlgorithms}.

Lemma translate_instances_loop vector (k : nat) : forall o,
  (k <= length (instances o))%nat ->
  let o' := fold_left
              (fun o i => match ModelObject.translate_instance i vector o with
                          | Some o' => o' | None => o end)
              (seq 0 k) o in
  instances o' = map (moved vector) (take k (instances o)) ++ drop k (instances o) /\
  volumes o' = volumes o.
Proof.
  induction k as [|k IH]; intros o Hk; cbv zeta.
  - cbn. rewrite drop_0. auto.
  - rewrite seq_S, fold_left_app. cbn [fold_left Nat.add].
    destruct (IH o ltac:(lia)) as [Hi Hv]. cbv zeta in Hi, Hv.
    set (o1 := fold_left _ (seq 0 k) o) in *.
    unfold ModelObject.translate_instance.
    destruct (lookup_lt_is_Some_2 (instances o) k ltac:(lia)) as [inst Hinst].
    assert (Hk1 : instances o1 !! k = Some inst).
    { rewrite Hi, lookup_app_r by (rewrite length_map, length_take; lia).
      rewrite length_map, length_take, lookup_drop.
      rewrite <- Hinst. f_equal. lia. }
    rewrite Hk1.
    cbn [instances volumes ModelObject.invalidate_bounding_box
         ModelObject.with_bounding_box ModelObject.with_instances].
    split; [|exact Hv].
    rewrite Hi.
    rewrite insert_app_r_alt by (rewrite length_map, length_take; lia).
    rewrite length_map, length_take.
    replace (k - k `min` length (instances o))%nat with 0%nat by lia.
    rewrite (take_S_r _ _ _ Hinst), map_app, <- app_assoc. f_equal.
    rewrite (drop_S _ _ _ Hinst). reflexivity.
Qed.

Lemma translate_instances_spec vector o :
  instances (ModelObject.translate_instances vector o)
  = map (moved vector) (instances o) /\
  volumes (ModelObject.translate_instances vector o) = volumes o.
Proof.
  unfold ModelObject.translate_instances.
  destruct (translate_instances_loop vector (length (instances o)) o ltac:(lia))
    as [Hi Hv].
  cbv zeta in Hi, Hv. rewrite Hi, Hv, firstn_all, drop_all, app_nil_r. auto.
Qed.


(** A running minimum is a lower bound of its start and of every element,
    and is one of them. *)
Lemma running_min (l : list R) : forall a : R,
  let m := fold_left std_min l a in
  (m <= a)%R /\ Forall (fun z => (m <= z)%R) l /\ (m = a \/ In m l).
Proof.
  induction l as [|z l IH]; intros a; cbv zeta; cbn [fold_left].
  - split; [lra|]. split; [constructor | now left].
  - destruct (IH (std_min a z)) as (Ha & Hl & Hin). cbv zeta in Ha, Hl, Hin.
    set (m := fold_left std_min l (std_min a z)) in *.
    assert (Hmin : (std_min a z <= a)%R /\ (std_min a z <= z)%R /\
                   (std_min a z = a \/ std_min a z = z)).
    { unfold std_min. destruct (Rlt_dec z a); repeat split; try lra; auto. }
    destruct Hmin as (H1 & H2 & H3).
    split; [lra|]. split.
    + constructor; [lra | exact Hl].
    + destruct Hin as [Hin | Hin].
      * destruct H3 as [H3 | H3]; [left | right; left]; congruence.
      * right. now right.
Qed.

Lemma fold_min_map {A} (g : A -> R) (l : list A) : forall a,
  fold_left (fun m x => std_min m (g x)) l a = fold_left std_min (map g l) a.
Proof.
  induction l as [|x l IH]; intros a; cbn [fold_left map]; [reflexivity | apply IH].
Qed.

(** X8: [ensure_on_bed] moves only the instances, each by the same
    vertical vector, down by [get_min_z]; the volumes stay as they are.
    [get_min_z] is zero for an object without instances.  Otherwise it is
    at most [get_instance_min_z] of every instance, and it is the value of
    [get_instance_min_z] for some instance unless it is still DBL_MAX. *)
Theorem X8_ensure_on_bed (o : ModelObject) :
  volumes (ModelObject.ensure_on_bed o) = volumes o /\
  instances (ModelObject.ensure_on_bed o) =
    map (moved (mkVec3d 0 0 (- ModelObject.get_min_z o))) (instances o) /\
  (instances o = [] -> ModelObject.get_min_z o = 0%R) /\
  (forall instance_idx z,
     ModelObject.get_instance_min_z instance_idx o = Some z ->
     (ModelObject.get_min_z o <= z)%R) /\
  (instances o = [] \/ ModelObject.get_min_z o = DBL_MAX \/
   exists instance_idx,
     ModelObject.get_instance_min_z instance_idx o
     = Some (ModelObject.get_min_z o)).
Proof.
  unfold ModelObject.ensure_on_bed.
  set (d := mkVec3d 0 0 (- ModelObject.get_min_z o)).
  destruct (translate_instances_spec d o) as [Hi Hv].
  split; [exact Hv|]. split; [exact Hi|].
  split; [intros He; unfold ModelObject.get_min_z; now rewrite He|].
  split.
  - intros idx z Hz. unfold ModelObject.get_instance_min_z in Hz.
    destruct (instances o !! idx) as [inst|] eqn:Hinst; [|discriminate].
    injection Hz as <-.
    apply list_elem_of_lookup_2, list_elem_of_In in Hinst.
    unfold ModelObject.get_min_z.
    destruct (instances o) as [|i0 rest] eqn:Ei; [destruct Hinst|].
    rewrite fold_min_map.
    destruct (running_min (map (fun i => ModelObject.min_z_under i o) (i0 :: rest))
                          DBL_MAX) as (_ & Hall & _).
    cbv zeta in Hall. rewrite List.Forall_forall in Hall.
    apply Hall. now apply (in_map (fun i => ModelObject.min_z_under i o)).
  - destruct (instances o) as [|i0 rest] eqn:Ei; [now left | right].
    assert (Hg : ModelObject.get_min_z o =
                 fold_left std_min
                   (map (fun i => ModelObject.min_z_under i o) (instances o))
                   DBL_MAX).
    { unfold ModelObject.get_min_z. rewrite Ei, <- fold_min_map. reflexivity. }
    destruct (running_min (map (fun i => ModelObject.min_z_under i o) (instances o))
                          DBL_MAX) as (_ & _ & Hin).
    cbv zeta in Hin. rewrite <- Hg in Hin.
    destruct Hin as [Hmax | Hin]; [now left | right].
    apply in_map_iff in Hin as (inst & Hz & Hin).
    apply list_elem_of_In, list_elem_of_lookup_1 in Hin as [idx Hidx].
    exists idx. unfold ModelObject.get_instance_min_z.
    now rewrite Hidx, Hz.
Qed.

End OnBed.

(** ** A grid of copies *)

Section Grid.
Context `{MeshAlgorithms}.

Lemma foldM_app {A B} (f : B -> A -> Alloc B) l1 l2 b s :
  foldM f (l1 ++ l2) b s = (let '(b1, s1) := foldM f l1 b s in foldM f l2 b1 s1).
Proof.
  revert b s. induction l1 as [|a l1 IH]; intros b s; cbn [foldM app].
  - reflexivity.
  - unfold bind. destruct (f b a s) as [b' s']. apply IH.
Qed.

Lemma grid_instance_spec ext (x_copy y_copy : nat) o s :
  0 <= s -> s + 1 <= SIZE_MAX ->
  exists o',
    Model.grid_instance ext x_copy y_copy o s = (o', s + 1) /\
    volumes o' = volumes o /\ mo_id o' = mo_id o /\
    instances o' = instances o ++ [grid_copy ext (s + 1) (x_copy - 1) (y_copy - 1)].
Proof.
  intros Hs Hroom.
  unfold Model.grid_instance, ModelObject.add_instance, ModelInstance.new_default,
    bind, ret.
  rewrite generate_new_id_fresh by lia.
  eexists. split; [reflexivity|].
  unfold ModelObject.update_back_instance.
  cbn [instances ModelObject.invalidate_bounding_box ModelObject.with_bounding_box
       ModelObject.with_instances].
  rewrite reverse_snoc.
  cbn [volumes mo_id instances ModelObject.with_instances].
  rewrite reverse_involutive. auto.
Qed.

(** One column: the inner loop. *)
Lemma grid_column ext (x_copy : nat) (y : nat) : forall o s,
  0 <= s -> s + Z.of_nat y <= SIZE_MAX ->
  exists o',
    foldM (fun object y_copy => Model.grid_instance ext x_copy y_copy object)
          (seq 1 y) o s = (o', s + Z.of_nat y) /\
    volumes o' = volumes o /\ mo_id o' = mo_id o /\
    instances o' =
      instances o ++
      map (fun j => grid_copy ext (s + Z.of_nat j + 1) (x_copy - 1) j) (seq 0 y).
Proof.
  induction y as [|y IH]; intros o s Hs Hroom.
  - exists o. cbn. unfold ret. rewrite app_nil_r, Z.add_0_r. auto.
  - destruct (IH o s Hs ltac:(lia)) as (o1 & Hrun & Hv & Hid & Hi).
    rewrite seq_S, foldM_app, Hrun. cbn [foldM].
    destruct (grid_instance_spec ext x_copy (1 + y) o1 (s + Z.of_nat y))
      as (o2 & Hrun2 & Hv2 & Hid2 & Hi2); [lia|lia|].
    unfold bind. rewrite Hrun2. unfold ret. exists o2.
    split; [f_equal; lia|]. split; [congruence|]. split; [congruence|].
    rewrite Hi2, Hi, seq_S, map_app, <- app_assoc. cbn [map Nat.add].
    replace (S y - 1)%nat with y by lia. reflexivity.
Qed.

(** The columns: the outer loop. *)
Lemma grid_columns ext (y : nat) (x : nat) : forall o s,
  0 <= s -> s + Z.of_nat (x * y) <= SIZE_MAX ->
  exists o',
    foldM (fun object x_copy =>
             foldM (fun object y_copy => Model.grid_instance ext x_copy y_copy object)
                   (seq 1 y) object)
          (seq 1 x) o s = (o', s + Z.of_nat (x * y)) /\
    volumes o' = volumes o /\ mo_id o' = mo_id o /\
    instances o' = instances o ++ grid ext s x y.
Proof.
  induction x as [|x IH]; intros o s Hs Hroom.
  - exists o. cbn. unfold ret. rewrite app_nil_r, Z.add_0_r. auto.
  - destruct (IH o s Hs ltac:(lia)) as (o1 & Hrun & Hv & Hid & Hi).
    rewrite seq_S, foldM_app, Hrun. cbn [foldM].
    destruct (grid_column ext (1 + x) y o1 (s + Z.of_nat (x * y)))
      as (o2 & Hrun2 & Hv2 & Hid2 & Hi2); [lia|lia|].
    unfold bind. rewrite Hrun2. unfold ret. exists o2.
    split; [f_equal; lia|]. split; [congruence|]. split; [congruence|].
    rewrite Hi2, Hi. unfold grid.
    rewrite seq_S, flat_map_app, <- app_assoc. cbn [flat_map Nat.add].
    rewrite app_nil_r. do 2 f_equal.
    apply map_ext. intros j. replace (S x - 1)%nat with x by lia.
    f_equal. lia.
Qed.

Open Scope R_scope.

(** The spacing of the grid: the box of an object without instances is the
    default one, of size zero. *)
Lemma grid_spacing dist o :
  let object := ModelObject.clear_instances o in
  vadd (bb_size (fst (ModelObject.bounding_box object))) (vscale dist Vec3d_Ones)
  = mkVec3d dist dist dist.
Proof.
  cbv zeta. unfold ModelObject.clear_instances, ModelObject.bounding_box.
  cbn [m_bounding_box_valid ModelObject.invalidate_bounding_box
       ModelObject.with_bounding_box negb fst].
  unfold ModelObject.compute_bounding_box.
  cbn [instances ModelObject.with_instances ModelObject.invalidate_bounding_box
       ModelObject.with_bounding_box fold_left].
  unfold bb_size, BoundingBoxf3_default, vadd, vsub, vscale, Vec3d_Ones, Vec3d_Zero.
  cbn [bb_min bb_max vx vy vz]. f_equal; ring.
Qed.

Close Scope R_scope.

(** X10: duplicate_objects_grid, for counts below SIZE_MAX (with
    SIZE_MAX a loop of the source does not end) and a counter that does not
    wrap, throws unless the model has exactly one object; then the object
    keeps its volumes and gets x * y new instances in place of its old ones,
    with the next IDs, the copy of column i and row j at
    (dist * i, dist * j, 0): the size of the object does not enter the
    spacing. *)
Theorem X10_duplicate_objects_grid (x y : nat) (dist : R) (m : Model) (s : Z) :
  Z.of_nat x < SIZE_MAX -> Z.of_nat y < SIZE_MAX ->
  0 <= s -> s + Z.of_nat (x * y) <= SIZE_MAX ->
  match Model.duplicate_objects_grid x y dist m with
  | inl _ => length (objects m) <> 1%nat
  | inr run =>
      exists o o',
        objects m = [o] /\
        run s = (Model.with_objects [o'] m, s + Z.of_nat (x * y)) /\
        volumes o' = volumes o /\ mo_id o' = mo_id o /\
        instances o' = grid (mkVec3d dist dist dist) s x y
  end.
Proof.
  intros _ _ Hs Hroom. unfold Model.duplicate_objects_grid.
  destruct (objects m) as [|o [|o2 rest]] eqn:Eo; cbn [length Nat.ltb Nat.leb].
  - discriminate.
  - pose proof (grid_spacing dist o) as Hext. cbv zeta in Hext.
    destruct (ModelObject.bounding_box (ModelObject.clear_instances o))
      as [bb object] eqn:Ebb.
    cbn [fst] in Hext. rewrite Hext.
    destruct (grid_columns (mkVec3d dist dist dist) y x object s Hs Hroom)
      as (o' & Hrun & Hv & Hid & Hi).
    exists o, o'. split; [reflexivity|].
    unfold bind. rewrite Hrun. unfold ret. split; [reflexivity|].
    assert (Hobj : volumes object = volumes o /\ mo_id object = mo_id o /\
                   instances object = []).
    { unfold ModelObject.bounding_box, ModelObject.clear_instances in Ebb.
      cbn [m_bounding_box_valid ModelObject.invalidate_bounding_box
           ModelObject.with_bounding_box negb] in Ebb.
      injection Ebb as _ <-. auto. }
    destruct Hobj as (Hv0 & Hid0 & Hi0).
    rewrite Hi0 in Hi. split; [congruence|]. split; [congruence|exact Hi].
  - cbn. lia.
Qed.

End Grid.

Lemma X10_duplicate_objects_grid_witness :
  Z.of_nat 2 < SIZE_MAX /\ Z.of_nat 3 < SIZE_MAX /\
  0 <= 4 /\ 4 + Z.of_nat (2 * 3) <= SIZE_MAX /\
  match Model.duplicate_objects_grid 2 3 10 sample_model with
  | inl _ => length (objects sample_model) <> 1%nat
  | inr run =>
      exists o o',
        objects sample_model = [o] /\
        run 4 = (Model.with_objects [o'] sample_model, 4 + Z.of_nat (2 * 3)) /\
        volumes o' = volumes o /\ mo_id o' = mo_id o /\
        instances o' = grid (mkVec3d 10 10 10) 4 2 3
  end.
Proof.
  split; [unfold SIZE_MAX; lia|]. split; [unfold SIZE_MAX; lia|].
  split; [lia|]. split; [unfold SIZE_MAX; lia|].
  apply (X10_duplicate_objects_grid 2 3 10 sample_model 4);
    unfold SIZE_MAX; lia.
Defined.

(** ** Renumbering a model *)

Section Renumber.
Context `{MeshAlgorithms}.







End Renumber.


(** ** Objects that are the parts of one object *)

Section Multipart.
Context `{MeshAlgorithms}.

Lemma shared_zmin_sound vols : forall seen zmin,
  known_zmin seen zmin ->
  match Model.shared_zmin vols zmin with
  | None => exists v1 v2, In v1 (seen ++ vols) /\ In v2 (seen ++ vols) /\ zmin_apart v1 v2
  | Some zmin' => known_zmin (seen ++ vols) zmin'
  end.
Proof.
  induction vols as [|vol vols IH]; intros seen zmin Hk; cbn [Model.shared_zmin].
  - now rewrite app_nil_r.
  - fold (mesh_zmin vol).
    replace (seen ++ vol :: vols) with ((seen ++ [vol]) ++ vols)
      by now rewrite <- app_assoc.
    destruct (Req_dec_T zmin DBL_MAX) as [Hmax | Hset].
    + apply IH. right. exists vol. split; [|reflexivity].
      apply in_or_app. right. now left.
    + destruct (Rlt_dec EPSILON (Rabs (zmin - mesh_zmin vol))) as [Hfar | Hnear].
      * destruct Hk as [Hk | (v & Hv & Hz)]; [contradiction|].
        exists v, vol. split; [|split].
        -- apply in_or_app. left. apply in_or_app. now left.
        -- apply in_or_app. left. apply in_or_app. right. now left.
        -- unfold zmin_apart. now rewrite Hz.
      * apply IH. destruct Hk as [Hk | (v & Hv & Hz)]; [contradiction|].
        right. exists v. split; [|exact Hz]. apply in_or_app. now left.
Qed.

Lemma multipart_from_sound objs : forall seen zmin,
  known_zmin seen zmin ->
  Model.multipart_from objs zmin = true ->
  exists v1 v2,
    In v1 (seen ++ flat_map volumes objs) /\
    In v2 (seen ++ flat_map volumes objs) /\ zmin_apart v1 v2.
Proof.
  induction objs as [|obj objs IH]; intros seen zmin Hk Hrun;
    cbn [Model.multipart_from] in Hrun; [discriminate|].
  destruct ((1 <? length (volumes obj))%nat || (1 <? length (mo_config obj))%nat);
    [discriminate|].
  pose proof (shared_zmin_sound (volumes obj) seen zmin Hk) as Hs.
  cbn [flat_map]. rewrite app_assoc.
  destruct (Model.shared_zmin (volumes obj) zmin) as [zmin'|].
  - apply (IH _ _ Hs Hrun).
  - destruct Hs as (v1 & v2 & H1 & H2 & Hfar).
    exists v1, v2. split; [|split]; [apply in_or_app; now left ..| exact Hfar].
Qed.

(** With a height to compare with, the loop looks for a volume away from
    it. *)
Lemma multipart_from_set objs : forall zmin,
  zmin <> DBL_MAX -> Forall one_part objs ->
  Model.multipart_from objs zmin = true <->
  Exists (fun v => (EPSILON < Rabs (zmin - mesh_zmin v))%R) (flat_map volumes objs).
Proof.
  induction objs as [|obj objs IH]; intros zmin Hset Hone; cbn [Model.multipart_from flat_map].
  - split; [discriminate | intros Hex; inversion Hex].
  - apply Forall_cons in Hone as [[Hv Hc] Hone].
    replace ((1 <? length (volumes obj))%nat || (1 <? length (mo_config obj))%nat)
      with false.
    2:{ symmetry. apply orb_false_iff. split; apply Nat.ltb_ge; assumption. }
    destruct (volumes obj) as [|vol [|? ?]]; [| |cbn in Hv; lia].
    + cbn [Model.shared_zmin app]. now apply IH.
    + cbn [Model.shared_zmin app]. fold (mesh_zmin vol).
      destruct (Req_dec_T zmin DBL_MAX) as [Hmax | _]; [contradiction|].
      destruct (Rlt_dec EPSILON (Rabs (zmin - mesh_zmin vol))) as [Hfar | Hnear].
      * split; [intros _; now apply List.Exists_cons_hd | reflexivity].
      * rewrite (IH zmin Hset Hone). split; [apply List.Exists_cons_tl|].
        intros Hex. inversion Hex; subst; [contradiction | assumption].
Qed.

(** Without one, the first volume gives it. *)
Lemma multipart_from_unset objs :
  Forall one_part objs ->
  Forall (fun v => mesh_zmin v <> DBL_MAX) (flat_map volumes objs) ->
  Model.multipart_from objs DBL_MAX = true <->
  match flat_map volumes objs with
  | [] => False
  | first :: rest => Exists (zmin_apart first) rest
  end.
Proof.
  induction objs as [|obj objs IH]; intros Hone Hz; cbn [Model.multipart_from flat_map].
  - split; [discriminate | contradiction].
  - apply Forall_cons in Hone as [[Hv Hc] Hone].
    replace ((1 <? length (volumes obj))%nat || (1 <? length (mo_config obj))%nat)
      with false.
    2:{ symmetry. apply orb_false_iff. split; apply Nat.ltb_ge; assumption. }
    cbn [flat_map] in Hz.
    destruct (volumes obj) as [|vol [|? ?]]; [| |cbn in Hv; lia].
    + cbn [Model.shared_zmin app] in *. now apply IH.
    + cbn [Model.shared_zmin app] in *. fold (mesh_zmin vol).
      apply Forall_cons in Hz as [Hvol Hz].
      destruct (Req_dec_T DBL_MAX DBL_MAX) as [_ | Hne]; [|contradiction].
      apply (multipart_from_set objs (mesh_zmin vol) Hvol Hone).
Qed.

(** X12: looks_like_multipart_object says yes only for a model of several
    objects with two volumes whose meshes start at heights more than EPSILON
    apart.  For a model of several objects of at most one volume and one
    configuration key each, it says yes exactly when some volume starts more
    than EPSILON away from the first one: the later volumes are not compared
    with each other. *)
Theorem X12_looks_like_multipart_object (m : Model) :
  let vols := flat_map volumes (objects m) in
  (Model.looks_like_multipart_object m = true ->
   (2 <= length (objects m))%nat /\
   exists v1 v2, In v1 vols /\ In v2 vols /\ zmin_apart v1 v2) /\
  ((2 <= length (objects m))%nat ->
   Forall one_part (objects m) ->
   Forall (fun v => mesh_zmin v <> DBL_MAX) vols ->
   (Model.looks_like_multipart_object m = true <->
    match vols with
    | [] => False
    | first :: rest => Exists (zmin_apart first) rest
    end)).
Proof.
  cbv zeta. unfold Model.looks_like_multipart_object. split.
  - destruct (Nat.leb_spec (length (objects m)) 1) as [Hle | Hgt]; [discriminate|].
    intros Hrun. split; [lia|].
    apply (multipart_from_sound (objects m) [] DBL_MAX); [now left | exact Hrun].
  - intros Hlen Hone Hz.
    destruct (Nat.leb_spec (length (objects m)) 1) as [Hle | Hgt]; [lia|].
    now apply multipart_from_unset.
Qed.

End Multipart.

(** ** How the transformations of an object compose *)

Section Composition.
Open Scope R_scope.

Lemma volume_mirror_mirror axis v :
  ModelVolume.mirror axis (ModelVolume.mirror axis v) = v.
Proof.
  destruct v as [i n m h c ty mat [off rot sc [x y z]]].
  unfold ModelVolume.mirror, ModelVolume.set_mirror, ModelVolume.get_mirror,
    ModelVolume.set_transformation, Transformation.set_mirror.
  destruct axis; cbn; do 2 f_equal; f_equal; ring.
Qed.

Lemma volume_mirror_comm a b v :
  ModelVolume.mirror a (ModelVolume.mirror b v)
  = ModelVolume.mirror b (ModelVolume.mirror a v).
Proof.
  destruct v as [i n m h c ty mat [off rot sc [x y z]]].
  unfold ModelVolume.mirror, ModelVolume.set_mirror, ModelVolume.get_mirror,
    ModelVolume.set_transformation, Transformation.set_mirror.
  destruct a, b; reflexivity.
Qed.

(** X13: how the mirrorings of an object compose.  A mirroring only flips
    the sign of one mirror factor of every volume, so mirroring twice along
    one axis gives the object back with its cached box invalidated, and
    mirrorings along different axes commute. *)
Theorem X13_object_mirrors_compose (o : ModelObject) :
  (forall axis, ModelObject.mirror axis (ModelObject.mirror axis o)
                = ModelObject.invalidate_bounding_box o) /\
  (forall a b, ModelObject.mirror a (ModelObject.mirror b o)
               = ModelObject.mirror b (ModelObject.mirror a o)).
Proof.
  destruct o as [i n f c sp ot vs insts bb valid].
  unfold ModelObject.mirror, ModelObject.invalidate_bounding_box,
    ModelObject.with_volumes, ModelObject.with_bounding_box.
  cbn. split.
  - intros axis. rewrite map_map.
    rewrite (map_ext _ (fun v => v)) by (intros v; apply volume_mirror_mirror).
    now rewrite map_id.
  - intros a b. rewrite !map_map. f_equal.
    apply map_ext. intros v. apply volume_mirror_comm.
Qed.

End Composition.

(** ** Dragging the cut plane *)

Section CutDrag.
Context (unit_vector : Linef3 -> Vec3d).
Open Scope R_scope.

Lemma squaredNorm_zero v : squaredNorm v = 0 <-> v = Vec3d_Zero.
Proof.
  destruct v as [x y z]. unfold squaredNorm, dot, Vec3d_Zero. cbn [vx vy vz]. split.
  - intros Hs. assert (x = 0 /\ y = 0 /\ z = 0) as (-> & -> & ->) by nra. reflexivity.
  - intros [= -> -> ->]. ring.
Qed.

Lemma norm_zero v : norm v = 0 <-> v = Vec3d_Zero.
Proof.
  rewrite <- squaredNorm_zero. unfold norm. split.
  - intros Hs. apply sqrt_eq_0 in Hs; [exact Hs|].
    destruct v as [x y z]. unfold squaredNorm, dot. cbn [vx vy vz]. nra.
  - intros ->. apply sqrt_0.
Qed.

Lemma vsub_zero a b : vsub a b = Vec3d_Zero <-> a = b.
Proof.
  destruct a as [x y z], b as [x' y' z']. unfold vsub, Vec3d_Zero. cbn [vx vy vz].
  split.
  - intros [= Hx Hy Hz]. f_equal; lra.
  - intros [= -> -> ->]. f_equal; lra.
Qed.

(** X16: dragging the cut plane.  Without a hovered grabber neither
    [on_start_dragging] nor [on_update] changes the gizmo.  With one,
    [on_start_dragging] reads the grabber, which has to exist, and takes the
    height of the box of the selection as the greatest cut height; an update
    leaves that height and the three flags as they are, and the cut height
    stays between zero and the greatest height (when that is not negative).
    When the drag starts at the drag centre, [calc_projection] is zero and
    an update leaves the plane where [on_start_dragging] put it. *)
Theorem X16_cut_plane_drag box g d mouse_ray :
  match GLGizmoCut.on_start_dragging box g d with
  | None =>
      m_hover_id d <> (-1)%Z /\
      ~ (0 <= m_hover_id d < Z.of_nat (length (m_grabbers d)))%Z
  | Some (g1, d1) =>
      let g2 := GLGizmoCut.on_update unit_vector mouse_ray g1 d1 in
      (m_hover_id d = (-1)%Z -> g1 = g /\ d1 = d /\ g2 = g) /\
      (m_hover_id d <> (-1)%Z ->
       m_max_z g1 = vz (bb_size box) /\ m_max_z g2 = vz (bb_size box) /\
       m_grabbers d !! Z.to_nat (m_hover_id d) = Some (m_drag_pos d1) /\
       (m_keep_upper g2, m_keep_lower g2, m_rotate_lower g2)
       = (m_keep_upper g, m_keep_lower g, m_rotate_lower g) /\
       (0 <= vz (bb_size box) -> 0 <= m_cut_z g2 <= vz (bb_size box)) /\
       (m_drag_pos d1 = m_drag_center d1 ->
        GLGizmoCut.calc_projection unit_vector mouse_ray d1 = 0 /\
        m_cut_z g2 = m_cut_z g1))
  end.
Proof.
  unfold GLGizmoCut.on_start_dragging.
  destruct (Z.eqb_spec (m_hover_id d) (-1)) as [Hhover | Hhover].
  - cbv zeta. split; [|intros Hne; contradiction].
    intros _. unfold GLGizmoCut.on_update.
    destruct (Z.eqb_spec (m_hover_id d) (-1)) as [_ | Hne]; [auto | contradiction].
  - cbv zeta. destruct (Z.ltb_spec (m_hover_id d) 0) as [Hneg | Hpos].
    { split; [exact Hhover | lia]. }
    destruct (m_grabbers d !! Z.to_nat (m_hover_id d)) as [center|] eqn:Hcenter.
    2:{ split; [exact Hhover|]. apply lookup_ge_None_1 in Hcenter. lia. }
    split; [intros He; contradiction|]. intros _.
    unfold GLGizmoCut.on_update. cbn [m_hover_id m_start_z m_drag_pos].
    destruct (Z.eqb_spec (m_hover_id d) (-1)) as [He | _]; [contradiction|].
    cbn [negb].
    unfold GLGizmoCut.update_max_z, GLGizmoCut.set_cut_z.
    cbn [m_max_z m_cut_z m_keep_upper m_keep_lower m_rotate_lower].
    split; [reflexivity|]. split; [reflexivity|]. split; [reflexivity|].
    split; [reflexivity|].
    split.
    + intros Hmax. rcases.
    + intros Hsame.
      set (d1 := mkCutDragging _ _ _ _ _) in *.
      assert (Hcalc : GLGizmoCut.calc_projection unit_vector mouse_ray d1 = 0).
      { unfold GLGizmoCut.calc_projection. cbv zeta.
        destruct (Req_dec_T _ 0) as [_ | Hn]; [reflexivity|].
        exfalso. apply Hn. rewrite norm_zero, vsub_zero. exact Hsame. }
      split; [exact Hcalc|].
      rewrite Hcalc, Rplus_0_r. reflexivity.
Qed.

End CutDrag.

(** ** Dragging a grabber of the scale gizmo *)

Section ScaleDrag.
Import GLGizmoScale3D.
Context (unit_vector : Linef3 -> Vec3d).
Open Scope R_scope.

Lemma nonnegative_scaled (k x : R) : 0 <= x -> 0 < k -> 0 <= x * k.
Proof. intros. apply Rmult_le_pos; lra. Qed.

(** X17: dragging a grabber of the scale gizmo.  Without a hovered grabber,
    or when [calc_ratio] is not positive, [on_update] changes nothing.
    Otherwise it writes only [m_scale], and there only the factor of the
    axis of the grabber: the grabbers 0 and 1 leave the factors in y and z,
    2 and 3 those in x and z, 4 and 5 those in x and y; the factor written
    is the starting factor times the ratio, for the grabbers from 6 on in
    all three axes.  [on_update] never makes a factor negative when neither
    the factors nor the starting factors are. *)
Theorem X17_scale_drag (data : UpdateData) (g : GLGizmoScale3D) :
  let g' := GLGizmoScale3D.on_update unit_vector data g in
  let ratio := GLGizmoScale3D.calc_ratio unit_vector data g in
  ((m_hover_id g < 0)%Z -> g' = g) /\
  (~ 0 < ratio -> g' = g) /\
  g' = GLGizmoScale3D.with_scale (m_scale g') g /\
  (0 < ratio ->
   (m_hover_id g = 0%Z \/ m_hover_id g = 1%Z ->
    m_scale g' = mkVec3d (vx (m_starting_scale g) * ratio)
                         (vy (m_scale g)) (vz (m_scale g))) /\
   (m_hover_id g = 2%Z \/ m_hover_id g = 3%Z ->
    m_scale g' = mkVec3d (vx (m_scale g))
                         (vy (m_starting_scale g) * ratio) (vz (m_scale g))) /\
   (m_hover_id g = 4%Z \/ m_hover_id g = 5%Z ->
    m_scale g' = mkVec3d (vx (m_scale g)) (vy (m_scale g))
                         (vz (m_starting_scale g) * ratio)) /\
   ((6 <= m_hover_id g)%Z ->
    m_scale g' = mkVec3d (vx (m_starting_scale g) * ratio)
                         (vy (m_starting_scale g) * ratio)
                         (vz (m_starting_scale g) * ratio))) /\
  (not_negative (m_scale g) -> not_negative (m_starting_scale g) ->
   not_negative (m_scale g')).
Proof.
  cbv zeta.
  assert (Hnone : (m_hover_id g < 0)%Z ->
                  GLGizmoScale3D.on_update unit_vector data g = g).
  { intros Hneg. unfold GLGizmoScale3D.on_update.
    destruct (Z.eqb_spec (m_hover_id g) 0); [lia|].
    destruct (Z.eqb_spec (m_hover_id g) 1); [lia|].
    destruct (Z.eqb_spec (m_hover_id g) 2); [lia|].
    destruct (Z.eqb_spec (m_hover_id g) 3); [lia|].
    destruct (Z.eqb_spec (m_hover_id g) 4); [lia|].
    destruct (Z.eqb_spec (m_hover_id g) 5); [lia|].
    destruct (Z.leb_spec 6 (m_hover_id g)); [lia|]. reflexivity. }
  split; [exact Hnone|].
  unfold GLGizmoScale3D.on_update, GLGizmoScale3D.do_scale_x,
    GLGizmoScale3D.do_scale_y, GLGizmoScale3D.do_scale_z,
    GLGizmoScale3D.do_scale_uniform.
  cbv zeta.
  destruct (Rlt_dec 0 (GLGizmoScale3D.calc_ratio unit_vector data g)) as [Hr | Hr].
  - split; [intros Hn; contradiction|].
    split.
    { repeat match goal with
             | |- context [if ?b then _ else _] => destruct b
             end; now destruct g. }
    split.
    + intros _. repeat split.
      * intros [-> | ->]; reflexivity.
      * intros [-> | ->]; reflexivity.
      * intros [-> | ->]; reflexivity.
      * intros Hsix.
        destruct (Z.eqb_spec (m_hover_id g) 0); [lia|].
        destruct (Z.eqb_spec (m_hover_id g) 1); [lia|].
        destruct (Z.eqb_spec (m_hover_id g) 2); [lia|].
        destruct (Z.eqb_spec (m_hover_id g) 3); [lia|].
        destruct (Z.eqb_spec (m_hover_id g) 4); [lia|].
        destruct (Z.eqb_spec (m_hover_id g) 5); [lia|].
        destruct (Z.leb_spec 6 (m_hover_id g)); [|lia].
        reflexivity.
    + intros (Hx & Hy & Hz) (Hsx & Hsy & Hsz).
      repeat match goal with
             | |- context [if ?b then _ else _] => destruct b
             end;
        unfold not_negative; cbn [m_scale GLGizmoScale3D.with_scale vx vy vz];
        auto using nonnegative_scaled.
  - assert (Hsame : (if (m_hover_id g =? 0)%Z || (m_hover_id g =? 1)%Z then g
                     else if (m_hover_id g =? 2)%Z || (m_hover_id g =? 3)%Z then g
                     else if (m_hover_id g =? 4)%Z || (m_hover_id g =? 5)%Z then g
                     else if (6 <=? m_hover_id g)%Z then g else g) = g).
    { repeat match goal with
             | |- context [if ?b then _ else _] => destruct b
             end; reflexivity. }
    rewrite Hsame.
    split; [reflexivity|]. split; [now destruct g|].
    split; [intros Hn; contradiction|]. now intros Hpos _.
Qed.

End ScaleDrag.

(** ** Default instances *)

Section DefaultInstances.
Context `{MeshAlgorithms}.

Lemma add_default_instances_loop os : forall s,
  let r := mapM (fun o => match instances o with
                          | [] => ModelObject.add_instance o
                          | _ => ret o
                          end) os s in
  Forall2 defaulted os (fst r) /\
  forall t,
    mapM (fun o => match instances o with
                   | [] => ModelObject.add_instance o
                   | _ => ret o
                   end) (fst r) t = (fst r, t).
Proof.
  set (f := fun o : ModelObject => match instances o with
                                   | [] => ModelObject.add_instance o
                                   | _ => ret o
                                   end).
  induction os as [|o os IH]; intros s; cbv zeta.
  - cbn. split; [constructor | reflexivity].
  - rewrite mapM_cons.
    destruct (f o s) as [o1 s1] eqn:Ef. cbn [fst snd].
    destruct (IH s1) as [Hall Hagain]. cbv zeta in Hall, Hagain.
    assert (Ho1 : defaulted o o1 /\ forall t, f o1 t = (o1, t)).
    { unfold f in Ef |- *. unfold defaulted.
      destruct (instances o) as [|i l] eqn:Ei.
      - unfold ModelObject.add_instance, ModelInstance.new_default, bind, ret in Ef.
        destruct (generate_new_id s) as [id s'].
        injection Ef as <- <-.
        cbn [instances volumes mo_id ModelObject.invalidate_bounding_box
             ModelObject.with_bounding_box ModelObject.with_instances].
        rewrite Ei. cbn [app].
        split; [|reflexivity]. split; [reflexivity|]. split; [reflexivity|].
        eexists. split; reflexivity.
      - unfold ret in Ef. injection Ef as <- <-. rewrite Ei. auto. }
    destruct Ho1 as [Ho1 Hf1]. split.
    + constructor; assumption.
    + intros t. rewrite mapM_cons, Hf1. cbn [fst snd]. now rewrite Hagain.
Qed.

(** X18: [add_default_instances] makes sure every object has an instance:
    afterwards no object is without one, an object that had instances is
    unchanged, an object that had none has got exactly one, with the identity
    placement, and the materials are as before.  A second call changes nothing
    and takes no ID. *)
Theorem X18_add_default_instances (m : Model) (s_last_id : Z) :
  let r := Model.add_default_instances m s_last_id in
  Forall (fun o => instances o <> []) (objects (fst r)) /\
  Forall2 defaulted (objects m) (objects (fst r)) /\
  materials (fst r) = materials m /\
  Model.add_default_instances (fst r) (snd r) = r.
Proof.
  cbv zeta. unfold Model.add_default_instances, bind, ret.
  destruct (add_default_instances_loop (objects m) s_last_id) as [Hall Hagain].
  cbv zeta in Hall, Hagain.
  destruct (mapM _ (objects m) s_last_id) as [os s1] eqn:Erun.
  cbn [fst snd objects materials Model.with_objects] in *.
  split; [|split; [exact Hall | split; [reflexivity|]]].
  - clear Hagain Erun. induction Hall as [|o o' os0 os' Ho _ IH]; constructor; [|exact IH].
    destruct Ho as (_ & _ & Ho). destruct (instances o) as [|i l] eqn:Ei.
    + destruct Ho as (i & -> & _). discriminate.
    + subst o'. rewrite Ei. discriminate.
  - rewrite Hagain. reflexivity.
Qed.

End DefaultInstances.

(** ** Dragging the grabber of the rotate gizmo *)

Section RotateDrag.
Import GLGizmoRotate.
Open Scope R_scope.

(** Rounding a number between zero and a whole number stays between
    them. *)
Lemma std_round_range (x : R) (n : Z) :
  0 <= x <= IZR n -> 0 <= std_round x <= IZR n.
Proof.
  intros [Hlo Hhi]. unfold std_round.
  destruct (Rle_dec 0 x) as [_ | Hneg]; [|contradiction].
  destruct (base_Int_part (x + / 2)) as [Hle Hgt].
  set (k := Int_part (x + / 2)) in *.
  assert (Hk0 : (0 <= k)%Z).
  { apply le_IZR. assert (IZR k > -1) by lra.
    assert (Hlt : (-1 < k)%Z) by (apply lt_IZR; lra). apply IZR_le. lia. }
  assert (Hkn : (k <= n)%Z).
  { assert (Hlt : (k < n + 1)%Z) by (apply lt_IZR; rewrite plus_IZR; lra). lia. }
  split; [now apply (IZR_le 0) | now apply IZR_le].
Qed.

Lemma snapped_range (theta : R) (n : Z) :
  (0 < n)%Z -> 0 <= theta <= 2 * PI ->
  0 <= 2 * PI / IZR n * std_round (theta / (2 * PI / IZR n)) <= 2 * PI.
Proof.
  intros Hn [Hlo Hhi]. pose proof PI_RGT_0 as Hpi.
  assert (Hn' : 0 < IZR n) by now apply (IZR_lt 0).
  set (step := 2 * PI / IZR n).
  assert (Hstep : 0 < step).
  { unfold step. apply Rdiv_lt_0_compat; lra. }
  assert (Hfull : step * IZR n = 2 * PI).
  { unfold step. field. lra. }
  destruct (std_round_range (theta / step) n) as [Hr0 Hrn].
  { split.
    - apply Rmult_le_pos; [lra|]. left. now apply Rinv_0_lt_compat.
    - apply (Rmult_le_reg_l step); [exact Hstep|].
      replace (step * (theta / step)) with theta by (field; lra). lra. }
  split.
  - apply Rmult_le_pos; lra.
  - rewrite <- Hfull. apply Rmult_le_compat_l; lra.
Qed.

(** X19: the angle of the rotate gizmo.  Whatever the position of the
    mouse (off the centre of the gizmo) and whether or not it snaps,
    [on_update] leaves an angle of at least zero and less than a full turn,
    and changes nothing else.  [set_angle] of an angle between zero and a full
    turn stores an angle that is at least EPSILON short of the full turn. *)
Theorem X19_rotate_angle_range (mouse_pos : Vec2d) (g : GLGizmoRotate) :
  mouse_pos <> mkVec2d 0 0 ->
  let g' := GLGizmoRotate.on_update mouse_pos g in
  0 <= m_angle g' < 2 * PI /\
  g' = GLGizmoRotate.with_angle (m_angle g') g /\
  (forall angle, 0 <= angle <= 2 * PI ->
                 0 <= m_angle (GLGizmoRotate.set_angle angle g) <= 2 * PI - EPSILON).
Proof.
  intros _. cbv zeta. split; [|split; [reflexivity|]].
  2:{ intros angle [Hlo Hhi]. unfold GLGizmoRotate.set_angle. cbv zeta.
      cbn [m_angle GLGizmoRotate.with_angle].
      pose proof PI_RGT_0 as Hpi. unfold EPSILON in *.
      destruct (Rlt_dec (Rabs (angle - 2 * PI)) (1 / 10000)) as [Hnear | Hfar].
      - pose proof PI2_1 as Hhalf. unfold PI2 in Hhalf. lra.
      - unfold Rabs in Hfar. destruct (Rcase_abs (angle - 2 * PI)); lra. }
  unfold GLGizmoRotate.on_update. cbv zeta. cbn [m_angle GLGizmoRotate.with_angle].
  pose proof PI_RGT_0 as Hpi.
  set (c := clamp (-1) 1 _).
  pose proof (acos_bound c) as Hacos.
  set (theta0 := if Rlt_dec (cross2 _ _) 0 then 2 * PI - acos c else acos c).
  assert (H0 : 0 <= theta0 <= 2 * PI).
  { unfold theta0. destruct (Rlt_dec _ 0); lra. }
  clearbody theta0.
  set (theta1 := if Rleb _ _ && Rleb _ _ then _ else _).
  assert (H1 : 0 <= theta1 <= 2 * PI).
  { unfold theta1.
    destruct (Rleb _ _ && Rleb _ _).
    - apply snapped_range; [reflexivity | exact H0].
    - destruct (Rleb _ _ && Rleb _ _).
      + apply snapped_range; [reflexivity | exact H0].
      + exact H0. }
  clearbody theta1.
  destruct (Req_dec_T theta1 (2 * PI)) as [Hfull | Hnot]; lra.
Qed.

Lemma X19_rotate_angle_range_witness :
  mkVec2d 1 0 <> mkVec2d 0 0 /\
  0 <= m_angle (GLGizmoRotate.on_update (mkVec2d 1 0)
                  (mkGLGizmoRotate 0 1 2 3 4)) < 2 * PI.
Proof.
  assert (Hpos : mkVec2d 1 0 <> mkVec2d 0 0) by (intros [= H]; lra).
  split; [exact Hpos|].
  exact (proj1 (X19_rotate_angle_range (mkVec2d 1 0) (mkGLGizmoRotate 0 1 2 3 4) Hpos)).
Defined.

End RotateDrag.
